(** * SoccerLens: ranking and similarity subsystem

    A shallow embedding of [players/models.py], [players/sorting.py],
    [players/vector_search.py] and of the actions of [players/views.py]
    that use them, and the properties of the sort registry and of the
    similarity engine that are stated about them.

    Numbers.  Python [int] is [Z].  Python [float] (and the NumPy scalars
    derived from it) is modelled by the real numbers [R]: arithmetic is
    exact, and comparisons on [R] are decided with [Rlt_dec] and friends.
    What is proved over [R] is limited to orderings, signs, guards and
    ranges that rounding to nearest keeps; where the rounded value itself
    matters, the module [Binary64] evaluates the code on primitive
    floats.

    Effects.  Code that may raise returns a [result]; code that talks to the
    record store runs in the monad [M], which threads the outcome of the
    successive store round trips.

    The store.  A query with an ordering returns its rows sorted by the
    keys of the ordering.  The store promises nothing about rows with
    equal keys; the model returns them in table order, one of the orders
    that the store may choose. *)

From Stdlib Require Import Reals Lra Lia ZArith List String Ascii Bool.
From Stdlib Require Import Permutation Sorted ListSet.
From Stdlib Require PrimFloat.
Import ListNotations.

Open Scope Z_scope.
Open Scope R_scope.
Open Scope string_scope.
Open Scope list_scope.

(* ================================================================== *)
(** ** Python values, exceptions and built-ins *)

Module Py.

Inductive exn : Type :=
| ValueError (msg : string)
| ZeroDivisionError
| TypeError
| FieldError (column : string)
| DatabaseError.

Inductive result (A : Type) : Type :=
| Ok (a : A)
| Raise (e : exn).

Arguments Ok {A} a.
Arguments Raise {A} e.

Definition rbind {A B} (m : result A) (k : A -> result B) : result B :=
  match m with
  | Ok a => k a
  | Raise e => Raise e
  end.

(** [try: m except Exception: h] for code without store access. *)
Definition rtry {A} (m : result A) (h : exn -> A) : A :=
  match m with
  | Ok a => a
  | Raise e => h e
  end.

Fixpoint rmap {A B} (f : A -> result B) (l : list A) : result (list B) :=
  match l with
  | [] => Ok []
  | x :: l' =>
      rbind (f x) (fun y => rbind (rmap f l') (fun ys => Ok (y :: ys)))
  end.

(** Comparisons of floats as booleans. *)
Definition flt (a b : R) : bool := if Rlt_dec a b then true else false.
Definition fle (a b : R) : bool := if Rle_dec a b then true else false.
Definition feq (a b : R) : bool := if Req_dec_T a b then true else false.

(** [a / b] on Python numbers: true division, raising on a zero divisor. *)
Definition truediv (a b : R) : result R :=
  if feq b 0 then Raise ZeroDivisionError else Ok (a / b).

(** [round(x, ndigits)]: nearest multiple of [10^-ndigits], ties to even. *)
Definition round_half_even (x : R) : Z :=
  let f := Int_part x in
  let d := frac_part x in
  if flt d (1 / 2) then f
  else if flt (1 / 2) d then (f + 1)%Z
  else if Z.even f then f else (f + 1)%Z.

Definition round (x : R) (ndigits : nat) : R :=
  IZR (round_half_even (x * 10 ^ ndigits)) / 10 ^ ndigits.

(** [min(a, b)] returns its first argument unless the second is smaller. *)
Definition min (a b : R) : R := if flt b a then b else a.

(** [l[:n]] on a list: a negative bound counts from the end. *)
Definition slice_to {A} (l : list A) (n : Z) : list A :=
  if (0 <=? n)%Z then firstn (Z.to_nat n) l
  else firstn (List.length l - Z.to_nat (- n)) l.

(** Stable sorting.  [before y x] says that [y] has to come strictly
    before [x]; an element is inserted in front of the first element that
    does not have to precede it, so equal elements keep their order. *)
Fixpoint insert_by {A} (before : A -> A -> bool) (x : A) (l : list A) : list A :=
  match l with
  | [] => [x]
  | y :: l' => if before y x then y :: insert_by before x l' else x :: y :: l'
  end.

Definition sort_by {A} (before : A -> A -> bool) (l : list A) : list A :=
  fold_right (insert_by before) [] l.

(** [l.sort(key=key, reverse=True)]: descending, and still stable. *)
Definition sort_reverse {A} (key : A -> R) (l : list A) : list A :=
  sort_by (fun y x => flt (key x) (key y)) l.

(** *** Strings *)

(** [needle in hay] *)
Fixpoint contains (needle hay : string) : bool :=
  if String.prefix needle hay then true
  else match hay with
       | EmptyString => false
       | String _ hay' => contains needle hay'
       end.

(** [sep.join(parts)] *)
Fixpoint join (sep : string) (parts : list string) : string :=
  match parts with
  | [] => EmptyString
  | [p] => p
  | p :: rest => (p ++ sep ++ join sep rest)%string
  end.

Definition lower_ascii (c : ascii) : ascii :=
  let n := nat_of_ascii c in
  if ((65 <=? n) && (n <=? 90))%nat then ascii_of_nat (n + 32) else c.

(** [s.lower()] *)
Fixpoint lower (s : string) : string :=
  match s with
  | EmptyString => EmptyString
  | String c s' => String (lower_ascii c) (lower s')
  end.

(** The characters [str.split()] treats as separators. *)
Definition isspace (c : ascii) : bool :=
  let n := nat_of_ascii c in
  ((9 <=? n) && (n <=? 13) || (28 <=? n) && (n <=? 32))%nat.

(** [s.split()]: maximal runs of non-space characters; [cur] is the run
    being read. *)
Fixpoint split_from (cur : string) (s : string) : list string :=
  match s with
  | EmptyString => if String.eqb cur EmptyString then [] else [cur]
  | String c s' =>
      if isspace c then
        if String.eqb cur EmptyString then split_from EmptyString s'
        else cur :: split_from EmptyString s'
      else split_from (cur ++ String c EmptyString)%string s'
  end.

Definition split (s : string) : list string := split_from EmptyString s.

(** [set(words)]: a list without repetitions. *)
Definition set_of (words : list string) : set string :=
  fold_right (set_add string_dec) (empty_set string) words.

End Py.

Import Py.

Declare Scope result_scope.
Notation "x <~ m ;; k" := (rbind m (fun x => k))
  (at level 61, m at next level, right associativity) : result_scope.
Open Scope result_scope.

(* ================================================================== *)
(** ** players/models.py *)

Module Models.

(** The columns of [Player], in the order of the class body, after the
    primary key [id] that Django adds.  Nullable columns are options;
    [created_at] and [updated_at] are instants, counted in microseconds. *)
Record Player : Type := mkPlayer {
  id : Z;
  rank : option Z;
  name : string;
  last_name : option string;
  nation : string;
  position : string;
  squad : string;
  competition : string;
  age : R;
  born_year : Z;
  matches_played : Z;
  starts : Z;
  minutes : Z;
  minutes_per_90 : R;
  goals : Z;
  assists : Z;
  goals_assists : Z;
  goals_minus_penalties : Z;
  penalties_scored : Z;
  penalties_attempted : Z;
  yellow_cards : Z;
  red_cards : Z;
  expected_goals : R;
  expected_goals_non_penalty : R;
  expected_assists : R;
  shots : Z;
  shots_on_target : Z;
  shots_on_target_percentage : R;
  shots_per_90 : R;
  shots_on_target_per_90 : R;
  passes_completed : Z;
  passes_attempted : Z;
  pass_completion_percentage : R;
  key_passes : Z;
  tackles : Z;
  tackles_won : Z;
  interceptions : Z;
  blocks : Z;
  clearances : Z;
  touches : Z;
  dribbles_attempted : Z;
  dribbles_successful : Z;
  dribble_success_percentage : R;
  goals_against : option R;
  goals_against_per_90 : option R;
  shots_faced : option Z;
  saves : option Z;
  save_percentage : option R;
  clean_sheets : option Z;
  progressive_carries : Z;
  progressive_passes : Z;
  progressive_receptions : Z;
  style_embedding : option (list R);
  style_description : string;
  similarity_score : option R;
  created_at : Z;
  updated_at : Z
}.

(** [p.similarity_score = s] *)
Definition set_similarity_score (p : Player) (s : R) : Player :=
  {| id := id p; rank := rank p; name := name p; last_name := last_name p;
     nation := nation p; position := position p; squad := squad p;
     competition := competition p; age := age p; born_year := born_year p;
     matches_played := matches_played p; starts := starts p;
     minutes := minutes p; minutes_per_90 := minutes_per_90 p;
     goals := goals p; assists := assists p;
     goals_assists := goals_assists p;
     goals_minus_penalties := goals_minus_penalties p;
     penalties_scored := penalties_scored p;
     penalties_attempted := penalties_attempted p;
     yellow_cards := yellow_cards p; red_cards := red_cards p;
     expected_goals := expected_goals p;
     expected_goals_non_penalty := expected_goals_non_penalty p;
     expected_assists := expected_assists p; shots := shots p;
     shots_on_target := shots_on_target p;
     shots_on_target_percentage := shots_on_target_percentage p;
     shots_per_90 := shots_per_90 p;
     shots_on_target_per_90 := shots_on_target_per_90 p;
     passes_completed := passes_completed p;
     passes_attempted := passes_attempted p;
     pass_completion_percentage := pass_completion_percentage p;
     key_passes := key_passes p; tackles := tackles p;
     tackles_won := tackles_won p; interceptions := interceptions p;
     blocks := blocks p; clearances := clearances p; touches := touches p;
     dribbles_attempted := dribbles_attempted p;
     dribbles_successful := dribbles_successful p;
     dribble_success_percentage := dribble_success_percentage p;
     goals_against := goals_against p;
     goals_against_per_90 := goals_against_per_90 p;
     shots_faced := shots_faced p; saves := saves p;
     save_percentage := save_percentage p; clean_sheets := clean_sheets p;
     progressive_carries := progressive_carries p;
     progressive_passes := progressive_passes p;
     progressive_receptions := progressive_receptions p;
     style_embedding := style_embedding p;
     style_description := style_description p; similarity_score := Some s;
     created_at := created_at p; updated_at := updated_at p |}.

Definition goals_per_90 (self : Player) : result R :=
  if flt 0 (minutes_per_90 self) then
    q <~ truediv (IZR (goals self)) (minutes_per_90 self) ;;
    Ok (round q 2)
  else Ok 0.

Definition assists_per_90 (self : Player) : result R :=
  if flt 0 (minutes_per_90 self) then
    q <~ truediv (IZR (assists self)) (minutes_per_90 self) ;;
    Ok (round q 2)
  else Ok 0.

Definition goal_contribution_per_90 (self : Player) : result R :=
  if flt 0 (minutes_per_90 self) then
    q <~ truediv (IZR (goals_assists self)) (minutes_per_90 self) ;;
    Ok (round q 2)
  else Ok 0.

Definition minutes_per_game (self : Player) : result R :=
  if (0 <? matches_played self)%Z then
    q <~ truediv (IZR (minutes self)) (IZR (matches_played self)) ;;
    Ok (round q 1)
  else Ok 0.

(** The phrases contributed by the position. *)
Definition position_parts (self : Player) : list string :=
  if contains "FW" (position self) then
    ["attacking player"]
    ++ (if (10 <? goals self)%Z then ["prolific goalscorer"] else [])
    ++ (if (5 <? assists self)%Z then ["creative playmaker"] else [])
  else if contains "MF" (position self) then
    ["midfielder"]
    ++ (if (5 <? assists self)%Z then ["creative midfielder"] else [])
    ++ (if (20 <? tackles self)%Z then ["defensive midfielder"] else [])
  else if contains "DF" (position self) then
    ["defender"]
    ++ (if (30 <? tackles self)%Z then ["strong tackler"] else [])
    ++ (if flt 85 (pass_completion_percentage self)
        then ["ball-playing defender"] else [])
  else if contains "GK" (position self) then
    ["goalkeeper"]
    ++ (match save_percentage self with
        | Some sp =>
            if negb (feq sp 0) && flt 75 sp
            then ["reliable shot-stopper"] else []
        | None => []
        end)
  else [].

Definition description_parts (self : Player) : list string :=
  position_parts self
  (* performance characteristics *)
  ++ (if flt 60 (dribble_success_percentage self)
      then ["skilled dribbler"] else [])
  ++ (if flt 85 (pass_completion_percentage self)
      then ["accurate passer"] else [])
  ++ (if flt 50 (shots_on_target_percentage self)
      then ["clinical finisher"] else [])
  (* playing style *)
  ++ (if (50 <? progressive_passes self)%Z
      then ["progressive passer"] else [])
  ++ (if (30 <? progressive_carries self)%Z then ["ball carrier"] else [])
  (* age and experience *)
  ++ (if flt (age self) 23 then ["young talent"]
      else if flt 30 (age self) then ["experienced player"] else []).

Definition generate_style_description (self : Player) : string :=
  match description_parts self with
  | [] => "versatile player"
  | parts => join " " parts
  end.

(** [min(x / ref, 1.0) if x > 0 else 0] *)
Definition capped_rate (x ref : R) : result R :=
  if flt 0 x then q <~ truediv x ref ;; Ok (Py.min q 1) else Ok 0.

(** [pct / 100.0 if pct > 0 else 0] *)
Definition fraction_of_100 (pct : R) : result R :=
  if flt 0 pct then truediv pct 100 else Ok 0.

(** [min((n / self.minutes_per_90) / ref, 1.0) if self.minutes_per_90 > 0 else 0] *)
Definition per_90_capped (self : Player) (n : Z) (ref : R) : result R :=
  if flt 0 (minutes_per_90 self) then
    r <~ truediv (IZR n) (minutes_per_90 self) ;;
    q <~ truediv r ref ;;
    Ok (Py.min q 1)
  else Ok 0.

Definition get_statistics_vector (self : Player) : result (list R) :=
  g <~ goals_per_90 self ;;
  v_goals <~ capped_rate g 1 ;;
  a <~ assists_per_90 self ;;
  v_assists <~ capped_rate a (1 / 2) ;;
  v_shot <~ fraction_of_100 (shots_on_target_percentage self) ;;
  v_pass <~ fraction_of_100 (pass_completion_percentage self) ;;
  v_dribble <~ fraction_of_100 (dribble_success_percentage self) ;;
  v_tackles <~ per_90_capped self (tackles self) 5 ;;
  v_interceptions <~ per_90_capped self (interceptions self) 3 ;;
  v_passes <~ per_90_capped self (progressive_passes self) 10 ;;
  v_carries <~ per_90_capped self (progressive_carries self) 5 ;;
  q <~ truediv (age self) 40 ;;
  Ok [v_goals; v_assists; v_shot; v_pass; v_dribble; v_tackles;
      v_interceptions; v_passes; v_carries; Py.min q 1].

End Models.

Import Models.

(* ================================================================== *)
(** ** The record store, as the code uses it through the ORM *)

Module Django.

(** A column value.  Integer and float columns are kept apart because the
    store divides integers as integers. *)
Inductive value : Type :=
| VNull
| VInt (z : Z)
| VFloat (r : R)
| VStr (s : string).

Definition nullable {A} (f : A -> value) (o : option A) : value :=
  match o with
  | Some a => f a
  | None => VNull
  end.

(** The names that [order_by] resolves to a stored column: every column
    of [Player] and the alias [pk] of the primary key.  The JSON column
    [style_embedding] is left out: how the store orders JSON values
    depends on the backend. *)
Definition columns : list (string * (Player -> value)) :=
  [ ("id", fun p => VInt (id p));
    ("rank", fun p => nullable VInt (rank p));
    ("name", fun p => VStr (name p));
    ("last_name", fun p => nullable VStr (last_name p));
    ("nation", fun p => VStr (nation p));
    ("position", fun p => VStr (position p));
    ("squad", fun p => VStr (squad p));
    ("competition", fun p => VStr (competition p));
    ("age", fun p => VFloat (age p));
    ("born_year", fun p => VInt (born_year p));
    ("matches_played", fun p => VInt (matches_played p));
    ("starts", fun p => VInt (starts p));
    ("minutes", fun p => VInt (minutes p));
    ("minutes_per_90", fun p => VFloat (minutes_per_90 p));
    ("goals", fun p => VInt (goals p));
    ("assists", fun p => VInt (assists p));
    ("goals_assists", fun p => VInt (goals_assists p));
    ("goals_minus_penalties", fun p => VInt (goals_minus_penalties p));
    ("penalties_scored", fun p => VInt (penalties_scored p));
    ("penalties_attempted", fun p => VInt (penalties_attempted p));
    ("yellow_cards", fun p => VInt (yellow_cards p));
    ("red_cards", fun p => VInt (red_cards p));
    ("expected_goals", fun p => VFloat (expected_goals p));
    ("expected_goals_non_penalty",
      fun p => VFloat (expected_goals_non_penalty p));
    ("expected_assists", fun p => VFloat (expected_assists p));
    ("shots", fun p => VInt (shots p));
    ("shots_on_target", fun p => VInt (shots_on_target p));
    ("shots_on_target_percentage",
      fun p => VFloat (shots_on_target_percentage p));
    ("shots_per_90", fun p => VFloat (shots_per_90 p));
    ("shots_on_target_per_90", fun p => VFloat (shots_on_target_per_90 p));
    ("passes_completed", fun p => VInt (passes_completed p));
    ("passes_attempted", fun p => VInt (passes_attempted p));
    ("pass_completion_percentage",
      fun p => VFloat (pass_completion_percentage p));
    ("key_passes", fun p => VInt (key_passes p));
    ("tackles", fun p => VInt (tackles p));
    ("tackles_won", fun p => VInt (tackles_won p));
    ("interceptions", fun p => VInt (interceptions p));
    ("blocks", fun p => VInt (blocks p));
    ("clearances", fun p => VInt (clearances p));
    ("touches", fun p => VInt (touches p));
    ("dribbles_attempted", fun p => VInt (dribbles_attempted p));
    ("dribbles_successful", fun p => VInt (dribbles_successful p));
    ("dribble_success_percentage",
      fun p => VFloat (dribble_success_percentage p));
    ("goals_against", fun p => nullable VFloat (goals_against p));
    ("goals_against_per_90",
      fun p => nullable VFloat (goals_against_per_90 p));
    ("shots_faced", fun p => nullable VInt (shots_faced p));
    ("saves", fun p => nullable VInt (saves p));
    ("save_percentage", fun p => nullable VFloat (save_percentage p));
    ("clean_sheets", fun p => nullable VInt (clean_sheets p));
    ("progressive_carries", fun p => VInt (progressive_carries p));
    ("progressive_passes", fun p => VInt (progressive_passes p));
    ("progressive_receptions", fun p => VInt (progressive_receptions p));
    ("style_description", fun p => VStr (style_description p));
    ("similarity_score", fun p => nullable VFloat (similarity_score p));
    ("created_at", fun p => VInt (created_at p));
    ("updated_at", fun p => VInt (updated_at p));
    ("pk", fun p => VInt (id p)) ].

Fixpoint lookup {V} (k : string) (d : list (string * V)) : option V :=
  match d with
  | [] => None
  | (k', v) :: d' => if String.eqb k k' then Some v else lookup k d'
  end.

(** The order of column values: NULL first, then numbers by value, then
    text in code-point order. *)
Definition number (v : value) : option R :=
  match v with
  | VInt z => Some (IZR z)
  | VFloat r => Some r
  | _ => None
  end.

Definition value_lt (a b : value) : bool :=
  match a, b with
  | VNull, VNull => false
  | VNull, _ => true
  | _, VNull => false
  | VStr s, VStr t => String.ltb s t
  | VStr _, _ => false
  | _, VStr _ => true
  | _, _ =>
      match number a, number b with
      | Some x, Some y => flt x y
      | _, _ => false
      end
  end.

(** [a / b] in the store: integers divide as integers, NULL is absorbing,
    and a zero divisor is a fault. *)
Definition sql_div (a b : value) : result value :=
  match a, b with
  | VNull, _ | _, VNull => Ok VNull
  | VInt x, VInt y =>
      if (y =? 0)%Z then Raise ZeroDivisionError else Ok (VInt (Z.quot x y))
  | _, _ =>
      match number a, number b with
      | Some x, Some y => v <~ truediv x y ;; Ok (VFloat v)
      | _, _ => Raise TypeError
      end
  end.

(** [output_field=FloatField()] *)
Definition as_float (v : value) : value :=
  match v with
  | VInt z => VFloat (IZR z)
  | _ => v
  end.

(** A lazy query: the table it reads, the conjunction of its conditions,
    its annotations, its ordering (a leading [-] means descending) and
    its row limit. *)
Record QuerySet : Type := mkQuerySet {
  table : list Player;
  conditions : list (Player -> bool);
  annotations : list (string * (Player -> result value));
  ordering : list string;
  stop : option nat
}.

(** [Meta.ordering] of [Player]. *)
Definition Meta_ordering : list string := ["-goals"; "-assists"; "name"].

(** [Player.objects] over the rows [db] of the table. *)
Definition objects (db : list Player) : QuerySet :=
  mkQuerySet db [] [] Meta_ordering None.

Definition qs_filter (c : Player -> bool) (qs : QuerySet) : QuerySet :=
  mkQuerySet (table qs) (conditions qs ++ [c]) (annotations qs)
             (ordering qs) (stop qs).

Definition qs_exclude (c : Player -> bool) (qs : QuerySet) : QuerySet :=
  qs_filter (fun p => negb (c p)) qs.

Definition qs_annotate (name : string) (e : Player -> result value)
    (qs : QuerySet) : QuerySet :=
  mkQuerySet (table qs) (conditions qs) ((name, e) :: annotations qs)
             (ordering qs) (stop qs).

(** ['-goals'] is [(true, 'goals')]. *)
Definition parse_term (t : string) : bool * string :=
  match t with
  | String "-"%char col => (true, col)
  | _ => (false, t)
  end.

Definition resolve (qs : QuerySet) (col : string) (p : Player) : result value :=
  match lookup col (annotations qs) with
  | Some e => e p
  | None =>
      match lookup col columns with
      | Some f => Ok (f p)
      | None => Raise (FieldError col)
      end
  end.

Definition known (qs : QuerySet) (col : string) : bool :=
  match lookup col (annotations qs), lookup col columns with
  | None, None => false
  | _, _ => true
  end.

(** [qs.order_by(terms...)] replaces the ordering; a sliced query cannot
    be reordered, and an unknown name is refused. *)
Definition qs_order_by (terms : list string) (qs : QuerySet) : result QuerySet :=
  match stop qs with
  | Some _ => Raise TypeError
  | None =>
      match List.find (fun t => negb (known qs (snd (parse_term t)))) terms with
      | Some t => Raise (FieldError (snd (parse_term t)))
      | None =>
          Ok (mkQuerySet (table qs) (conditions qs) (annotations qs) terms None)
      end
  end.

(** [qs[:n]] *)
Definition qs_slice_to (qs : QuerySet) (n : Z) : result QuerySet :=
  if (n <? 0)%Z then Raise (ValueError "Negative indexing is not supported.")
  else
    Ok (mkQuerySet (table qs) (conditions qs) (annotations qs) (ordering qs)
          (Some (match stop qs with
                 | Some m => Nat.min m (Z.to_nat n)
                 | None => Z.to_nat n
                 end))).

(** [k1] sorts strictly before [k2] under the directions [descs]. *)
Fixpoint lex_before (descs : list bool) (k1 k2 : list value) : bool :=
  match descs, k1, k2 with
  | d :: ds, a :: k1', b :: k2' =>
      if value_lt a b then negb d
      else if value_lt b a then d
      else lex_before ds k1' k2'
  | _, _, _ => false
  end.

Definition sort_keys (qs : QuerySet) (p : Player) : result (list value) :=
  rmap (fun t => resolve qs (snd (parse_term t)) p) (ordering qs).

Definition selected (qs : QuerySet) : list Player :=
  List.filter (fun p => forallb (fun c => c p) (conditions qs)) (table qs).

Definition limited {A} (n : option nat) (l : list A) : list A :=
  match n with
  | Some k => firstn k l
  | None => l
  end.

(** The rows a query denotes: select, compute the sort keys of every
    row, order (rows with equal keys stay in table order), limit. *)
Definition rows (qs : QuerySet) : result (list Player) :=
  keyed <~ rmap (fun p => ks <~ sort_keys qs p ;; Ok (ks, p)) (selected qs) ;;
  Ok (limited (stop qs)
        (map snd
           (sort_by (fun a b =>
                       lex_before (map (fun t => fst (parse_term t)) (ordering qs))
                                  (fst a) (fst b))
                    keyed))).

(** *** Store round trips

    Evaluating a query is a round trip to the store, and a round trip may
    fail.  The state of [M] lists, for the round trips still to come,
    whether each one fails; past the end of the list none does. *)
Definition Faults := list bool.

Definition M (A : Type) : Type := Faults -> result A * Faults.

Definition ret {A} (a : A) : M A := fun s => (Ok a, s).

Definition bind {A B} (m : M A) (k : A -> M B) : M B :=
  fun s =>
    match m s with
    | (Ok a, s') => k a s'
    | (Raise e, s') => (Raise e, s')
    end.

Definition raise {A} (e : exn) : M A := fun s => (Raise e, s).

Definition lift {A} (r : result A) : M A := fun s => (r, s).

(** [try: m except Exception as e: h e] *)
Definition try_except {A} (m : M A) (h : exn -> M A) : M A :=
  fun s =>
    match m s with
    | (Ok a, s') => (Ok a, s')
    | (Raise e, s') => h e s'
    end.

(** Iterating over a query evaluates it. *)
Definition fetch (qs : QuerySet) : M (list Player) :=
  fun s =>
    match s with
    | true :: s' => (Raise DatabaseError, s')
    | false :: s' => (rows qs, s')
    | [] => (rows qs, [])
    end.

End Django.

Import Django.

Declare Scope monad_scope.
Notation "x <- m ;; k" := (bind m (fun x => k))
  (at level 61, m at next level, right associativity) : monad_scope.
Open Scope monad_scope.

(* ================================================================== *)
(** ** players/sorting.py *)

Module Sorting.

Record SortOption : Type := mkSortOption {
  display_name : string;
  field : string;
  description : string;
  category : string
}.

(** [PlayerSortingManager.SORT_OPTIONS] as the class body defines it.  The
    registry is a class attribute that [add_sort_option] and
    [remove_sort_option] update, so the operations below take the current
    registry as an argument. *)
Definition SORT_OPTIONS : list (string * SortOption) :=
  [ ("name", mkSortOption "Name (A-Z)" "last_name"
       "Sort by last name alphabetically" "basic");
    ("goals", mkSortOption "Goals" "goals" "Total goals scored" "attacking");
    ("assists", mkSortOption "Assists" "assists"
       "Total assists provided" "attacking");
    ("goals_assists", mkSortOption "Goals + Assists" "goals_assists"
       "Combined goals and assists" "attacking");
    ("goals_per_90", mkSortOption "Goals per 90" "goals_per_90"
       "Goals scored per 90 minutes" "attacking");
    ("assists_per_90", mkSortOption "Assists per 90" "assists_per_90"
       "Assists per 90 minutes" "attacking");
    ("goal_contribution_per_90",
       mkSortOption "Goal Contributions per 90" "goal_contribution_per_90"
       "Goals + assists per 90 minutes" "attacking");
    ("expected_goals", mkSortOption "Expected Goals (xG)" "expected_goals"
       "Expected goals based on shot quality" "advanced_attacking");
    ("expected_assists", mkSortOption "Expected Assists (xA)" "expected_assists"
       "Expected assists based on pass quality" "advanced_attacking");
    ("shots_on_target_percentage",
       mkSortOption "Shot Accuracy %" "shots_on_target_percentage"
       "Percentage of shots on target" "shooting");
    ("pass_completion_percentage",
       mkSortOption "Pass Accuracy %" "pass_completion_percentage"
       "Pass completion percentage" "passing");
    ("key_passes", mkSortOption "Key Passes" "key_passes"
       "Passes leading to shots" "passing");
    ("tackles", mkSortOption "Tackles" "tackles"
       "Total tackles made" "defensive");
    ("interceptions", mkSortOption "Interceptions" "interceptions"
       "Total interceptions" "defensive");
    ("blocks", mkSortOption "Blocks" "blocks" "Total blocks" "defensive");
    ("dribble_success_percentage",
       mkSortOption "Dribble Success %" "dribble_success_percentage"
       "Successful dribble percentage" "possession");
    ("progressive_carries", mkSortOption "Progressive Carries"
       "progressive_carries" "Carries that advance the ball" "possession");
    ("progressive_passes", mkSortOption "Progressive Passes"
       "progressive_passes" "Passes that advance the ball" "possession");
    ("save_percentage", mkSortOption "Save %" "save_percentage"
       "Save percentage (goalkeepers only)" "goalkeeper");
    ("clean_sheets", mkSortOption "Clean Sheets" "clean_sheets"
       "Clean sheets kept (goalkeepers only)" "goalkeeper");
    ("goals_against_per_90", mkSortOption "Goals Against per 90"
       "goals_against_per_90" "Goals conceded per 90 (goalkeepers only)"
       "goalkeeper");
    ("matches_played", mkSortOption "Matches Played" "matches_played"
       "Total matches played" "playing_time");
    ("minutes", mkSortOption "Minutes Played" "minutes"
       "Total minutes played" "playing_time");
    ("minutes_per_game", mkSortOption "Minutes per Game" "minutes_per_game"
       "Average minutes per match" "playing_time");
    ("yellow_cards", mkSortOption "Yellow Cards" "yellow_cards"
       "Total yellow cards" "discipline");
    ("red_cards", mkSortOption "Red Cards" "red_cards"
       "Total red cards" "discipline");
    ("age", mkSortOption "Age" "age" "Player age" "basic") ].

Definition is_valid_sort_option (opts : list (string * SortOption))
    (sort_key : string) : bool :=
  match lookup sort_key opts with
  | Some _ => true
  | None => false
  end.

Definition get_sort_field (opts : list (string * SortOption))
    (sort_key : string) : result string :=
  match lookup sort_key opts with
  | Some o => Ok (field o)
  | None => Raise (ValueError ("Invalid sort option: " ++ sort_key)%string)
  end.

(** [Case(When(guard > 0, then=F(num) / F(den)), default=Value(0.0),
    output_field=FloatField())] *)
Definition guarded_ratio (guard num den : Player -> value) (p : Player)
    : result value :=
  if value_lt (VInt 0) (guard p) then
    q <~ sql_div (num p) (den p) ;; Ok (as_float q)
  else Ok (VFloat 0).

Definition calculated_fields : list string :=
  ["goals_per_90"; "assists_per_90"; "goal_contribution_per_90";
   "minutes_per_game"].

(** The annotation [_apply_calculated_sort] attaches for a calculated
    field: its name and its expression. *)
Definition calculated_annotation (field : string)
    : option (string * (Player -> result value)) :=
  if String.eqb field "goals_per_90" then
    Some ("goals_per_90_calc",
          guarded_ratio (fun p => VFloat (minutes_per_90 p))
                        (fun p => VInt (goals p))
                        (fun p => VFloat (minutes_per_90 p)))
  else if String.eqb field "assists_per_90" then
    Some ("assists_per_90_calc",
          guarded_ratio (fun p => VFloat (minutes_per_90 p))
                        (fun p => VInt (assists p))
                        (fun p => VFloat (minutes_per_90 p)))
  else if String.eqb field "goal_contribution_per_90" then
    Some ("goal_contribution_per_90_calc",
          guarded_ratio (fun p => VFloat (minutes_per_90 p))
                        (fun p => VInt (goals_assists p))
                        (fun p => VFloat (minutes_per_90 p)))
  else if String.eqb field "minutes_per_game" then
    Some ("minutes_per_game_calc",
          guarded_ratio (fun p => VInt (matches_played p))
                        (fun p => VInt (minutes p))
                        (fun p => VInt (matches_played p)))
  else None.

Definition _apply_calculated_sort (queryset : QuerySet) (field : string)
    (reverse : bool) : result QuerySet :=
  let '(queryset, sort_field) :=
    match calculated_annotation field with
    | Some (name, e) => (qs_annotate name e queryset, name)
    | None => (queryset, field)
    end in
  if reverse then qs_order_by [("-" ++ sort_field)%string] queryset
  else qs_order_by [sort_field] queryset.

Definition apply_sorting (opts : list (string * SortOption))
    (queryset : QuerySet) (sort_key : string) (reverse : bool)
    : result QuerySet :=
  if negb (is_valid_sort_option opts sort_key) then
    Raise (ValueError ("Invalid sort option: " ++ sort_key)%string)
  else
    field <~ get_sort_field opts sort_key ;;
    if existsb (String.eqb field) calculated_fields then
      _apply_calculated_sort queryset field reverse
    else if reverse then qs_order_by [("-" ++ field)%string] queryset
    else qs_order_by [field] queryset.

Definition add_sort_option (opts : list (string * SortOption))
    (key display_name field description category : string)
    : list (string * SortOption) :=
  let o := mkSortOption display_name field description category in
  if is_valid_sort_option opts key then
    map (fun kv => if String.eqb key (fst kv) then (key, o) else kv) opts
  else opts ++ [(key, o)].

Definition remove_sort_option (opts : list (string * SortOption))
    (key : string) : list (string * SortOption) * bool :=
  if is_valid_sort_option opts key then
    (List.filter (fun kv => negb (String.eqb key (fst kv))) opts, true)
  else (opts, false).

(** [get_sort_options(category)]: the whole registry when the category is
    [None] or empty, else the options of that category, in registry
    order. *)
Definition get_sort_options (opts : list (string * SortOption))
    (category : option string) : list (string * SortOption) :=
  match category with
  | Some (String c rest) =>
      List.filter (fun kv => String.eqb (Sorting.category (snd kv)) (String c rest))
                  opts
  | _ => opts
  end.

(** [get_categories()]: the categories in use, each once.  Python builds a
    set, whose order is not specified; the list keeps one occurrence of
    each. *)
Definition get_categories (opts : list (string * SortOption)) : list string :=
  nodup string_dec (map (fun kv => Sorting.category (snd kv)) opts).

End Sorting.

Import Sorting.

(* ================================================================== *)
(** ** players/vector_search.py *)

Module VectorSearch.

(** The service reads [VECTOR_SEARCH_CONFIG] from the settings, which are
    not part of the sources at hand: the two values are fields. *)
Record VectorSearchService : Type := mkVectorSearchService {
  enabled : bool;
  similarity_threshold : R
}.

(** *** NumPy *)

(** [np.all(v == 0)] *)
Definition np_all_zero (v : list R) : bool := forallb (fun x => feq x 0) v.

Fixpoint dot (v1 v2 : list R) : R :=
  match v1, v2 with
  | x :: v1', y :: v2' => x * y + dot v1' v2'
  | _, _ => 0
  end.

(** [np.dot(v1, v2)] refuses vectors of different lengths. *)
Definition np_dot (v1 v2 : list R) : result R :=
  if Nat.eqb (List.length v1) (List.length v2) then Ok (dot v1 v2)
  else Raise (ValueError "shapes not aligned").

(** [np.linalg.norm(v)] *)
Definition np_linalg_norm (v : list R) : R := sqrt (dot v v).

(** *** Scores *)

Definition _cosine_similarity (vector1 vector2 : list R) : R :=
  rtry
    (if np_all_zero vector1 || np_all_zero vector2 then Ok 0
     else
       dot_product <~ np_dot vector1 vector2 ;;
       let norm1 := np_linalg_norm vector1 in
       let norm2 := np_linalg_norm vector2 in
       if feq norm1 0 || feq norm2 0 then Ok 0
       else Ok (dot_product / (norm1 * norm2)))
    (fun _ => 0).

Definition is_empty {A} (l : list A) : bool :=
  match l with
  | [] => true
  | _ => false
  end.

Definition _text_similarity (text1 text2 : string) : R :=
  rtry
    (let words1 := set_of (split (lower text1)) in
     let words2 := set_of (split (lower text2)) in
     if is_empty words1 || is_empty words2 then Ok 0
     else
       let intersection := set_inter string_dec words1 words2 in
       let union := set_union string_dec words1 words2 in
       truediv (INR (List.length intersection)) (INR (List.length union)))
    (fun _ => 0).

(** *** Strategies *)

(** The scoring loop of the statistical and of the NLP strategy: score
    every candidate in turn, and keep the ones that reach the threshold,
    with their score attached. *)
Fixpoint collect (self : VectorSearchService) (score : Player -> result R)
    (similar_players : list Player) : result (list (Player * R)) :=
  match similar_players with
  | [] => Ok []
  | other_player :: rest =>
      similarity <~ score other_player ;;
      similarities <~ collect self score rest ;;
      if fle (similarity_threshold self) similarity then
        Ok ((set_similarity_score other_player similarity, similarity)
              :: similarities)
      else Ok similarities
  end.

(** The candidate queries of the three searches, before any ordering or
    limit of their own. *)
Definition fallback_candidates (db : list Player) (player : Player) : QuerySet :=
  qs_exclude (fun p => Z.eqb (id p) (id player))
    (qs_filter
       (fun p =>
          String.eqb (position p) (position player)
          && (fle (age player - 3) (age p) && fle (age p) (age player + 3))
          && String.eqb (competition p) (competition player))
       (objects db)).

Definition statistical_candidates (db : list Player) (player : Player)
    : QuerySet :=
  qs_exclude (fun p => Z.eqb (id p) (id player))
    (qs_filter
       (fun p =>
          String.eqb (position p) (position player)
          && String.eqb (competition p) (competition player))
       (objects db)).

Definition nlp_candidates (db : list Player) (player : Player) : QuerySet :=
  qs_exclude (fun p => Z.eqb (id p) (id player))
    (qs_filter (fun p => String.eqb (position p) (position player))
       (objects db)).

Definition _fallback_similarity_search (self : VectorSearchService)
    (db : list Player) (player : Player) (limit : Z) : M (list Player) :=
  try_except
    (similar_players <-
       lift (ordered <~
               qs_order_by ["-goals"; "-assists"]
                 (fallback_candidates db player) ;;
             qs_slice_to ordered limit) ;;
     fetched <- fetch similar_players ;;
     ret (map (fun p => set_similarity_score p (5 / 10)) fetched))
    (fun e => ret []).

Definition _find_statistical_similarities (self : VectorSearchService)
    (db : list Player) (player : Player) (limit : Z) : M (list Player) :=
  try_except
    (player_vector <- lift (get_statistics_vector player) ;;
     let similar_players := statistical_candidates db player in
     fetched <- fetch similar_players ;;
     similarities <-
       lift (collect self
               (fun other_player =>
                  other_vector <~ get_statistics_vector other_player ;;
                  Ok (_cosine_similarity player_vector other_vector))
               fetched) ;;
     ret (map fst (Py.slice_to (sort_reverse snd similarities) limit)))
    (fun e => _fallback_similarity_search self db player limit).

Definition _find_nlp_similarities (self : VectorSearchService)
    (db : list Player) (player : Player) (limit : Z) : M (list Player) :=
  try_except
    (let target_description := generate_style_description player in
     let similar_players := nlp_candidates db player in
     fetched <- fetch similar_players ;;
     similarities <-
       lift (collect self
               (fun other_player =>
                  let other_description :=
                    generate_style_description other_player in
                  Ok (_text_similarity target_description other_description))
               fetched) ;;
     ret (map fst (Py.slice_to (sort_reverse snd similarities) limit)))
    (fun e => _fallback_similarity_search self db player limit).

(** An entry of the dictionary [all_similar]. *)
Record Entry : Type := mkEntry {
  player_of : Player;
  statistical_score : option R;
  nlp_score : option R
}.

(** A dictionary keyed by player id, in insertion order. *)
Fixpoint dict_get (k : Z) (d : list (Z * Entry)) : option Entry :=
  match d with
  | [] => None
  | (k', v) :: d' => if Z.eqb k k' then Some v else dict_get k d'
  end.

(** [d[k] = v]: an existing key keeps its place. *)
Fixpoint dict_set (k : Z) (v : Entry) (d : list (Z * Entry)) : list (Z * Entry) :=
  match d with
  | [] => [(k, v)]
  | (k', v') :: d' =>
      if Z.eqb k k' then (k, v) :: d' else (k', v') :: dict_set k v d'
  end.

Definition add_statistical (all_similar : list (Z * Entry)) (p : Player)
    : list (Z * Entry) :=
  dict_set (id p) (mkEntry p (similarity_score p) (Some 0)) all_similar.

Definition add_nlp (all_similar : list (Z * Entry)) (p : Player)
    : list (Z * Entry) :=
  match dict_get (id p) all_similar with
  | Some data =>
      dict_set (id p)
        (mkEntry (player_of data) (statistical_score data) (similarity_score p))
        all_similar
  | None =>
      dict_set (id p) (mkEntry p (Some 0) (similarity_score p)) all_similar
  end.

(** [a * 0.6 + b * 0.4]; a score that is [None] cannot be multiplied. *)
Definition weighted (a b : option R) : result R :=
  match a, b with
  | Some x, Some y => Ok (x * (6 / 10) + y * (4 / 10))
  | _, _ => Raise TypeError
  end.

Definition hybrid_entry (item : Z * Entry) : result (Player * R) :=
  let data := snd item in
  hybrid_score <~ weighted (statistical_score data) (nlp_score data) ;;
  Ok (set_similarity_score (player_of data) hybrid_score, hybrid_score).

Definition _find_hybrid_similarities (self : VectorSearchService)
    (db : list Player) (player : Player) (limit : Z) : M (list Player) :=
  try_except
    (statistical_similar <-
       _find_statistical_similarities self db player (limit * 2) ;;
     nlp_similar <- _find_nlp_similarities self db player (limit * 2) ;;
     let all_similar := fold_left add_statistical statistical_similar [] in
     let all_similar := fold_left add_nlp nlp_similar all_similar in
     hybrid_scores <- lift (rmap hybrid_entry all_similar) ;;
     ret (map fst (Py.slice_to (sort_reverse snd hybrid_scores) limit)))
    (fun e => _fallback_similarity_search self db player limit).

Definition find_similar_players (self : VectorSearchService)
    (db : list Player) (player : Player) (limit : Z) (method : string)
    : M (list Player) :=
  if String.eqb method "statistical" then
    _find_statistical_similarities self db player limit
  else if String.eqb method "nlp" then
    _find_nlp_similarities self db player limit
  else if String.eqb method "hybrid" then
    _find_hybrid_similarities self db player limit
  else
    raise (ValueError ("Invalid method: " ++ method
                       ++ ". Use 'statistical', 'nlp', or 'hybrid'")%string).

End VectorSearch.

Import VectorSearch.

(* ================================================================== *)
(** ** The vector and the cosine in binary64

    Python's [float] and NumPy's [float64] are IEEE 754 binary64 numbers,
    whose operations round to nearest, ties to even; so are Rocq's
    primitive floats.  This module repeats [get_statistics_vector] and
    [_cosine_similarity] over them.  It is executable and serves to
    evaluate what the code returns on a given input, rounding included;
    the modules above idealise [float] as [R]. *)

Module Binary64.

Import PrimFloat.
Local Open Scope float_scope.

(** [float(n)] for the value [n] of an integer column.  The conversion
    is exact below 2^53 in absolute value. *)
Fixpoint of_pos (p : positive) : float :=
  match p with
  | xH => 1
  | xO q => 2 * of_pos q
  | xI q => 2 * of_pos q + 1
  end.

Definition of_int (n : Z) : float :=
  match n with
  | Z0 => 0
  | Zpos p => of_pos p
  | Zneg p => - of_pos p
  end.

(** [min(a, b)] *)
Definition min (a b : float) : float := if ltb b a then b else a.

(** The columns of [Player] that [get_statistics_vector] reads. *)
Record Player : Type := mkPlayer {
  minutes_per_90 : float;
  goals : Z;
  assists : Z;
  shots_on_target_percentage : float;
  pass_completion_percentage : float;
  tackles : Z;
  interceptions : Z;
  dribble_success_percentage : float;
  progressive_carries : Z;
  progressive_passes : Z;
  age : float
}.

Section Builtins.

(** Python's built-in [round(number, ndigits)] on a [float]. *)
Variable round : float -> Z -> float.

Definition goals_per_90 (self : Player) : float :=
  if ltb 0 (minutes_per_90 self) then
    round (of_int (goals self) / minutes_per_90 self) 2
  else 0.

Definition assists_per_90 (self : Player) : float :=
  if ltb 0 (minutes_per_90 self) then
    round (of_int (assists self) / minutes_per_90 self) 2
  else 0.

Definition get_statistics_vector (self : Player) : list float :=
  [ if ltb 0 (goals_per_90 self) then min (goals_per_90 self / 1) 1 else 0;
    if ltb 0 (assists_per_90 self) then min (assists_per_90 self / 0.5) 1
    else 0;
    if ltb 0 (shots_on_target_percentage self)
    then shots_on_target_percentage self / 100 else 0;
    if ltb 0 (pass_completion_percentage self)
    then pass_completion_percentage self / 100 else 0;
    if ltb 0 (dribble_success_percentage self)
    then dribble_success_percentage self / 100 else 0;
    if ltb 0 (minutes_per_90 self)
    then min ((of_int (tackles self) / minutes_per_90 self) / 5) 1 else 0;
    if ltb 0 (minutes_per_90 self)
    then min ((of_int (interceptions self) / minutes_per_90 self) / 3) 1
    else 0;
    if ltb 0 (minutes_per_90 self)
    then min ((of_int (progressive_passes self) / minutes_per_90 self) / 10) 1
    else 0;
    if ltb 0 (minutes_per_90 self)
    then min ((of_int (progressive_carries self) / minutes_per_90 self) / 5) 1
    else 0;
    min (age self / 40) 1 ].

End Builtins.

(** [np.all(v == 0)] *)
Definition np_all_zero (v : list float) : bool :=
  forallb (fun x => eqb x 0) v.

(** The sum of the products, added from left to right.  NumPy adds them
    in an order that depends on its build; the order does not matter
    where every product and every partial sum is exact. *)
Definition dot (v1 v2 : list float) : float :=
  fold_left (fun acc xy => acc + fst xy * snd xy) (combine v1 v2) 0.

(** [np.dot(v1, v2)] raises ValueError when the lengths differ. *)
Definition np_dot (v1 v2 : list float) : result float :=
  if Nat.eqb (List.length v1) (List.length v2) then Ok (dot v1 v2)
  else Raise (ValueError "shapes not aligned").

(** [np.linalg.norm(v)] *)
Definition np_linalg_norm (v : list float) : float := sqrt (dot v v).

Definition _cosine_similarity (vector1 vector2 : list float) : float :=
  rtry
    (if np_all_zero vector1 || np_all_zero vector2 then Ok 0
     else
       dot_product <~ np_dot vector1 vector2 ;;
       let norm1 := np_linalg_norm vector1 in
       let norm2 := np_linalg_norm vector2 in
       if eqb norm1 0 || eqb norm2 0 then Ok 0
       else Ok (dot_product / (norm1 * norm2)))
    (fun _ => 0).

End Binary64.

(* ================================================================== *)
(** ** players/views.py *)

Module Views.

(** The query parameters that the views below read, each as
    [request.query_params.get(name)] returns it: [None] when absent. *)
Record Params : Type := mkParams {
  top_performers : option string;
  regular_players : option string;
  sort_by : option string;
  sort_order : option string
}.

(** Truth value of an optional string: [None] and the empty string are
    false. *)
Definition truthy (o : option string) : bool :=
  match o with
  | Some (String _ _) => true
  | _ => false
  end.

(** [PlayerViewSet.get_queryset], over the registry [opts] and the table
    [db]. *)
Definition get_queryset (opts : list (string * SortOption)) (db : list Player)
    (query_params : Params) : result QuerySet :=
  let queryset := objects db in
  let queryset :=
    if truthy (top_performers query_params) then
      qs_filter (fun p => (5 <=? goals p)%Z || (5 <=? assists p)%Z
                          || (8 <=? goals_assists p)%Z)
                queryset
    else queryset in
  let queryset :=
    if truthy (regular_players query_params) then
      qs_filter (fun p => (5 <=? matches_played p)%Z && (450 <=? minutes p)%Z)
                queryset
    else queryset in
  let sort_order :=
    match sort_order query_params with
    | Some s => s
    | None => "desc"
    end in
  match sort_by query_params with
  | Some key =>
      if truthy (Some key) && is_valid_sort_option opts key then
        let reverse := String.eqb (lower sort_order) "desc" in
        apply_sorting opts queryset key reverse
      else qs_order_by ["-goals"; "-assists"] queryset
  | None => qs_order_by ["-goals"; "-assists"] queryset
  end.

(** The body of a response of the [similar] action. *)
Inductive SimilarData : Type :=
| SimilarError (error : string)
| SimilarFailure (e : exn)
| SimilarPlayers (player : Player) (similar_players : list Player)
    (method : string) (limit : Z) (total_found : Z).

Record Response : Type := mkResponse {
  data : SimilarData;
  status : Z
}.

Definition valid_methods : list string := ["statistical"; "nlp"; "hybrid"].

(** [PlayerViewSet.similar].  Two parts of the action are not code of
    this repository and are taken as parameters: [get_object], the lookup
    of the record by the framework (a computation over the store, which
    may raise), and [int], Python's conversion of a string to an integer
    (which raises ValueError on a string that is not a number).
    [limit_param] and [method_param] are the two query parameters, [None]
    when absent.  Serializing is the identity here. *)
Definition similar (get_object : M Player) (int : string -> result Z)
    (self : VectorSearchService) (db : list Player)
    (limit_param method_param : option string) : M Response :=
  player <- get_object ;;
  parsed <- lift match limit_param with
                 | Some text => int text
                 | None => Ok 10%Z
                 end ;;
  let limit := Z.min parsed 20 in
  let method :=
    match method_param with
    | Some m => m
    | None => "hybrid"
    end in
  if negb (existsb (String.eqb method) valid_methods) then
    ret (mkResponse
           (SimilarError "Invalid method. Choose from: ['statistical', 'nlp', 'hybrid']")
           400)
  else
    try_except
      (similar_players <- find_similar_players self db player limit method ;;
       ret (mkResponse
              (SimilarPlayers player similar_players method limit
                 (Z.of_nat (List.length similar_players)))
              200))
      (fun e => ret (mkResponse (SimilarFailure e) 500)).

(** An item of a category group of the [sort_options] action. *)
Record Item : Type := mkItem {
  key : string;
  item_display_name : string;
  item_description : string
}.

(** [categories[cat].append(item)], with [categories[cat] = []] first when
    the category is new. *)
Fixpoint append_item (cat : string) (item : Item)
    (categories : list (string * list Item)) : list (string * list Item) :=
  match categories with
  | [] => [(cat, [item])]
  | (c, items) :: rest =>
      if String.eqb cat c then (c, items ++ [item]) :: rest
      else (c, items) :: append_item cat item rest
  end.

(** The grouping loop of the [sort_options] action. *)
Definition group_by_category (options : list (string * SortOption))
    : list (string * list Item) :=
  fold_left
    (fun categories kv =>
       append_item (category (snd kv))
         (mkItem (fst kv) (display_name (snd kv)) (description (snd kv)))
         categories)
    options [].

(** The three parts of the response of [sort_options]. *)
Definition sort_options (opts : list (string * SortOption))
    (category_param : option string)
    : list (string * list Item) * list (string * SortOption) * list string :=
  let options := get_sort_options opts category_param in
  (group_by_category options, options, get_categories opts).

(** [PlayerViewSet.sort_options_by_category] *)
Definition sort_options_by_category (opts : list (string * SortOption))
    : list (string * list (string * SortOption)) :=
  map (fun category => (category, get_sort_options opts (Some category)))
      (get_categories opts).

End Views.

(* ================================================================== *)
(** * Vocabulary of the properties *)

(** The ranges of the columns that the feature vector reads: percentages
    in [[0,100]], counts, minutes and age not negative. *)
Definition in_range (p : Player) : Prop :=
  0 <= shots_on_target_percentage p <= 100
  /\ 0 <= pass_completion_percentage p <= 100
  /\ 0 <= dribble_success_percentage p <= 100
  /\ (0 <= goals p)%Z /\ (0 <= assists p)%Z
  /\ (0 <= tackles p)%Z /\ (0 <= interceptions p)%Z
  /\ (0 <= progressive_passes p)%Z /\ (0 <= progressive_carries p)%Z
  /\ 0 <= minutes_per_90 p
  /\ 0 <= age p.

Definition unit_interval (x : R) : Prop := 0 <= x <= 1.

(** A record whose per-90 columns are all empty. *)
Definition blank (i : Z) (nm pos comp : string) (years : R) (g a : Z) : Player :=
  {| id := i; rank := None; name := nm; last_name := None;
     nation := EmptyString; position := pos; squad := EmptyString;
     competition := comp; age := years; born_year := 0; matches_played := 0;
     starts := 0; minutes := 0; minutes_per_90 := 0; goals := g;
     assists := a; goals_assists := (g + a)%Z; goals_minus_penalties := 0;
     penalties_scored := 0; penalties_attempted := 0; yellow_cards := 0;
     red_cards := 0; expected_goals := 0; expected_goals_non_penalty := 0;
     expected_assists := 0; shots := 0; shots_on_target := 0;
     shots_on_target_percentage := 0; shots_per_90 := 0;
     shots_on_target_per_90 := 0; passes_completed := 0;
     passes_attempted := 0; pass_completion_percentage := 0; key_passes := 0;
     tackles := 0; tackles_won := 0; interceptions := 0; blocks := 0;
     clearances := 0; touches := 0; dribbles_attempted := 0;
     dribbles_successful := 0; dribble_success_percentage := 0;
     goals_against := None; goals_against_per_90 := None;
     shots_faced := None; saves := None; save_percentage := None;
     clean_sheets := None; progressive_carries := 0; progressive_passes := 0;
     progressive_receptions := 0; style_embedding := None;
     style_description := EmptyString; similarity_score := None;
     created_at := 0; updated_at := 0 |}.

(** The sort key that [apply_sorting], called on the registry of the
    class body, makes the store compute for the record [p]. *)
Definition derived_key (sort_key : string) (qs : QuerySet) (reverse : bool)
    (p : Player) : result (list value) :=
  sorted <~ apply_sorting SORT_OPTIONS qs sort_key reverse ;;
  sort_keys sorted p.

(** A phrase that begins with a character other than a separator. *)
Definition starts_with_word (s : string) : Prop :=
  match s with
  | EmptyString => False
  | String c _ => isspace c = false
  end.

(** The token set of a description, as [_text_similarity] builds it. *)
Definition tokens (text : string) : set string := set_of (split (lower text)).

(** [a] may stand directly in front of [b] under [before]. *)
Definition in_order {A} (before : A -> A -> bool) (a b : A) : Prop :=
  before b a = false.

(** The default order of the model: goals and assists descending, then
    name. *)
Definition Meta_keys (p : Player) : list value :=
  [VInt (goals p); VInt (assists p); VStr (name p)].

Definition Meta_ordered (l : list Player) : list Player :=
  map snd
    (sort_by (fun a b => lex_before [true; true; false] (fst a) (fst b))
       (map (fun p => (Meta_keys p, p)) l)).

(** The feature vector as a value: the computation never raises. *)
Definition statistics_vector (p : Player) : list R :=
  rtry (get_statistics_vector p) (fun _ => []).

(** The two scores of a candidate [c] against the target [player]. *)
Definition statistical_score_of (player c : Player) : R :=
  _cosine_similarity (statistics_vector player) (statistics_vector c).

Definition nlp_score_of (player c : Player) : R :=
  _text_similarity (generate_style_description player)
                   (generate_style_description c).

(** The candidates of [pool] that reach the threshold, each with its
    score attached, in pool order. *)
Definition kept (threshold : R) (score : Player -> R) (pool : list Player)
    : list (Player * R) :=
  map (fun c => (set_similarity_score c (score c), score c))
      (List.filter (fun c => fle threshold (score c)) pool).

(** Descending by score, cut at [limit], scores dropped. *)
Definition ranked (limit : Z) (similarities : list (Player * R)) : list Player :=
  map fst (Py.slice_to (sort_reverse snd similarities) limit).

(** The next round trip to the store fails. *)
Definition next_fails (s : Faults) : bool :=
  match s with
  | true :: _ => true
  | _ => false
  end.

(** The order of the fallback query: goals, then assists, both
    descending. *)
Definition goal_keys (p : Player) : list value :=
  [VInt (goals p); VInt (assists p)].

Definition by_goals_assists (l : list Player) : list Player :=
  map snd
    (sort_by (fun a b => lex_before [true; true] (fst a) (fst b))
       (map (fun p => (goal_keys p, p)) l)).

Definition goals_then_assists (a b : Player) : Prop :=
  (goals b < goals a)%Z \/ (goals a = goals b /\ (assists b <= assists a)%Z).

(** What the candidate queries select. *)
Definition same_group (player c : Player) : Prop :=
  position c = position player /\ competition c = competition player.

Definition age_band (player c : Player) : Prop :=
  age player - 3 <= age c <= age player + 3.

(** The score attached to a result. *)
Definition score_of (p : Player) : R :=
  match similarity_score p with
  | Some x => x
  | None => 0
  end.

(** A result of a search for [player]: another record, with a score. *)
Definition scored_other (player q : Player) : Prop :=
  id q <> id player /\ similarity_score q = Some (score_of q).

(** An entry of the dictionary of a search for [player]: filed under the
    id of its record, which is not the target, with both scores set. *)
Definition entry_ok (player : Player) (item : Z * Entry) : Prop :=
  fst item = id (player_of (snd item))
  /\ id (player_of (snd item)) <> id player
  /\ statistical_score (snd item) <> None
  /\ nlp_score (snd item) <> None.

(** The dictionary that the hybrid strategy builds from the two lists. *)
Definition entries (statistical_similar nlp_similar : list Player)
    : list (Z * Entry) :=
  fold_left add_nlp nlp_similar
    (fold_left add_statistical statistical_similar []).

(** The fused score of an entry. *)
Definition fused_score (data : Entry) : R :=
  rtry (weighted (statistical_score data) (nlp_score data)) (fun _ => 0).

Definition fused (statistical_similar nlp_similar : list Player)
    : list (Player * R) :=
  map (fun item =>
         (set_similarity_score (player_of (snd item)) (fused_score (snd item)),
          fused_score (snd item)))
      (entries statistical_similar nlp_similar).

Definition strategies : list string := ["statistical"; "nlp"; "hybrid"].

(** The candidates of [pool] that reach the threshold, scored and sorted
    by descending score. *)
Definition shortlist (threshold : R) (score : Player -> R) (pool : list Player)
    : list Player :=
  map fst (sort_reverse snd (kept threshold score pool)).

(** The record of [l] with id [k]. *)
Definition find_id (k : Z) (l : list Player) : option Player :=
  List.find (fun p => Z.eqb (id p) k) l.

(** The score that the list [l] gives the id [k]: 0.0 when [k] is not in
    the list. *)
Definition score_in (l : list Player) (k : Z) : R :=
  match find_id k l with
  | Some p => score_of p
  | None => 0
  end.

(** The order that the claim about the statistical strategy asks for:
    descending by score, and by ascending id among equal scores. *)
Definition score_then_id (a b : Player) : Prop :=
  score_of b < score_of a \/ (score_of a = score_of b /\ (id a < id b)%Z).

Definition example_service : VectorSearchService :=
  mkVectorSearchService true (7 / 10).

Definition target : Player := blank 1 "Target" "FW" "Premier League" 20 0 0.
Definition ann : Player := blank 3 "Ann" "FW" "Premier League" 20 0 0.
Definition bob : Player := blank 2 "Bob" "FW" "Premier League" 20 0 0.

Definition league : list Player := [target; bob; ann].

(** The rows of [qs] ordered by the one attribute [f], in the direction
    [desc]; rows with equal values stay in table order. *)
Definition ordered_by (f : Player -> value) (desc : bool) (l : list Player)
    : list Player :=
  map snd
    (sort_by (fun a b => lex_before [desc] (fst a) (fst b))
       (map (fun p => ([f p], p)) l)).

(** The order that the claim about the registry asks for: by the
    attribute in the requested direction, and by ascending id among equal
    values. *)
Definition attribute_then_id (f : Player -> value) (desc : bool)
    (a b : Player) : Prop :=
  (if desc then value_lt (f b) (f a) = true else value_lt (f a) (f b) = true)
  \/ (f a = f b /\ (id a < id b)%Z).

(** A record like [blank] that completes every pass. *)
Definition passer (i : Z) (nm pos comp : string) (years : R) : Player :=
  {| id := i; rank := None; name := nm; last_name := None;
     nation := EmptyString; position := pos; squad := EmptyString;
     competition := comp; age := years; born_year := 0; matches_played := 0;
     starts := 0; minutes := 0; minutes_per_90 := 0; goals := 0;
     assists := 0; goals_assists := 0; goals_minus_penalties := 0;
     penalties_scored := 0; penalties_attempted := 0; yellow_cards := 0;
     red_cards := 0; expected_goals := 0; expected_goals_non_penalty := 0;
     expected_assists := 0; shots := 0; shots_on_target := 0;
     shots_on_target_percentage := 0; shots_per_90 := 0;
     shots_on_target_per_90 := 0; passes_completed := 0;
     passes_attempted := 0; pass_completion_percentage := 100;
     key_passes := 0; tackles := 0; tackles_won := 0; interceptions := 0;
     blocks := 0; clearances := 0; touches := 0; dribbles_attempted := 0;
     dribbles_successful := 0; dribble_success_percentage := 0;
     goals_against := None; goals_against_per_90 := None;
     shots_faced := None; saves := None; save_percentage := None;
     clean_sheets := None; progressive_carries := 0; progressive_passes := 0;
     progressive_receptions := 0; style_embedding := None;
     style_description := EmptyString; similarity_score := None;
     created_at := 0; updated_at := 0 |}.

Definition carl : Player := passer 4 "Carl" "FW" "Premier League" 20.

(** The exact ratio behind a per-90 metric: [n / minutes_per_90] when the
    minutes are positive, else 0. *)
Definition per_90 (n : Player -> Z) (p : Player) : R :=
  if flt 0 (minutes_per_90 p) then IZR (n p) / minutes_per_90 p else 0.

(** The column that a per-90 sort key stands for. *)
Definition per_90_column (sort_key : string) : option (Player -> Z) :=
  if String.eqb sort_key "goals_per_90" then Some goals
  else if String.eqb sort_key "assists_per_90" then Some assists
  else if String.eqb sort_key "goal_contribution_per_90" then Some goals_assists
  else None.

(** The item that the [sort_options] action shows for a registry entry. *)
Definition item_of (kv : string * SortOption) : Views.Item :=
  Views.mkItem (fst kv) (display_name (snd kv)) (description (snd kv)).

(** The entries of [options] whose category is [c]. *)
Definition of_category (c : string) (options : list (string * SortOption))
    : list (string * SortOption) :=
  List.filter (fun kv => String.eqb (category (snd kv)) c) options.

(** A per-90 metric as the model property shows it: the exact ratio
    rounded to two decimals. *)
Definition shown_per_90 (n : Player -> Z) (p : Player) : R :=
  round (per_90 n p) 2.

(** [q] is a record of the table [db] with a score attached. *)
Definition from_table (db : list Player) (q : Player) : Prop :=
  exists c s, In c db /\ q = set_similarity_score c s.

(** The candidates of the NLP strategy that reach the threshold, in the
    order of the store. *)
Definition nlp_kept (self : VectorSearchService) (db : list Player)
    (player : Player) : list Player :=
  map fst (kept (similarity_threshold self) (nlp_score_of player)
             (Meta_ordered (selected (nlp_candidates db player)))).

(** The candidates of the statistical strategy that reach the threshold,
    by descending score. *)
Definition statistical_shortlist (self : VectorSearchService)
    (db : list Player) (player : Player) : list Player :=
  shortlist (similarity_threshold self) (statistical_score_of player)
    (Meta_ordered (selected (statistical_candidates db player))).

(** A score that is set and lies between 0 and 1. *)
Definition unit_score (o : option R) : Prop :=
  exists x, o = Some x /\ unit_interval x.

(** The limit that the [similar] action reads: the parameter converted
    by [int], or 10 when it is absent. *)
Definition limit_of (int : string -> result Z) (limit_param : option string)
    : result Z :=
  match limit_param with
  | Some text => int text
  | None => Ok 10%Z
  end.

(** The method that the [similar] action uses: the parameter, or
    [hybrid] when it is absent. *)
Definition method_of (method_param : option string) : string :=
  match method_param with
  | Some m => m
  | None => "hybrid"
  end.

(** The records that the list view keeps under the flags of [params]. *)
Definition listed (params : Views.Params) (p : Player) : bool :=
  (if Views.truthy (Views.top_performers params)
   then (5 <=? goals p)%Z || (5 <=? assists p)%Z || (8 <=? goals_assists p)%Z
   else true)
  && (if Views.truthy (Views.regular_players params)
      then (5 <=? matches_played p)%Z && (450 <=? minutes p)%Z
      else true).

(** The direction that the list view asks for: descending unless
    [sort_order] is given and is not [desc] in some letter case. *)
Definition descending (params : Views.Params) : bool :=
  match Views.sort_order params with
  | Some s => String.eqb (lower s) "desc"
  | None => true
  end.

(** A score that is set and is not negative. *)
Definition nonneg_score (o : option R) : Prop :=
  exists x, o = Some x /\ 0 <= x.

(** The ranges of [in_range], decided on a record in binary64. *)
Definition in_range64 (p : Binary64.Player) : bool :=
  let zero := Binary64.of_int 0 in
  let hundred := Binary64.of_int 100 in
  PrimFloat.leb zero (Binary64.shots_on_target_percentage p)
  && PrimFloat.leb (Binary64.shots_on_target_percentage p) hundred
  && PrimFloat.leb zero (Binary64.pass_completion_percentage p)
  && PrimFloat.leb (Binary64.pass_completion_percentage p) hundred
  && PrimFloat.leb zero (Binary64.dribble_success_percentage p)
  && PrimFloat.leb (Binary64.dribble_success_percentage p) hundred
  && (0 <=? Binary64.goals p)%Z && (0 <=? Binary64.assists p)%Z
  && (0 <=? Binary64.tackles p)%Z && (0 <=? Binary64.interceptions p)%Z
  && (0 <=? Binary64.progressive_passes p)%Z
  && (0 <=? Binary64.progressive_carries p)%Z
  && PrimFloat.leb zero (Binary64.minutes_per_90 p)
  && PrimFloat.leb zero (Binary64.age p).

(** A record in binary64 that has not played: half of its shots on
    target, three passes in four completed, half of its dribbles
    successful, aged 30. *)
Definition newcomer : Binary64.Player :=
  {| Binary64.minutes_per_90 := Binary64.of_int 0;
     Binary64.goals := 0; Binary64.assists := 0;
     Binary64.shots_on_target_percentage := Binary64.of_int 50;
     Binary64.pass_completion_percentage := Binary64.of_int 75;
     Binary64.tackles := 0; Binary64.interceptions := 0;
     Binary64.dribble_success_percentage := Binary64.of_int 50;
     Binary64.progressive_carries := 0; Binary64.progressive_passes := 0;
     Binary64.age := Binary64.of_int 30 |}.

(* ================================================================== *)
(** * Properties *)

(** ** Comparisons and division *)

Lemma flt_true (a b : R) : flt a b = true <-> a < b.
Proof. unfold flt. destruct (Rlt_dec a b); split; auto; discriminate. Qed.

Lemma flt_false (a b : R) : flt a b = false <-> b <= a.
Proof.
  unfold flt. destruct (Rlt_dec a b); split; intros; try discriminate;
    try reflexivity; lra.
Qed.

Lemma fle_true (a b : R) : fle a b = true <-> a <= b.
Proof. unfold fle. destruct (Rle_dec a b); split; auto; discriminate. Qed.

Lemma fle_false (a b : R) : fle a b = false <-> b < a.
Proof.
  unfold fle. destruct (Rle_dec a b); split; intros; try discriminate;
    try reflexivity; lra.
Qed.

Lemma feq_true (a b : R) : feq a b = true <-> a = b.
Proof. unfold feq. destruct (Req_dec_T a b); split; auto; discriminate. Qed.

Lemma feq_false (a b : R) : feq a b = false <-> a <> b.
Proof.
  unfold feq. destruct (Req_dec_T a b) as [e|n]; split; intros H.
  - discriminate.
  - now elim H.
  - exact n.
  - reflexivity.
Qed.

Lemma truediv_ok (a b : R) : b <> 0 -> truediv a b = Ok (a / b).
Proof. intros H. unfold truediv. apply feq_false in H. now rewrite H. Qed.

Lemma min_le_r (a b : R) : Py.min a b <= b.
Proof. unfold Py.min. destruct (flt b a) eqn:E; [lra | apply flt_false in E; lra]. Qed.

Lemma min_ge (a b c : R) : c <= a -> c <= b -> c <= Py.min a b.
Proof. intros. unfold Py.min. destruct (flt b a); lra. Qed.

Lemma rmap_ok {A B} (f : A -> result B) (g : A -> B) (l : list A) :
  (forall x, In x l -> f x = Ok (g x)) -> rmap f l = Ok (map g l).
Proof.
  induction l as [|x l IH]; intros H; simpl; [reflexivity|].
  rewrite (H x (or_introl eq_refl)). simpl.
  rewrite IH by (intros; apply H; now right). reflexivity.
Qed.

(** ** The feature vector *)

Lemma capped_rate_unit (x ref : R) :
  0 < ref -> exists v, capped_rate x ref = Ok v /\ unit_interval v.
Proof.
  intros Href. unfold capped_rate. destruct (flt 0 x) eqn:E.
  - apply flt_true in E. rewrite truediv_ok by lra. simpl.
    eexists; split; [reflexivity|]. split; [|apply min_le_r].
    apply min_ge; [|lra].
    apply Rlt_le, Rdiv_lt_0_compat; assumption.
  - exists 0. split; [reflexivity | unfold unit_interval; lra].
Qed.

Lemma fraction_of_100_unit (pct : R) :
  pct <= 100 -> exists v, fraction_of_100 pct = Ok v /\ unit_interval v.
Proof.
  intros H. unfold fraction_of_100. destruct (flt 0 pct) eqn:E.
  - apply flt_true in E. rewrite truediv_ok by lra.
    eexists; split; [reflexivity|]. unfold unit_interval. lra.
  - exists 0. split; [reflexivity | unfold unit_interval; lra].
Qed.

Lemma per_90_capped_unit (p : Player) (n : Z) (ref : R) :
  (0 <= n)%Z -> 0 < ref ->
  exists v, per_90_capped p n ref = Ok v /\ unit_interval v.
Proof.
  intros Hn Href. unfold per_90_capped. destruct (flt 0 (minutes_per_90 p)) eqn:E.
  - apply flt_true in E. rewrite truediv_ok by lra. simpl.
    rewrite truediv_ok by lra. simpl.
    eexists; split; [reflexivity|]. split; [|apply min_le_r].
    apply min_ge; [|lra].
    apply IZR_le in Hn.
    assert (0 <= IZR n / minutes_per_90 p).
    { apply Rmult_le_pos; [lra|]. apply Rlt_le, Rinv_0_lt_compat, E. }
    apply Rmult_le_pos; [lra|]. apply Rlt_le, Rinv_0_lt_compat, Href.
  - exists 0. split; [reflexivity | unfold unit_interval; lra].
Qed.

Lemma goals_per_90_total (p : Player) : exists v, goals_per_90 p = Ok v.
Proof.
  unfold goals_per_90. destruct (flt 0 (minutes_per_90 p)) eqn:E.
  - apply flt_true in E. rewrite truediv_ok by lra. simpl. eauto.
  - eauto.
Qed.

Lemma assists_per_90_total (p : Player) : exists v, assists_per_90 p = Ok v.
Proof.
  unfold assists_per_90. destruct (flt 0 (minutes_per_90 p)) eqn:E.
  - apply flt_true in E. rewrite truediv_ok by lra. simpl. eauto.
  - eauto.
Qed.

Lemma statistics_vector_unit (p : Player) :
  in_range p ->
  exists v, get_statistics_vector p = Ok v
            /\ List.length v = 10%nat /\ Forall unit_interval v.
Proof.
  intros (Hs & Hp & Hd & Hg & Ha & Ht & Hi & Hpp & Hpc & Hm & Hage).
  unfold get_statistics_vector.
  destruct (goals_per_90_total p) as [g ->]. simpl.
  destruct (capped_rate_unit g 1) as (v1 & -> & U1); [lra|]. simpl.
  destruct (assists_per_90_total p) as [a ->]. simpl.
  destruct (capped_rate_unit a (1 / 2)) as (v2 & -> & U2); [lra|]. simpl.
  destruct (fraction_of_100_unit (shots_on_target_percentage p))
    as (v3 & -> & U3); [lra|]. simpl.
  destruct (fraction_of_100_unit (pass_completion_percentage p))
    as (v4 & -> & U4); [lra|]. simpl.
  destruct (fraction_of_100_unit (dribble_success_percentage p))
    as (v5 & -> & U5); [lra|]. simpl.
  destruct (per_90_capped_unit p (tackles p) 5) as (v6 & -> & U6);
    [assumption | lra |]. simpl.
  destruct (per_90_capped_unit p (interceptions p) 3) as (v7 & -> & U7);
    [assumption | lra |]. simpl.
  destruct (per_90_capped_unit p (progressive_passes p) 10) as (v8 & -> & U8);
    [assumption | lra |]. simpl.
  destruct (per_90_capped_unit p (progressive_carries p) 5) as (v9 & -> & U9);
    [assumption | lra |]. simpl.
  rewrite truediv_ok by lra. simpl.
  eexists; split; [reflexivity|]. split; [reflexivity|].
  repeat (apply Forall_cons; [assumption|]).
  apply Forall_cons; [|apply Forall_nil].
  split; [apply min_ge; lra | apply min_le_r].
Qed.

(** ** Cosine similarity *)

Lemma dot_nonneg (v1 v2 : list R) :
  Forall (fun x => 0 <= x) v1 -> Forall (fun x => 0 <= x) v2 -> 0 <= dot v1 v2.
Proof.
  intros H1; revert v2. induction H1 as [|x v1 Hx _ IH]; intros v2 H2; simpl.
  - lra.
  - destruct H2 as [|y v2 Hy H2]; [lra|]. specialize (IH v2 H2). nra.
Qed.

Lemma unit_interval_nonneg (v : list R) :
  Forall unit_interval v -> Forall (fun x => 0 <= x) v.
Proof. apply Forall_impl. unfold unit_interval. intros; lra. Qed.

Lemma cosine_nonneg (v1 v2 : list R) :
  Forall (fun x => 0 <= x) v1 -> Forall (fun x => 0 <= x) v2 ->
  0 <= _cosine_similarity v1 v2.
Proof.
  intros H1 H2. unfold _cosine_similarity.
  destruct (np_all_zero v1 || np_all_zero v2); simpl; [lra|].
  unfold np_dot. destruct (Nat.eqb _ _); simpl; [|lra].
  destruct (feq (np_linalg_norm v1) 0) eqn:E1; simpl; [lra|].
  destruct (feq (np_linalg_norm v2) 0) eqn:E2; simpl; [lra|].
  apply feq_false in E1, E2. unfold np_linalg_norm in *.
  pose proof (sqrt_pos (dot v1 v1)) as P1.
  pose proof (sqrt_pos (dot v2 v2)) as P2.
  assert (Hpos : 0 < sqrt (dot v1 v1) * sqrt (dot v2 v2))
    by (apply Rmult_lt_0_compat; lra).
  apply Rmult_le_pos; [now apply dot_nonneg|].
  apply Rlt_le, Rinv_0_lt_compat, Hpos.
Qed.

Lemma blank_in_range i nm pos comp years g a :
  0 <= years -> (0 <= g)%Z -> (0 <= a)%Z ->
  in_range (blank i nm pos comp years g a).
Proof. intros. unfold in_range; simpl. repeat split; try lra; lia. Qed.

(** C9, amended. For every two records whose percentage columns lie in
    [0,100] and whose counts, minutes_per_90 and age are not negative,
    get_statistics_vector returns a list of exactly 10 numbers, each in
    [0,1], and the cosine similarity of the two vectors is not negative.
    No upper bound is stated: the code does not clamp the quotient. *)
Theorem C9_vector_in_range_and_cosine_not_negative (p q : Player) :
  in_range p -> in_range q ->
  exists v1 v2,
    get_statistics_vector p = Ok v1 /\ get_statistics_vector q = Ok v2
    /\ List.length v1 = 10%nat /\ Forall unit_interval v1
    /\ List.length v2 = 10%nat /\ Forall unit_interval v2
    /\ 0 <= _cosine_similarity v1 v2.
Proof.
  intros Hp Hq.
  destruct (statistics_vector_unit p Hp) as (v1 & E1 & L1 & U1).
  destruct (statistics_vector_unit q Hq) as (v2 & E2 & L2 & U2).
  exists v1, v2. repeat split; try assumption.
  apply cosine_nonneg; now apply unit_interval_nonneg.
Qed.

Lemma C9_witness :
  exists v1 v2,
    get_statistics_vector (blank 1 "A" "FW" "L" 20 3 1) = Ok v1
    /\ get_statistics_vector (blank 2 "B" "FW" "L" 30 0 0) = Ok v2
    /\ List.length v1 = 10%nat /\ Forall unit_interval v1
    /\ List.length v2 = 10%nat /\ Forall unit_interval v2
    /\ 0 <= _cosine_similarity v1 v2.
Proof.
  apply (C9_vector_in_range_and_cosine_not_negative
           (blank 1 "A" "FW" "L" 20 3 1) (blank 2 "B" "FW" "L" 30 0 0));
    apply blank_in_range; solve [lra | lia].
Defined.

(** C9, as stated, fails on the numbers that the code computes with.  Two
    records with the columns of [newcomer], which are in range, have the
    statistics vector [0, 0, 0.5, 0.75, 0.5, 0, 0, 0, 0, 0.75], whatever
    [round] does; the products and their sum 1.625 are exact, the square
    root is rounded, and the quotient that [_cosine_similarity] returns
    is greater than 1. *)
Lemma C9_counterexample :
  in_range64 newcomer = true
  /\ forall round : PrimFloat.float -> Z -> PrimFloat.float,
       List.length (Binary64.get_statistics_vector round newcomer) = 10%nat
       /\ PrimFloat.ltb (Binary64.of_int 1)
            (Binary64._cosine_similarity
               (Binary64.get_statistics_vector round newcomer)
               (Binary64.get_statistics_vector round newcomer))
          = true.
Proof.
  split; [reflexivity|]. intros round. split; reflexivity.
Qed.

(** ** Derived metrics *)

Lemma guarded_ratio_zero (guard num den : Player -> value) (p : Player) :
  value_lt (VInt 0) (guard p) = false ->
  guarded_ratio guard num den p = Ok (VFloat 0).
Proof. intros H. unfold guarded_ratio. now rewrite H. Qed.

Lemma guarded_ratio_float_total (n : Player -> Z) (p : Player) :
  exists v,
    guarded_ratio (fun p => VFloat (minutes_per_90 p)) (fun p => VInt (n p))
                  (fun p => VFloat (minutes_per_90 p)) p = Ok v.
Proof.
  unfold guarded_ratio. simpl.
  destruct (flt (IZR 0) (minutes_per_90 p)) eqn:E; [|eauto].
  apply flt_true in E. rewrite truediv_ok by lra. simpl. eauto.
Qed.

Lemma guarded_ratio_int_total (n : Player -> Z) (p : Player) :
  exists v,
    guarded_ratio (fun p => VInt (matches_played p)) (fun p => VInt (n p))
                  (fun p => VInt (matches_played p)) p = Ok v.
Proof.
  unfold guarded_ratio. simpl.
  destruct (flt (IZR 0) (IZR (matches_played p))) eqn:E; [|eauto].
  apply flt_true, lt_IZR in E.
  destruct (Z.eqb_spec (matches_played p) 0) as [H0|H0]; [lia|].
  simpl. eauto.
Qed.

Lemma derived_key_goals_per_90 qs reverse p :
  stop qs = None ->
  derived_key "goals_per_90" qs reverse p
  = (v <~ guarded_ratio (fun p => VFloat (minutes_per_90 p))
                        (fun p => VInt (goals p))
                        (fun p => VFloat (minutes_per_90 p)) p ;; Ok [v]).
Proof.
  destruct qs as [t c a o st]. simpl. intros ->. destruct reverse; reflexivity.
Qed.

Lemma derived_key_assists_per_90 qs reverse p :
  stop qs = None ->
  derived_key "assists_per_90" qs reverse p
  = (v <~ guarded_ratio (fun p => VFloat (minutes_per_90 p))
                        (fun p => VInt (assists p))
                        (fun p => VFloat (minutes_per_90 p)) p ;; Ok [v]).
Proof.
  destruct qs as [t c a o st]. simpl. intros ->. destruct reverse; reflexivity.
Qed.

Lemma derived_key_goal_contribution_per_90 qs reverse p :
  stop qs = None ->
  derived_key "goal_contribution_per_90" qs reverse p
  = (v <~ guarded_ratio (fun p => VFloat (minutes_per_90 p))
                        (fun p => VInt (goals_assists p))
                        (fun p => VFloat (minutes_per_90 p)) p ;; Ok [v]).
Proof.
  destruct qs as [t c a o st]. simpl. intros ->. destruct reverse; reflexivity.
Qed.

Lemma derived_key_minutes_per_game qs reverse p :
  stop qs = None ->
  derived_key "minutes_per_game" qs reverse p
  = (v <~ guarded_ratio (fun p => VInt (matches_played p))
                        (fun p => VInt (minutes p))
                        (fun p => VInt (matches_played p)) p ;; Ok [v]).
Proof.
  destruct qs as [t c a o st]. simpl. intros ->. destruct reverse; reflexivity.
Qed.

Lemma minutes_guard_closed (p : Player) :
  minutes_per_90 p <= 0 -> value_lt (VInt 0) (VFloat (minutes_per_90 p)) = false.
Proof. intros H. simpl. apply flt_false. exact H. Qed.

Lemma matches_guard_closed (p : Player) :
  (matches_played p <= 0)%Z ->
  value_lt (VInt 0) (VInt (matches_played p)) = false.
Proof. intros H. simpl. apply flt_false. apply IZR_le. exact H. Qed.

Lemma minutes_per_game_total (p : Player) : exists v, minutes_per_game p = Ok v.
Proof.
  unfold minutes_per_game. destruct (Z.ltb_spec 0 (matches_played p)) as [H|H].
  - rewrite truediv_ok; [simpl; eauto|]. apply not_0_IZR. lia.
  - eauto.
Qed.

Lemma goal_contribution_per_90_total (p : Player) :
  exists v, goal_contribution_per_90 p = Ok v.
Proof.
  unfold goal_contribution_per_90. destruct (flt 0 (minutes_per_90 p)) eqn:E.
  - apply flt_true in E. rewrite truediv_ok by lra. simpl. eauto.
  - eauto.
Qed.

(** C8. On a query that has not been sliced (the store refuses to
    reorder a sliced one): a record with minutes_per_90 <= 0 gets the
    derived sort value 0 for goals_per_90, assists_per_90 and
    goal_contribution_per_90, and a record with matches_played <= 0 gets 0
    for minutes_per_game, both in the sort annotation of the registry and
    in the model properties; for every record whatsoever the four derived
    values are computed without a division fault. *)
Theorem C8_derived_metrics_zero_guarded (qs : QuerySet) (reverse : bool)
    (p : Player) :
  stop qs = None ->
  (minutes_per_90 p <= 0 ->
     derived_key "goals_per_90" qs reverse p = Ok [VFloat 0]
     /\ derived_key "assists_per_90" qs reverse p = Ok [VFloat 0]
     /\ derived_key "goal_contribution_per_90" qs reverse p = Ok [VFloat 0]
     /\ goals_per_90 p = Ok 0
     /\ assists_per_90 p = Ok 0
     /\ goal_contribution_per_90 p = Ok 0)
  /\ ((matches_played p <= 0)%Z ->
        derived_key "minutes_per_game" qs reverse p = Ok [VFloat 0]
        /\ minutes_per_game p = Ok 0)
  /\ (forall sort_key, In sort_key calculated_fields ->
        exists v, derived_key sort_key qs reverse p = Ok [v])
  /\ (exists a b c d,
        goals_per_90 p = Ok a /\ assists_per_90 p = Ok b
        /\ goal_contribution_per_90 p = Ok c /\ minutes_per_game p = Ok d).
Proof.
  intros Hqs. split; [|split; [|split]].
  - intros H.
    rewrite derived_key_goals_per_90, derived_key_assists_per_90,
      derived_key_goal_contribution_per_90 by exact Hqs.
    rewrite !guarded_ratio_zero by (apply minutes_guard_closed; exact H).
    unfold goals_per_90, assists_per_90, goal_contribution_per_90.
    assert (E : flt 0 (minutes_per_90 p) = false) by (apply flt_false; exact H).
    rewrite E. repeat split.
  - intros H. rewrite derived_key_minutes_per_game by exact Hqs.
    rewrite guarded_ratio_zero by (apply matches_guard_closed; exact H).
    unfold minutes_per_game.
    destruct (Z.ltb_spec 0 (matches_played p)); [lia|]. split; reflexivity.
  - intros k [<-|[<-|[<-|[<-|[]]]]].
    + rewrite derived_key_goals_per_90 by exact Hqs.
      destruct (guarded_ratio_float_total goals p) as [v ->]. simpl. eauto.
    + rewrite derived_key_assists_per_90 by exact Hqs.
      destruct (guarded_ratio_float_total assists p) as [v ->]. simpl. eauto.
    + rewrite derived_key_goal_contribution_per_90 by exact Hqs.
      destruct (guarded_ratio_float_total goals_assists p) as [v ->].
      simpl. eauto.
    + rewrite derived_key_minutes_per_game by exact Hqs.
      destruct (guarded_ratio_int_total minutes p) as [v ->]. simpl. eauto.
  - destruct (goals_per_90_total p) as [a Ha].
    destruct (assists_per_90_total p) as [b Hb].
    destruct (goal_contribution_per_90_total p) as [c Hc].
    destruct (minutes_per_game_total p) as [d Hd].
    exists a, b, c, d. auto.
Qed.

Lemma C8_witness :
  derived_key "goals_per_90" (objects []) true (blank 1 "A" "FW" "L" 20 3 1)
  = Ok [VFloat 0]
  /\ derived_key "minutes_per_game" (objects []) true
       (blank 1 "A" "FW" "L" 20 3 1)
     = Ok [VFloat 0].
Proof.
  destruct (C8_derived_metrics_zero_guarded (objects []) true
              (blank 1 "A" "FW" "L" 20 3 1)) as (Hm & Hg & _);
    [reflexivity|].
  split.
  - apply Hm. simpl. lra.
  - apply Hg. simpl. lia.
Defined.

(** ** Style descriptions *)

Lemma lower_ascii_keeps_word (c : ascii) :
  isspace c = false -> isspace (lower_ascii c) = false.
Proof.
  destruct c as [[] [] [] [] [] [] [] []]; intros H;
    solve [reflexivity | discriminate H].
Qed.

Lemma append_not_empty (cur : string) (c : ascii) :
  (cur ++ String c EmptyString)%string <> EmptyString.
Proof. destruct cur; discriminate. Qed.

Lemma split_from_not_empty (s cur : string) :
  cur <> EmptyString -> split_from cur s <> [].
Proof.
  revert cur. induction s as [|c s IH]; intros cur Hcur; simpl.
  - destruct (String.eqb_spec cur EmptyString); [contradiction | discriminate].
  - destruct (isspace c).
    + destruct (String.eqb_spec cur EmptyString); [contradiction | discriminate].
    + apply IH, append_not_empty.
Qed.

Lemma split_lower_not_empty (s : string) :
  starts_with_word s -> split (lower s) <> [].
Proof.
  destruct s as [|c s]; simpl; [contradiction|]. intros H.
  unfold split. simpl. rewrite (lower_ascii_keeps_word c H).
  apply split_from_not_empty. discriminate.
Qed.

Lemma set_of_not_empty (words : list string) : words <> [] -> set_of words <> [].
Proof.
  destruct words as [|w words]; [contradiction|]. intros _. simpl.
  apply set_add_not_empty.
Qed.

Lemma join_starts_with_word (parts : list string) :
  parts <> [] -> Forall starts_with_word parts ->
  starts_with_word (join " " parts).
Proof.
  destruct parts as [|p rest]; [contradiction|]. intros _ H.
  inversion H as [|? ? Hp _]; subst. simpl.
  destruct rest; [exact Hp|]. destruct p; [contradiction | exact Hp].
Qed.

Ltac phrases :=
  repeat (apply Forall_app; split);
  repeat match goal with
         | |- Forall _ (if ?c then _ else _) => destruct c
         | |- Forall _ (match ?o with Some _ => _ | None => _ end) => destruct o
         end;
  repeat constructor.

Lemma position_parts_words (p : Player) :
  Forall starts_with_word (position_parts p).
Proof.
  unfold position_parts.
  destruct (contains "FW" (position p)); [phrases|].
  destruct (contains "MF" (position p)); [phrases|].
  destruct (contains "DF" (position p)); [phrases|].
  destruct (contains "GK" (position p)); phrases.
Qed.

Lemma description_parts_words (p : Player) :
  Forall starts_with_word (description_parts p).
Proof.
  unfold description_parts.
  apply Forall_app; split; [apply position_parts_words|].
  phrases.
Qed.

Lemma description_starts_with_word (p : Player) :
  starts_with_word (generate_style_description p).
Proof.
  unfold generate_style_description.
  pose proof (description_parts_words p) as H.
  destruct (description_parts p) as [|x l] eqn:E; [reflexivity|].
  apply join_starts_with_word; [discriminate | exact H].
Qed.

Lemma description_tokens_not_empty (p : Player) :
  is_empty (set_of (split (lower (generate_style_description p)))) = false.
Proof.
  pose proof (description_starts_with_word p) as H.
  apply split_lower_not_empty, set_of_not_empty in H.
  destruct (set_of _); [contradiction | reflexivity].
Qed.

(** C10. For every record, generate_style_description returns a
    non-empty string, which is "versatile player" when no rule fires; the
    token set of a generated description is never empty, so on two generated
    descriptions the text similarity never takes its empty-set branch: it
    is the quotient of the sizes of intersection and union, and the union
    is not empty. *)
Theorem C10_descriptions_never_empty (p q : Player) :
  generate_style_description p <> EmptyString
  /\ (description_parts p = [] ->
      generate_style_description p = "versatile player")
  /\ tokens (generate_style_description p) <> []
  /\ tokens (generate_style_description q) <> []
  /\ set_union string_dec (tokens (generate_style_description p))
                          (tokens (generate_style_description q)) <> []
  /\ _text_similarity (generate_style_description p)
                      (generate_style_description q)
     = INR (List.length (set_inter string_dec
                           (tokens (generate_style_description p))
                           (tokens (generate_style_description q))))
       / INR (List.length (set_union string_dec
                             (tokens (generate_style_description p))
                             (tokens (generate_style_description q)))).
Proof.
  pose proof (description_tokens_not_empty p) as Hp.
  pose proof (description_tokens_not_empty q) as Hq.
  fold (tokens (generate_style_description p)) in Hp.
  fold (tokens (generate_style_description q)) in Hq.
  assert (Hu : set_union string_dec (tokens (generate_style_description p))
                 (tokens (generate_style_description q)) <> []).
  { destruct (tokens (generate_style_description q)) as [|w ws];
      [discriminate Hq|]. simpl. apply set_add_not_empty. }
  repeat split.
  - pose proof (description_starts_with_word p) as H.
    destruct (generate_style_description p); [contradiction | discriminate].
  - intros E. unfold generate_style_description. now rewrite E.
  - destruct (tokens (generate_style_description p)); [discriminate Hp | discriminate].
  - destruct (tokens (generate_style_description q)); [discriminate Hq | discriminate].
  - exact Hu.
  - unfold _text_similarity.
    fold (tokens (generate_style_description p)).
    fold (tokens (generate_style_description q)).
    rewrite Hp, Hq. simpl.
    rewrite truediv_ok; [reflexivity|].
    apply not_0_INR. intros E. apply Hu. now apply length_zero_iff_nil.
Qed.

(** ** Stable sorting *)

Section StableSort.

Context {A : Type} (before : A -> A -> bool).

Lemma insert_by_perm (x : A) (l : list A) :
  Permutation (x :: l) (insert_by before x l).
Proof.
  induction l as [|y l IH]; simpl; [reflexivity|].
  destruct (before y x); [|reflexivity].
  rewrite perm_swap. now apply perm_skip.
Qed.

Lemma sort_by_perm (l : list A) : Permutation l (sort_by before l).
Proof.
  induction l as [|x l IH]; simpl; [reflexivity|].
  rewrite <- insert_by_perm. now apply perm_skip.
Qed.

Lemma sort_by_length (l : list A) : List.length (sort_by before l) = List.length l.
Proof. symmetry. apply Permutation_length, sort_by_perm. Qed.

Lemma sort_by_in (x : A) (l : list A) : In x (sort_by before l) <-> In x l.
Proof.
  split; apply Permutation_in; [symmetry|]; apply sort_by_perm.
Qed.

Hypothesis before_asym : forall a b, before a b = true -> before b a = false.

Lemma insert_by_sorted (x : A) (l : list A) :
  Sorted (in_order before) l -> Sorted (in_order before) (insert_by before x l).
Proof.
  induction l as [|y l IH]; intros Hs; simpl.
  - repeat constructor.
  - destruct (before y x) eqn:E.
    + inversion Hs as [|? ? Hl Hhd]; subst. constructor; [now apply IH|].
      destruct l as [|z l]; simpl.
      * constructor. unfold in_order. now apply before_asym.
      * destruct (before z x) eqn:Ez.
        -- constructor. now inversion Hhd.
        -- constructor. unfold in_order. now apply before_asym.
    + constructor; [assumption|]. constructor. exact E.
Qed.

Lemma sort_by_sorted (l : list A) : Sorted (in_order before) (sort_by before l).
Proof.
  induction l as [|x l IH]; simpl; [constructor|].
  now apply insert_by_sorted.
Qed.

(** Stability: the elements of a class [P] that the order does not
    separate keep their relative positions. *)
Lemma insert_by_filter (P : A -> bool) (x : A) (l : list A) :
  (forall y, In y l -> P y = true -> P x = true -> before y x = false) ->
  List.filter P (insert_by before x l) = List.filter P (x :: l).
Proof.
  intros HP. induction l as [|y l IH]; simpl; [reflexivity|].
  destruct (before y x) eqn:E; [|reflexivity].
  simpl. simpl in IH. rewrite IH by (intros; apply HP; simpl; auto).
  pose proof (HP y (or_introl eq_refl)) as Hy.
  destruct (P x), (P y); try reflexivity.
  rewrite (Hy eq_refl eq_refl) in E. discriminate.
Qed.

Lemma sort_by_stable (P : A -> bool) (l : list A) :
  (forall a b, In a l -> In b l -> P a = true -> P b = true ->
               before a b = false) ->
  List.filter P (sort_by before l) = List.filter P l.
Proof.
  intros HP. induction l as [|x l IH]; simpl; [reflexivity|].
  rewrite insert_by_filter.
  - simpl. rewrite IH; [reflexivity|].
    intros a b Ha Hb. apply HP; simpl; auto.
  - intros y Hy. apply -> sort_by_in in Hy. apply HP; simpl; auto.
Qed.

End StableSort.

Lemma sort_reverse_sorted {A} (key : A -> R) (l : list A) :
  Sorted (fun a b => key b <= key a) (sort_reverse key l).
Proof.
  unfold sort_reverse.
  eapply Sorted_ind with
    (P := fun l => Sorted (fun a b => key b <= key a) l);
    [constructor | | apply sort_by_sorted].
  - intros a l0 _ IH Hhd. constructor; [assumption|].
    destruct Hhd as [|b l1 Hb]; constructor.
    unfold in_order in Hb. apply flt_false in Hb. exact Hb.
  - intros a b H. apply flt_true in H. apply flt_false. lra.
Qed.

Lemma sort_reverse_perm {A} (key : A -> R) (l : list A) :
  Permutation l (sort_reverse key l).
Proof. apply sort_by_perm. Qed.

Lemma sort_reverse_stable {A} (key : A -> R) (s : R) (l : list A) :
  List.filter (fun a => feq (key a) s) (sort_reverse key l)
  = List.filter (fun a => feq (key a) s) l.
Proof.
  apply sort_by_stable. intros a b _ _ Ha Hb.
  apply feq_true in Ha, Hb. apply flt_false. lra.
Qed.

(** ** Evaluating queries *)

Lemma value_lt_asym (a b : value) : value_lt a b = true -> value_lt b a = false.
Proof.
  destruct a as [|x|x|s], b as [|y|y|t]; simpl; try discriminate;
    try reflexivity; try (intros H; apply flt_true in H; apply flt_false; lra).
  unfold String.ltb. rewrite (String.compare_antisym s t).
  destruct (String.compare t s); simpl; congruence.
Qed.

Lemma lex_before_asym (descs : list bool) (k1 k2 : list value) :
  lex_before descs k1 k2 = true -> lex_before descs k2 k1 = false.
Proof.
  revert k1 k2. induction descs as [|d ds IH]; intros k1 k2; simpl;
    [discriminate|].
  destruct k1 as [|a k1], k2 as [|b k2]; try discriminate.
  destruct (value_lt a b) eqn:Eab.
  - rewrite (value_lt_asym _ _ Eab). destruct d; simpl; congruence.
  - destruct (value_lt b a) eqn:Eba.
    + destruct d; simpl; congruence.
    + apply IH.
Qed.

Lemma rmap_keyed {A K} (f : A -> result K) (l : list A) (keyed : list (K * A)) :
  rmap (fun p => ks <~ f p ;; Ok (ks, p)) l = Ok keyed -> map snd keyed = l.
Proof.
  revert keyed. induction l as [|x l IH]; intros keyed; simpl.
  - intros [= <-]. reflexivity.
  - destruct (f x) as [k|e]; simpl; [|discriminate].
    destruct (rmap _ l) as [ks|e]; simpl; [|discriminate].
    intros [= <-]. simpl. now rewrite (IH ks eq_refl).
Qed.

(** The rows of a query are the first rows of a rearrangement of the
    selected rows. *)
Lemma rows_inv (qs : QuerySet) (l : list Player) :
  rows qs = Ok l ->
  exists full, Permutation (selected qs) full /\ l = limited (stop qs) full.
Proof.
  unfold rows. destruct (rmap _ (selected qs)) as [keyed|e] eqn:E; simpl;
    [|discriminate].
  intros [= <-]. eexists; split; [|reflexivity].
  rewrite <- (rmap_keyed _ _ _ E). apply Permutation_map, sort_by_perm.
Qed.

Lemma firstn_incl {A} (n : nat) (l : list A) (x : A) :
  In x (firstn n l) -> In x l.
Proof.
  intros H. rewrite <- (firstn_skipn n l). apply in_or_app. now left.
Qed.

Lemma limited_incl {A} (n : option nat) (l : list A) (x : A) :
  In x (limited n l) -> In x l.
Proof. destruct n; simpl; [apply firstn_incl | auto]. Qed.

Lemma rows_selected (qs : QuerySet) (l : list Player) (q : Player) :
  rows qs = Ok l -> In q l ->
  In q (table qs) /\ Forall (fun c => c q = true) (conditions qs).
Proof.
  intros H Hin. destruct (rows_inv qs l H) as (full & Hp & ->).
  apply limited_incl in Hin. apply (Permutation_in _ (Permutation_sym Hp)) in Hin.
  unfold selected in Hin. apply filter_In in Hin. destruct Hin as [Hin Hc].
  split; [assumption|]. apply Forall_forall. intros c Hcin.
  rewrite forallb_forall in Hc. now apply Hc.
Qed.

Lemma rows_eval (qs : QuerySet) (k : Player -> list value) :
  (forall p, sort_keys qs p = Ok (k p)) ->
  rows qs
  = Ok (limited (stop qs)
          (map snd
             (sort_by (fun a b =>
                         lex_before (map (fun t => fst (parse_term t)) (ordering qs))
                                    (fst a) (fst b))
                      (map (fun p => (k p, p)) (selected qs))))).
Proof.
  intros H. unfold rows.
  rewrite (rmap_ok _ (fun p => (k p, p))); [reflexivity|].
  intros p _. now rewrite H.
Qed.

Lemma rows_Meta (qs : QuerySet) :
  annotations qs = [] -> ordering qs = Meta_ordering -> stop qs = None ->
  rows qs = Ok (Meta_ordered (selected qs)).
Proof.
  intros Ha Ho Hs. rewrite (rows_eval qs Meta_keys).
  - rewrite Ho, Hs. reflexivity.
  - intros p. unfold sort_keys, resolve. rewrite Ha, Ho. reflexivity.
Qed.

Lemma Meta_ordered_perm (l : list Player) : Permutation l (Meta_ordered l).
Proof.
  unfold Meta_ordered.
  rewrite <- (map_id l) at 1.
  rewrite <- (map_map (fun p => (Meta_keys p, p)) snd l) at 1.
  apply Permutation_map, sort_by_perm.
Qed.

(** ** Scores and the scoring loop *)

Lemma capped_rate_total (x ref : R) :
  ref <> 0 -> exists v, capped_rate x ref = Ok v.
Proof.
  intros H. unfold capped_rate. destruct (flt 0 x); [|eauto].
  rewrite truediv_ok by assumption. simpl. eauto.
Qed.

Lemma fraction_of_100_total (pct : R) : exists v, fraction_of_100 pct = Ok v.
Proof.
  unfold fraction_of_100. destruct (flt 0 pct); [|eauto].
  rewrite truediv_ok by lra. eauto.
Qed.

Lemma per_90_capped_total (p : Player) (n : Z) (ref : R) :
  ref <> 0 -> exists v, per_90_capped p n ref = Ok v.
Proof.
  intros H. unfold per_90_capped.
  destruct (flt 0 (minutes_per_90 p)) eqn:E; [|eauto].
  apply flt_true in E. rewrite truediv_ok by lra. simpl.
  rewrite truediv_ok by assumption. simpl. eauto.
Qed.

Lemma get_statistics_vector_total (p : Player) :
  get_statistics_vector p = Ok (statistics_vector p).
Proof.
  unfold statistics_vector.
  assert (H : exists v, get_statistics_vector p = Ok v).
  { unfold get_statistics_vector.
    destruct (goals_per_90_total p) as [g ->]. simpl.
    destruct (capped_rate_total g 1) as [v1 ->]; [lra|]. simpl.
    destruct (assists_per_90_total p) as [a ->]. simpl.
    destruct (capped_rate_total a (1 / 2)) as [v2 ->]; [lra|]. simpl.
    destruct (fraction_of_100_total (shots_on_target_percentage p)) as [v3 ->].
    destruct (fraction_of_100_total (pass_completion_percentage p)) as [v4 ->].
    destruct (fraction_of_100_total (dribble_success_percentage p)) as [v5 ->].
    simpl.
    destruct (per_90_capped_total p (tackles p) 5) as [v6 ->]; [lra|].
    destruct (per_90_capped_total p (interceptions p) 3) as [v7 ->]; [lra|].
    destruct (per_90_capped_total p (progressive_passes p) 10) as [v8 ->];
      [lra|].
    destruct (per_90_capped_total p (progressive_carries p) 5) as [v9 ->];
      [lra|].
    simpl. rewrite truediv_ok by lra. simpl. eauto. }
  destruct H as [v ->]. reflexivity.
Qed.

Lemma collect_kept (self : VectorSearchService) (f : Player -> result R)
    (score : Player -> R) (pool : list Player) :
  (forall c, f c = Ok (score c)) ->
  collect self f pool = Ok (kept (similarity_threshold self) score pool).
Proof.
  intros H. unfold kept. induction pool as [|c pool IH]; simpl; [reflexivity|].
  rewrite H, IH. simpl.
  destruct (fle (similarity_threshold self) (score c)); reflexivity.
Qed.

Lemma candidates_rows_statistical (db : list Player) (player : Player) :
  rows (statistical_candidates db player)
  = Ok (Meta_ordered (selected (statistical_candidates db player))).
Proof. apply rows_Meta; reflexivity. Qed.

Lemma candidates_rows_nlp (db : list Player) (player : Player) :
  rows (nlp_candidates db player)
  = Ok (Meta_ordered (selected (nlp_candidates db player))).
Proof. apply rows_Meta; reflexivity. Qed.

(** ** How the strategies run *)

Lemma statistical_run self db player limit (s : Faults) :
  _find_statistical_similarities self db player limit s
  = if next_fails s
    then _fallback_similarity_search self db player limit (tl s)
    else (Ok (ranked limit
                (kept (similarity_threshold self) (statistical_score_of player)
                   (Meta_ordered (selected (statistical_candidates db player))))),
          tl s).
Proof.
  assert (Hc : forall pool,
             collect self
               (fun other_player =>
                  other_vector <~ get_statistics_vector other_player ;;
                  Ok (_cosine_similarity (statistics_vector player) other_vector))
               pool
             = Ok (kept (similarity_threshold self)
                     (statistical_score_of player) pool)).
  { intros pool. apply collect_kept. intros c.
    rewrite get_statistics_vector_total. reflexivity. }
  unfold _find_statistical_similarities, try_except, bind, lift, fetch, ret.
  rewrite get_statistics_vector_total.
  rewrite candidates_rows_statistical.
  destruct s as [|[] s]; simpl; try reflexivity; rewrite Hc; reflexivity.
Qed.

Lemma nlp_run self db player limit (s : Faults) :
  _find_nlp_similarities self db player limit s
  = if next_fails s
    then _fallback_similarity_search self db player limit (tl s)
    else (Ok (ranked limit
                (kept (similarity_threshold self) (nlp_score_of player)
                   (Meta_ordered (selected (nlp_candidates db player))))),
          tl s).
Proof.
  assert (Hc : forall pool,
             collect self
               (fun other_player =>
                  Ok (_text_similarity (generate_style_description player)
                        (generate_style_description other_player)))
               pool
             = Ok (kept (similarity_threshold self) (nlp_score_of player) pool)).
  { intros pool. apply collect_kept. reflexivity. }
  unfold _find_nlp_similarities, try_except, bind, lift, fetch, ret.
  rewrite candidates_rows_nlp.
  destruct s as [|[] s]; simpl; try reflexivity; rewrite Hc; reflexivity.
Qed.

Lemma by_goals_assists_perm (l : list Player) :
  Permutation l (by_goals_assists l).
Proof.
  unfold by_goals_assists.
  rewrite <- (map_id l) at 1.
  rewrite <- (map_map (fun p => (goal_keys p, p)) snd l) at 1.
  apply Permutation_map, sort_by_perm.
Qed.

Lemma goal_keys_in_order (a b : Player) :
  lex_before [true; true] (goal_keys b) (goal_keys a) = false ->
  goals_then_assists a b.
Proof.
  unfold goals_then_assists, goal_keys. simpl.
  destruct (flt (IZR (goals b)) (IZR (goals a))) eqn:E1.
  - intros _. left. apply flt_true in E1. now apply lt_IZR.
  - destruct (flt (IZR (goals a)) (IZR (goals b))) eqn:E2; [discriminate|].
    apply flt_false in E1, E2. apply le_IZR in E1, E2.
    destruct (flt (IZR (assists b)) (IZR (assists a))) eqn:E3.
    + intros _. right. apply flt_true, lt_IZR in E3.
      split; [now apply Z.le_antisymm | now apply Z.lt_le_incl].
    + destruct (flt (IZR (assists a)) (IZR (assists b))) eqn:E4;
        [discriminate|].
      intros _. right. apply flt_false, le_IZR in E4.
      split; [now apply Z.le_antisymm | assumption].
Qed.

Lemma keyed_sorted_map (k : Player -> list value) (descs : list bool)
    (rel : Player -> Player -> Prop) (l : list Player) :
  (forall a b, lex_before descs (k b) (k a) = false -> rel a b) ->
  Sorted rel
    (map snd
       (sort_by (fun a b => lex_before descs (fst a) (fst b))
          (map (fun p => (k p, p)) l))).
Proof.
  intros Hrel.
  set (before := fun a b : list value * Player =>
                   lex_before descs (fst a) (fst b)).
  assert (Hs : Sorted (in_order before) (sort_by before (map (fun p => (k p, p)) l))).
  { apply sort_by_sorted. intros a b. apply lex_before_asym. }
  assert (Hk : Forall (fun x => fst x = k (snd x))
                 (sort_by before (map (fun p => (k p, p)) l))).
  { apply Forall_forall. intros x Hx. apply sort_by_in in Hx.
    apply in_map_iff in Hx. destruct Hx as (p & <- & _). reflexivity. }
  induction Hs as [|x xs Hxs IH Hhd]; simpl; [constructor|].
  inversion Hk as [|? ? Hx Hk']; subst.
  constructor; [now apply IH|].
  destruct Hhd as [|y ys Hy]; simpl; constructor.
  inversion Hk' as [|? ? Hy' _]; subst.
  apply Hrel. unfold in_order, before in Hy. now rewrite Hx, Hy' in Hy.
Qed.

Lemma by_goals_assists_sorted (l : list Player) :
  Sorted goals_then_assists (by_goals_assists l).
Proof. apply keyed_sorted_map. apply goal_keys_in_order. Qed.

Lemma fallback_run self db player limit (s : Faults) :
  _fallback_similarity_search self db player limit s
  = if (limit <? 0)%Z then (Ok [], s)
    else if next_fails s then (Ok [], tl s)
    else (Ok (map (fun p => set_similarity_score p (5 / 10))
                (firstn (Z.to_nat limit)
                   (by_goals_assists (selected (fallback_candidates db player))))),
          tl s).
Proof.
  unfold _fallback_similarity_search, try_except, bind, lift, ret.
  change (qs_order_by ["-goals"; "-assists"] (fallback_candidates db player))
    with (Ok (mkQuerySet (table (fallback_candidates db player))
                (conditions (fallback_candidates db player)) []
                ["-goals"; "-assists"] None)).
  simpl rbind. unfold qs_slice_to.
  destruct (limit <? 0)%Z; [reflexivity|].
  set (qs := mkQuerySet _ _ _ _ _).
  assert (Hrows : rows qs
                  = Ok (firstn (Z.to_nat limit)
                          (by_goals_assists
                             (selected (fallback_candidates db player))))).
  { rewrite (rows_eval qs goal_keys); reflexivity. }
  unfold fetch. destruct s as [|[] s]; simpl; try reflexivity;
    rewrite Hrows; reflexivity.
Qed.

(** ** Candidates and results *)

Lemma slice_to_prefix {A} (l : list A) (n : Z) :
  exists k, Py.slice_to l n = firstn k l.
Proof. unfold Py.slice_to. destruct (0 <=? n)%Z; eauto. Qed.

Lemma slice_to_firstn {A} (l : list A) (n : Z) :
  (0 <= n)%Z -> Py.slice_to l n = firstn (Z.to_nat n) l.
Proof.
  intros H. unfold Py.slice_to. destruct (Z.leb_spec 0 n); [reflexivity | lia].
Qed.

Lemma slice_to_incl {A} (l : list A) (n : Z) (x : A) :
  In x (Py.slice_to l n) -> In x l.
Proof.
  destruct (slice_to_prefix l n) as [k ->]. apply firstn_incl.
Qed.

Lemma Sorted_firstn {A} (rel : A -> A -> Prop) (n : nat) (l : list A) :
  Sorted rel l -> Sorted rel (firstn n l).
Proof.
  revert l. induction n as [|n IH]; intros l Hs; simpl; [constructor|].
  destruct Hs as [|x l Hl Hhd]; [constructor|].
  constructor; [now apply IH|].
  destruct Hhd as [|y l Hy]; destruct n; simpl; constructor. exact Hy.
Qed.

Lemma NoDup_firstn {A} (n : nat) (l : list A) : NoDup l -> NoDup (firstn n l).
Proof.
  revert l. induction n as [|n IH]; intros l Hl; simpl; [constructor|].
  destruct Hl as [|x l Hx Hl]; constructor; [|now apply IH].
  intros Hin. apply Hx. now apply firstn_incl in Hin.
Qed.

Lemma selected_statistical (db : list Player) (player c : Player) :
  In c (selected (statistical_candidates db player))
  <-> In c db /\ same_group player c /\ id c <> id player.
Proof.
  unfold selected, same_group. rewrite filter_In. simpl.
  rewrite !andb_true_iff, negb_true_iff, Z.eqb_neq, !String.eqb_eq.
  tauto.
Qed.

Lemma selected_nlp (db : list Player) (player c : Player) :
  In c (selected (nlp_candidates db player))
  <-> In c db /\ position c = position player /\ id c <> id player.
Proof.
  unfold selected. rewrite filter_In. simpl.
  rewrite !andb_true_iff, negb_true_iff, Z.eqb_neq, !String.eqb_eq.
  tauto.
Qed.

Lemma selected_fallback (db : list Player) (player c : Player) :
  In c (selected (fallback_candidates db player))
  <-> In c db /\ same_group player c /\ age_band player c
      /\ id c <> id player.
Proof.
  unfold selected, same_group, age_band. rewrite filter_In. simpl.
  rewrite !andb_true_iff, negb_true_iff, Z.eqb_neq, !String.eqb_eq,
    !fle_true.
  tauto.
Qed.

Lemma ranked_kept_in (limit : Z) (threshold : R) (score : Player -> R)
    (pool : list Player) (q : Player) :
  In q (ranked limit (kept threshold score pool)) ->
  exists c, In c pool /\ threshold <= score c
            /\ q = set_similarity_score c (score c).
Proof.
  unfold ranked, kept. intros H.
  apply in_map_iff in H. destruct H as ([q' sc] & <- & H).
  apply slice_to_incl in H. apply sort_by_in in H.
  apply in_map_iff in H. destruct H as (c & [= <- <-] & H).
  apply filter_In in H. destruct H as [H Hthr]. apply fle_true in Hthr.
  exists c. auto.
Qed.

Lemma fallback_scored_other self db player limit (s : Faults) :
  exists l s',
    _fallback_similarity_search self db player limit s = (Ok l, s')
    /\ Forall (scored_other player) l.
Proof.
  rewrite fallback_run.
  destruct (limit <? 0)%Z; [now eauto|].
  destruct (next_fails s); [now eauto|].
  eexists; eexists; split; [reflexivity|].
  apply Forall_forall. intros q Hq.
  apply in_map_iff in Hq. destruct Hq as (c & <- & Hc).
  apply firstn_incl in Hc.
  apply (Permutation_in _ (Permutation_sym (by_goals_assists_perm _))) in Hc.
  apply selected_fallback in Hc. split; [simpl; tauto | reflexivity].
Qed.

Lemma statistical_scored_other self db player limit (s : Faults) :
  exists l s',
    _find_statistical_similarities self db player limit s = (Ok l, s')
    /\ Forall (scored_other player) l.
Proof.
  rewrite statistical_run. destruct (next_fails s);
    [apply fallback_scored_other|].
  eexists; eexists; split; [reflexivity|].
  apply Forall_forall. intros q Hq.
  apply ranked_kept_in in Hq. destruct Hq as (c & Hc & _ & ->).
  apply (Permutation_in _ (Permutation_sym (Meta_ordered_perm _))) in Hc.
  apply selected_statistical in Hc. split; [simpl; tauto | reflexivity].
Qed.

Lemma nlp_scored_other self db player limit (s : Faults) :
  exists l s',
    _find_nlp_similarities self db player limit s = (Ok l, s')
    /\ Forall (scored_other player) l.
Proof.
  rewrite nlp_run. destruct (next_fails s); [apply fallback_scored_other|].
  eexists; eexists; split; [reflexivity|].
  apply Forall_forall. intros q Hq.
  apply ranked_kept_in in Hq. destruct Hq as (c & Hc & _ & ->).
  apply (Permutation_in _ (Permutation_sym (Meta_ordered_perm _))) in Hc.
  apply selected_nlp in Hc. split; [simpl; tauto | reflexivity].
Qed.

(** ** The dictionary of the hybrid strategy *)

Lemma dict_get_set (k k' : Z) (v : Entry) (d : list (Z * Entry)) :
  dict_get k (dict_set k' v d)
  = if Z.eqb k k' then Some v else dict_get k d.
Proof.
  induction d as [|[k0 v0] d IH]; simpl.
  - destruct (Z.eqb k k'); reflexivity.
  - destruct (Z.eqb_spec k' k0) as [->|Hk0]; simpl.
    + destruct (Z.eqb k k0); reflexivity.
    + rewrite IH. destruct (Z.eqb_spec k k0) as [->|Hk]; [|reflexivity].
      destruct (Z.eqb_spec k0 k'); [congruence | reflexivity].
Qed.

Lemma dict_set_keys (k k' : Z) (v : Entry) (d : list (Z * Entry)) :
  In k (map fst (dict_set k' v d)) <-> k = k' \/ In k (map fst d).
Proof.
  induction d as [|[k0 v0] d IH]; simpl.
  - intuition.
  - destruct (Z.eqb_spec k' k0) as [->|Hk0]; simpl; [intuition|].
    rewrite IH. intuition.
Qed.

Lemma dict_set_NoDup (k : Z) (v : Entry) (d : list (Z * Entry)) :
  NoDup (map fst d) -> NoDup (map fst (dict_set k v d)).
Proof.
  induction d as [|[k0 v0] d IH]; simpl; intros H.
  - repeat constructor. intros [].
  - inversion H as [|? ? Hk0 Hd]; subst.
    destruct (Z.eqb_spec k k0) as [->|Hk]; simpl.
    + now constructor.
    + constructor; [|now apply IH].
      rewrite dict_set_keys. intros [E|Hin]; [congruence | contradiction].
Qed.

Lemma dict_set_Forall (P : Z * Entry -> Prop) (k : Z) (v : Entry)
    (d : list (Z * Entry)) :
  P (k, v) -> Forall P d -> Forall P (dict_set k v d).
Proof.
  intros Hv. induction 1 as [|[k0 v0] d H0 Hd IH]; simpl.
  - now repeat constructor.
  - destruct (Z.eqb k k0); constructor; assumption.
Qed.

Lemma dict_get_In (k : Z) (e : Entry) (d : list (Z * Entry)) :
  dict_get k d = Some e -> In (k, e) d.
Proof.
  induction d as [|[k0 v0] d IH]; simpl; [discriminate|].
  destruct (Z.eqb_spec k k0) as [->|Hk].
  - intros [= ->]. now left.
  - intros H. right. now apply IH.
Qed.

Lemma dict_In_get (k : Z) (e : Entry) (d : list (Z * Entry)) :
  NoDup (map fst d) -> In (k, e) d -> dict_get k d = Some e.
Proof.
  induction d as [|[k0 v0] d IH]; simpl; intros Hnd Hin; [contradiction|].
  inversion Hnd as [|? ? Hk0 Hd]; subst.
  destruct Hin as [[= -> ->]|Hin].
  - now rewrite Z.eqb_refl.
  - destruct (Z.eqb_spec k k0) as [->|Hk]; [|now apply IH].
    exfalso. apply Hk0. apply in_map_iff. now exists (k0, e).
Qed.

Lemma dict_get_keys (k : Z) (d : list (Z * Entry)) :
  In k (map fst d) <-> dict_get k d <> None.
Proof.
  induction d as [|[k0 v0] d IH]; simpl; [intuition|].
  destruct (Z.eqb_spec k k0) as [->|Hk].
  - split; [discriminate | auto].
  - rewrite <- IH. intuition congruence.
Qed.

Lemma add_statistical_ok (player p : Player) (d : list (Z * Entry)) :
  scored_other player p -> Forall (entry_ok player) d ->
  Forall (entry_ok player) (add_statistical d p).
Proof.
  intros [Hid Hsc] Hd. unfold add_statistical. apply dict_set_Forall; [|exact Hd].
  unfold entry_ok; simpl. rewrite Hsc. repeat split; auto; discriminate.
Qed.

Lemma add_nlp_ok (player p : Player) (d : list (Z * Entry)) :
  scored_other player p -> Forall (entry_ok player) d ->
  Forall (entry_ok player) (add_nlp d p).
Proof.
  intros [Hid Hsc] Hd. unfold add_nlp.
  destruct (dict_get (id p) d) as [data|] eqn:E.
  - apply dict_set_Forall; [|exact Hd].
    apply dict_get_In in E. rewrite Forall_forall in Hd.
    destruct (Hd _ E) as (H1 & H2 & H3 & H4). simpl in *.
    unfold entry_ok; simpl. rewrite Hsc. repeat split; auto; discriminate.
  - apply dict_set_Forall; [|exact Hd].
    unfold entry_ok; simpl. rewrite Hsc. repeat split; auto; discriminate.
Qed.

Lemma fold_statistical_ok (player : Player) (l : list Player)
    (d : list (Z * Entry)) :
  Forall (scored_other player) l -> Forall (entry_ok player) d ->
  Forall (entry_ok player) (fold_left add_statistical l d).
Proof.
  intros Hl. revert d. induction Hl as [|p l Hp _ IH]; intros d Hd; simpl;
    [exact Hd|].
  apply IH. now apply add_statistical_ok.
Qed.

Lemma fold_nlp_ok (player : Player) (l : list Player) (d : list (Z * Entry)) :
  Forall (scored_other player) l -> Forall (entry_ok player) d ->
  Forall (entry_ok player) (fold_left add_nlp l d).
Proof.
  intros Hl. revert d. induction Hl as [|p l Hp _ IH]; intros d Hd; simpl;
    [exact Hd|].
  apply IH. now apply add_nlp_ok.
Qed.

Lemma entries_ok (player : Player) (stat nlp : list Player) :
  Forall (scored_other player) stat -> Forall (scored_other player) nlp ->
  Forall (entry_ok player) (entries stat nlp).
Proof.
  intros Hs Hn. unfold entries.
  apply fold_nlp_ok; [exact Hn|]. apply fold_statistical_ok; [exact Hs|].
  constructor.
Qed.

Lemma hybrid_entries_total (player : Player) (d : list (Z * Entry)) :
  Forall (entry_ok player) d ->
  rmap hybrid_entry d
  = Ok (map (fun item =>
               (set_similarity_score (player_of (snd item))
                  (fused_score (snd item)),
                fused_score (snd item))) d).
Proof.
  intros H. apply rmap_ok. intros item Hin.
  rewrite Forall_forall in H. destruct (H _ Hin) as (_ & _ & Hs & Hn).
  unfold hybrid_entry, fused_score.
  destruct (statistical_score (snd item)); [|contradiction].
  destruct (nlp_score (snd item)); [|contradiction]. reflexivity.
Qed.

Lemma hybrid_run self db player limit (s s1 s2 : Faults)
    (stat nlp : list Player) :
  _find_statistical_similarities self db player (limit * 2) s = (Ok stat, s1) ->
  Forall (scored_other player) stat ->
  _find_nlp_similarities self db player (limit * 2) s1 = (Ok nlp, s2) ->
  Forall (scored_other player) nlp ->
  _find_hybrid_similarities self db player limit s
  = (Ok (ranked limit (fused stat nlp)), s2).
Proof.
  intros Hs Hso Hn Hno.
  unfold _find_hybrid_similarities, try_except, bind, lift, ret.
  rewrite Hs, Hn.
  fold (entries stat nlp).
  rewrite (hybrid_entries_total player) by now apply entries_ok.
  reflexivity.
Qed.

Lemma hybrid_scored_other self db player limit (s : Faults) :
  exists l s',
    _find_hybrid_similarities self db player limit s = (Ok l, s')
    /\ Forall (scored_other player) l.
Proof.
  destruct (statistical_scored_other self db player (limit * 2) s)
    as (stat & s1 & Hs & Hso).
  destruct (nlp_scored_other self db player (limit * 2) s1)
    as (nlp & s2 & Hn & Hno).
  rewrite (hybrid_run _ _ _ _ _ _ _ _ _ Hs Hso Hn Hno).
  eexists; eexists; split; [reflexivity|].
  apply Forall_forall. intros q Hq. unfold ranked in Hq.
  apply in_map_iff in Hq. destruct Hq as ([q' sc] & <- & Hq).
  apply slice_to_incl, sort_by_in in Hq.
  unfold fused in Hq. apply in_map_iff in Hq. destruct Hq as (item & [= <- <-] & Hi).
  pose proof (entries_ok player stat nlp Hso Hno) as Hok.
  rewrite Forall_forall in Hok. destruct (Hok _ Hi) as (_ & Hid & _).
  split; [exact Hid | reflexivity].
Qed.

(** ** The public operation *)

Lemma find_similar_valid self db player limit method (s : Faults) :
  In method strategies ->
  exists l s',
    find_similar_players self db player limit method s = (Ok l, s')
    /\ Forall (scored_other player) l.
Proof.
  intros [<-|[<-|[<-|[]]]]; unfold find_similar_players; simpl.
  - apply statistical_scored_other.
  - apply nlp_scored_other.
  - apply hybrid_scored_other.
Qed.

Lemma find_similar_invalid self db player limit method (s : Faults) :
  ~ In method strategies ->
  find_similar_players self db player limit method s
  = (Raise (ValueError ("Invalid method: " ++ method
                        ++ ". Use 'statistical', 'nlp', or 'hybrid'")%string),
     s).
Proof.
  intros H. unfold find_similar_players, strategies in *.
  destruct (String.eqb_spec method "statistical") as [->|_];
    [exfalso; apply H; simpl; auto|].
  destruct (String.eqb_spec method "nlp") as [->|_];
    [exfalso; apply H; simpl; auto|].
  destruct (String.eqb_spec method "hybrid") as [->|_];
    [exfalso; apply H; simpl; auto|].
  reflexivity.
Qed.

(** C3. find_similar_players raises the invalid-strategy error (a
    ValueError) for every method outside statistical, nlp and hybrid.  For
    each of the three it returns a list whatever the store does: a failed
    round trip inside the statistical or the NLP strategy hands over to
    the fallback search, the hybrid strategy runs on what the two return,
    and the fallback search itself always returns a list. *)
Theorem C3_only_invalid_strategy_raises self db player limit method
    (s : Faults) :
  (~ In method strategies ->
     exists msg,
       find_similar_players self db player limit method s
       = (Raise (ValueError msg), s))
  /\ (In method strategies ->
        exists l s',
          find_similar_players self db player limit method s = (Ok l, s'))
  /\ (next_fails s = true ->
        _find_statistical_similarities self db player limit s
        = _fallback_similarity_search self db player limit (tl s)
        /\ _find_nlp_similarities self db player limit s
           = _fallback_similarity_search self db player limit (tl s))
  /\ (exists l s',
        _find_hybrid_similarities self db player limit s = (Ok l, s'))
  /\ (exists l s',
        _fallback_similarity_search self db player limit s = (Ok l, s')).
Proof.
  repeat split.
  - intros H. eexists. now apply find_similar_invalid.
  - intros H.
    destruct (find_similar_valid self db player limit method s H)
      as (l & s' & E & _).
    eauto.
  - rewrite statistical_run, H. reflexivity.
  - rewrite nlp_run, H. reflexivity.
  - destruct (hybrid_scored_other self db player limit s) as (l & s' & E & _).
    eauto.
  - destruct (fallback_scored_other self db player limit s) as (l & s' & E & _).
    eauto.
Qed.

(** C7. For each of the three strategies, and for the fallback search,
    whatever the limit and whatever the store does, the call returns a
    list, and no record of that list has the id of the target. *)
Theorem C7_target_never_returned self db player limit (s : Faults) :
  (forall method, In method strategies ->
     exists l s',
       find_similar_players self db player limit method s = (Ok l, s')
       /\ Forall (fun q => id q <> id player) l)
  /\ (exists l s',
        _fallback_similarity_search self db player limit s = (Ok l, s')
        /\ Forall (fun q => id q <> id player) l).
Proof.
  split.
  - intros method H.
    destruct (find_similar_valid self db player limit method s H)
      as (l & s' & E & Hl).
    exists l, s'. split; [exact E|].
    eapply Forall_impl; [|exact Hl]. now intros q [Hq _].
  - destruct (fallback_scored_other self db player limit s)
      as (l & s' & E & Hl).
    exists l, s'. split; [exact E|].
    eapply Forall_impl; [|exact Hl]. now intros q [Hq _].
Qed.

(** C6. When the limit is not negative and the round trip to the store
    succeeds, the fallback search takes the records of the target's
    position and competition whose age is within 3 years of the target's,
    the target excepted, orders them by goals descending and then assists
    descending, returns the first [limit] of them, and gives every
    returned record the score 0.5. *)
Theorem C6_fallback_search self db player limit (s : Faults) :
  (0 <= limit)%Z -> next_fails s = false ->
  exists ordered,
    Permutation (selected (fallback_candidates db player)) ordered
    /\ (forall c, In c ordered
                  <-> In c db /\ same_group player c /\ age_band player c
                      /\ id c <> id player)
    /\ Sorted goals_then_assists ordered
    /\ _fallback_similarity_search self db player limit s
       = (Ok (map (fun c => set_similarity_score c (5 / 10))
                (firstn (Z.to_nat limit) ordered)),
          tl s)
    /\ Forall (fun r => similarity_score r = Some (5 / 10))
         (map (fun c => set_similarity_score c (5 / 10))
            (firstn (Z.to_nat limit) ordered)).
Proof.
  intros Hlimit Hs.
  exists (by_goals_assists (selected (fallback_candidates db player))).
  split; [apply by_goals_assists_perm|].
  split.
  { intros c. rewrite <- selected_fallback.
    split; apply Permutation_in;
      [symmetry|]; apply by_goals_assists_perm. }
  split; [apply by_goals_assists_sorted|].
  split.
  - rewrite fallback_run, Hs.
    destruct (Z.ltb_spec limit 0); [lia | reflexivity].
  - apply Forall_forall. intros r Hr. apply in_map_iff in Hr.
    destruct Hr as (c & <- & _). reflexivity.
Qed.

Lemma C6_witness :
  exists ordered,
    Permutation
      (selected (fallback_candidates [blank 2 "B" "FW" "L" 21 4 0]
                   (blank 1 "A" "FW" "L" 20 3 1)))
      ordered
    /\ _fallback_similarity_search (mkVectorSearchService true (7 / 10))
         [blank 2 "B" "FW" "L" 21 4 0] (blank 1 "A" "FW" "L" 20 3 1) 5 []
       = (Ok (map (fun c => set_similarity_score c (5 / 10))
                (firstn (Z.to_nat 5) ordered)),
          tl []).
Proof.
  destruct (C6_fallback_search (mkVectorSearchService true (7 / 10))
              [blank 2 "B" "FW" "L" 21 4 0] (blank 1 "A" "FW" "L" 20 3 1) 5 [])
    as (ordered & Hp & _ & _ & Hrun & _).
  - lia.
  - reflexivity.
  - exists ordered. split; assumption.
Defined.

(** ** The threshold *)

Lemma slice_to_map {A B} (f : A -> B) (l : list A) (n : Z) :
  map f (Py.slice_to l n) = Py.slice_to (map f l) n.
Proof.
  unfold Py.slice_to. rewrite length_map.
  destruct (0 <=? n)%Z; symmetry; apply firstn_map.
Qed.

Lemma ranked_shortlist (limit : Z) (threshold : R) (score : Player -> R)
    (pool : list Player) :
  ranked limit (kept threshold score pool)
  = Py.slice_to (shortlist threshold score pool) limit.
Proof. unfold ranked, shortlist. apply slice_to_map. Qed.

Lemma shortlist_in (threshold : R) (score : Player -> R) (pool : list Player)
    (q : Player) :
  In q (shortlist threshold score pool)
  <-> exists c, In c pool /\ threshold <= score c
                /\ q = set_similarity_score c (score c).
Proof.
  unfold shortlist, kept. rewrite in_map_iff. split.
  - intros ([q' sc] & <- & H). apply sort_by_in in H.
    apply in_map_iff in H. destruct H as (c & [= <- <-] & H).
    apply filter_In in H. destruct H as [H Hthr]. apply fle_true in Hthr.
    exists c. auto.
  - intros (c & Hc & Hthr & ->).
    exists (set_similarity_score c (score c), score c). split; [reflexivity|].
    apply sort_by_in. apply in_map_iff. exists c. split; [reflexivity|].
    apply filter_In. split; [exact Hc | now apply fle_true].
Qed.

Lemma shortlist_empty (threshold : R) (score : Player -> R)
    (pool : list Player) :
  (forall c, In c pool -> score c < threshold) ->
  shortlist threshold score pool = [].
Proof.
  intros H. destruct (shortlist threshold score pool) as [|q l] eqn:E;
    [reflexivity|].
  assert (Hq : In q (shortlist threshold score pool))
    by (rewrite E; now left).
  apply shortlist_in in Hq. destruct Hq as (c & Hc & Hthr & _).
  specialize (H c Hc). lra.
Qed.

Lemma slice_to_nil {A} (n : Z) : Py.slice_to (@nil A) n = [].
Proof. unfold Py.slice_to. destruct (0 <=? n)%Z; apply firstn_nil. Qed.

(** C5. When the round trip to the store succeeds, the statistical and
    the NLP strategy return a slice of the list of exactly those
    candidates whose score is at least the threshold; when every
    candidate scores strictly below the threshold they return the empty
    list, after that single round trip. *)
Theorem C5_threshold_filter self db player limit (s : Faults) :
  next_fails s = false ->
  exists shortlist_s shortlist_n,
    _find_statistical_similarities self db player limit s
    = (Ok (Py.slice_to shortlist_s limit), tl s)
    /\ _find_nlp_similarities self db player limit s
       = (Ok (Py.slice_to shortlist_n limit), tl s)
    /\ (forall q, In q shortlist_s
                  <-> exists c,
                        (In c db /\ same_group player c /\ id c <> id player)
                        /\ similarity_threshold self
                           <= statistical_score_of player c
                        /\ q = set_similarity_score c
                                 (statistical_score_of player c))
    /\ (forall q, In q shortlist_n
                  <-> exists c,
                        (In c db /\ position c = position player
                         /\ id c <> id player)
                        /\ similarity_threshold self <= nlp_score_of player c
                        /\ q = set_similarity_score c (nlp_score_of player c))
    /\ ((forall c, In c db -> same_group player c -> id c <> id player ->
                   statistical_score_of player c < similarity_threshold self) ->
        _find_statistical_similarities self db player limit s = (Ok [], tl s))
    /\ ((forall c, In c db -> position c = position player ->
                   id c <> id player ->
                   nlp_score_of player c < similarity_threshold self) ->
        _find_nlp_similarities self db player limit s = (Ok [], tl s)).
Proof.
  intros Hs.
  exists (shortlist (similarity_threshold self) (statistical_score_of player)
            (Meta_ordered (selected (statistical_candidates db player)))).
  exists (shortlist (similarity_threshold self) (nlp_score_of player)
            (Meta_ordered (selected (nlp_candidates db player)))).
  rewrite statistical_run, nlp_run, Hs, !ranked_shortlist.
  split; [reflexivity|]. split; [reflexivity|].
  assert (Hstat : forall c,
             In c (Meta_ordered (selected (statistical_candidates db player)))
             <-> In c db /\ same_group player c /\ id c <> id player).
  { intros c. rewrite <- selected_statistical.
    split; apply Permutation_in; [symmetry|]; apply Meta_ordered_perm. }
  assert (Hnlp : forall c,
             In c (Meta_ordered (selected (nlp_candidates db player)))
             <-> In c db /\ position c = position player /\ id c <> id player).
  { intros c. rewrite <- selected_nlp.
    split; apply Permutation_in; [symmetry|]; apply Meta_ordered_perm. }
  split; [|split; [|split]].
  - intros q. rewrite shortlist_in.
    split; intros (c & Hc & H); exists c; (split; [apply Hstat, Hc | exact H]).
  - intros q. rewrite shortlist_in.
    split; intros (c & Hc & H); exists c; (split; [apply Hnlp, Hc | exact H]).
  - intros H. rewrite shortlist_empty; [now rewrite slice_to_nil|].
    intros c Hc. apply Hstat in Hc. destruct Hc as (H1 & H2 & H3). now apply H.
  - intros H. rewrite shortlist_empty; [now rewrite slice_to_nil|].
    intros c Hc. apply Hnlp in Hc. destruct Hc as (H1 & H2 & H3). now apply H.
Qed.

(** ** Ids of results *)

Lemma NoDup_map_filter {A B} (g : A -> B) (f : A -> bool) (l : list A) :
  NoDup (map g l) -> NoDup (map g (List.filter f l)).
Proof.
  induction l as [|x l IH]; simpl; intros H; [constructor|].
  inversion H as [|? ? Hx Hl]; subst.
  destruct (f x); simpl; [|now apply IH].
  constructor; [|now apply IH].
  intros Hin. apply Hx. apply in_map_iff in Hin.
  destruct Hin as (y & <- & Hy). apply filter_In in Hy.
  apply in_map. tauto.
Qed.

Lemma shortlist_ids (threshold : R) (score : Player -> R) (pool : list Player) :
  Permutation (map id (shortlist threshold score pool))
    (map id (List.filter (fun c => fle threshold (score c)) pool)).
Proof.
  unfold shortlist, kept.
  rewrite <- (sort_reverse_perm snd), !map_map. simpl. reflexivity.
Qed.

Lemma slice_to_NoDup {A} (l : list A) (n : Z) : NoDup l -> NoDup (Py.slice_to l n).
Proof. destruct (slice_to_prefix l n) as [k ->]. apply NoDup_firstn. Qed.

Lemma selected_ids_NoDup (qs : QuerySet) :
  NoDup (map id (table qs)) -> NoDup (map id (selected qs)).
Proof. apply NoDup_map_filter. Qed.

Lemma ranked_ids_NoDup (limit : Z) (threshold : R) (score : Player -> R)
    (qs : QuerySet) :
  NoDup (map id (table qs)) ->
  NoDup (map id (ranked limit
                   (kept threshold score (Meta_ordered (selected qs))))).
Proof.
  intros H. rewrite ranked_shortlist, slice_to_map. apply slice_to_NoDup.
  eapply Permutation_NoDup; [symmetry; apply shortlist_ids|].
  apply NoDup_map_filter.
  eapply Permutation_NoDup; [apply Permutation_map, Meta_ordered_perm|].
  now apply selected_ids_NoDup.
Qed.

Lemma fallback_ids_NoDup self db player limit (s s' : Faults) (l : list Player) :
  NoDup (map id db) ->
  _fallback_similarity_search self db player limit s = (Ok l, s') ->
  NoDup (map id l).
Proof.
  intros Hdb. rewrite fallback_run.
  destruct (limit <? 0)%Z; [intros [= <- _]; constructor|].
  destruct (next_fails s); [intros [= <- _]; constructor|].
  intros [= <- _]. rewrite map_map. simpl.
  rewrite <- firstn_map. apply NoDup_firstn.
  eapply Permutation_NoDup; [apply Permutation_map, by_goals_assists_perm|].
  now apply (selected_ids_NoDup (fallback_candidates db player)).
Qed.

Lemma statistical_ids_NoDup self db player limit (s s' : Faults)
    (l : list Player) :
  NoDup (map id db) ->
  _find_statistical_similarities self db player limit s = (Ok l, s') ->
  NoDup (map id l).
Proof.
  intros Hdb. rewrite statistical_run. destruct (next_fails s).
  - now apply fallback_ids_NoDup.
  - intros [= <- _].
    now apply (ranked_ids_NoDup _ _ _ (statistical_candidates db player)).
Qed.

Lemma nlp_ids_NoDup self db player limit (s s' : Faults) (l : list Player) :
  NoDup (map id db) ->
  _find_nlp_similarities self db player limit s = (Ok l, s') ->
  NoDup (map id l).
Proof.
  intros Hdb. rewrite nlp_run. destruct (next_fails s).
  - now apply fallback_ids_NoDup.
  - intros [= <- _].
    now apply (ranked_ids_NoDup _ _ _ (nlp_candidates db player)).
Qed.

(** ** Fusion *)

Lemma find_id_none (k : Z) (l : list Player) :
  ~ In k (map id l) -> find_id k l = None.
Proof.
  induction l as [|p l IH]; simpl; intros H; [reflexivity|].
  destruct (Z.eqb_spec (id p) k) as [E|E]; [tauto|]. apply IH. tauto.
Qed.

Lemma find_id_some (k : Z) (l : list Player) (p : Player) :
  find_id k l = Some p -> In p l /\ id p = k.
Proof.
  intros H. apply find_some in H. destruct H as [H E].
  apply Z.eqb_eq in E. tauto.
Qed.

Lemma find_id_in (k : Z) (l : list Player) :
  In k (map id l) <-> find_id k l <> None.
Proof.
  split.
  - intros H. apply in_map_iff in H. destruct H as (p & E & Hp).
    intros Hn. apply (find_none _ _ Hn) in Hp.
    apply Z.eqb_neq in Hp. contradiction.
  - intros H. destruct (find_id k l) as [p|] eqn:E; [|contradiction].
    apply find_id_some in E. destruct E as [Hp <-]. now apply in_map.
Qed.

Lemma fold_statistical_get (k : Z) (l : list Player) (d : list (Z * Entry)) :
  NoDup (map id l) ->
  dict_get k (fold_left add_statistical l d)
  = match find_id k l with
    | Some p => Some (mkEntry p (similarity_score p) (Some 0))
    | None => dict_get k d
    end.
Proof.
  revert d. induction l as [|p l IH]; intros d Hnd; simpl; [reflexivity|].
  inversion Hnd as [|? ? Hp Hl]; subst.
  rewrite (IH _ Hl). unfold add_statistical. rewrite dict_get_set.
  rewrite (Z.eqb_sym k (id p)).
  destruct (Z.eqb_spec (id p) k) as [<-|E]; [|reflexivity].
  now rewrite (find_id_none _ _ Hp).
Qed.

Lemma fold_nlp_get (k : Z) (l : list Player) (d : list (Z * Entry)) :
  NoDup (map id l) ->
  dict_get k (fold_left add_nlp l d)
  = match find_id k l with
    | Some p =>
        Some (match dict_get k d with
              | Some data =>
                  mkEntry (player_of data) (statistical_score data)
                          (similarity_score p)
              | None => mkEntry p (Some 0) (similarity_score p)
              end)
    | None => dict_get k d
    end.
Proof.
  revert d. induction l as [|p l IH]; intros d Hnd; simpl; [reflexivity|].
  inversion Hnd as [|? ? Hp Hl]; subst.
  rewrite (IH _ Hl).
  assert (Hget : dict_get k (add_nlp d p)
                 = if Z.eqb k (id p)
                   then Some (match dict_get (id p) d with
                              | Some data =>
                                  mkEntry (player_of data)
                                    (statistical_score data)
                                    (similarity_score p)
                              | None => mkEntry p (Some 0) (similarity_score p)
                              end)
                   else dict_get k d).
  { unfold add_nlp. destruct (dict_get (id p) d); now rewrite dict_get_set. }
  rewrite Hget, (Z.eqb_sym k (id p)).
  destruct (Z.eqb_spec (id p) k) as [<-|E]; [|reflexivity].
  now rewrite (find_id_none _ _ Hp).
Qed.

Lemma fold_statistical_NoDup (l : list Player) (d : list (Z * Entry)) :
  NoDup (map fst d) -> NoDup (map fst (fold_left add_statistical l d)).
Proof.
  revert d. induction l as [|p l IH]; intros d H; simpl; [exact H|].
  apply IH. now apply dict_set_NoDup.
Qed.

Lemma fold_nlp_NoDup (l : list Player) (d : list (Z * Entry)) :
  NoDup (map fst d) -> NoDup (map fst (fold_left add_nlp l d)).
Proof.
  revert d. induction l as [|p l IH]; intros d H; simpl; [exact H|].
  apply IH. unfold add_nlp. destruct (dict_get (id p) d);
    now apply dict_set_NoDup.
Qed.

Lemma entries_NoDup (stat nlp : list Player) :
  NoDup (map fst (entries stat nlp)).
Proof.
  unfold entries. apply fold_nlp_NoDup, fold_statistical_NoDup. constructor.
Qed.

Lemma entries_get (k : Z) (stat nlp : list Player) :
  NoDup (map id stat) -> NoDup (map id nlp) ->
  dict_get k (entries stat nlp)
  = match find_id k stat, find_id k nlp with
    | Some ps, Some pn =>
        Some (mkEntry ps (similarity_score ps) (similarity_score pn))
    | Some ps, None => Some (mkEntry ps (similarity_score ps) (Some 0))
    | None, Some pn => Some (mkEntry pn (Some 0) (similarity_score pn))
    | None, None => None
    end.
Proof.
  intros Hs Hn. unfold entries.
  rewrite (fold_nlp_get _ _ _ Hn), (fold_statistical_get _ _ _ Hs). simpl.
  destruct (find_id k stat), (find_id k nlp); reflexivity.
Qed.

Lemma entries_keys (k : Z) (stat nlp : list Player) :
  NoDup (map id stat) -> NoDup (map id nlp) ->
  In k (map fst (entries stat nlp))
  <-> In k (map id stat) \/ In k (map id nlp).
Proof.
  intros Hs Hn.
  rewrite dict_get_keys, (entries_get _ _ _ Hs Hn), !find_id_in.
  destruct (find_id k stat), (find_id k nlp);
    intuition (congruence || discriminate).
Qed.

Lemma entries_fused_score (player : Player) (k : Z) (e : Entry)
    (stat nlp : list Player) :
  NoDup (map id stat) -> NoDup (map id nlp) ->
  Forall (scored_other player) stat -> Forall (scored_other player) nlp ->
  In (k, e) (entries stat nlp) ->
  fused_score e = score_in stat k * (6 / 10) + score_in nlp k * (4 / 10).
Proof.
  intros Hs Hn Hso Hno Hin.
  apply (dict_In_get _ _ _ (entries_NoDup stat nlp)) in Hin.
  rewrite (entries_get _ _ _ Hs Hn) in Hin.
  unfold score_in, fused_score. rewrite Forall_forall in Hso, Hno.
  destruct (find_id k stat) as [ps|] eqn:Es, (find_id k nlp) as [pn|] eqn:En;
    try discriminate; injection Hin as <-; simpl;
    repeat match goal with
           | H : find_id _ _ = Some ?p |- _ =>
               apply find_id_some in H; destruct H as [H _]
           end.
  - destruct (Hso _ Es) as [_ ->]. destruct (Hno _ En) as [_ ->]. reflexivity.
  - destruct (Hso _ Es) as [_ ->]. reflexivity.
  - destruct (Hno _ En) as [_ ->]. reflexivity.
Qed.

Lemma Sorted_by_score (l : list (Player * R)) :
  Forall (fun x => snd x = score_of (fst x)) l ->
  Sorted (fun a b => score_of b <= score_of a) (map fst (sort_reverse snd l)).
Proof.
  intros Hl.
  assert (Hk : Forall (fun x => snd x = score_of (fst x)) (sort_reverse snd l)).
  { rewrite Forall_forall in *. intros x Hx. apply Hl.
    unfold sort_reverse in Hx. now apply sort_by_in in Hx. }
  pose proof (sort_reverse_sorted snd l) as Hs.
  induction Hs as [|x xs Hxs IH Hhd]; simpl; [constructor|].
  inversion Hk as [|? ? Hx Hk']; subst.
  constructor; [now apply IH|].
  destruct Hhd as [|y ys Hy]; simpl; constructor.
  inversion Hk' as [|? ? Hy' _]; subst. now rewrite <- Hx, <- Hy'.
Qed.

(** C4. With unique record ids, the hybrid strategy runs the statistical
    and then the NLP strategy, each with limit 2 x limit, and returns the
    slice up to [limit] of a list [full] such that: the ids of [full] are
    exactly the ids of the two lists, each once (no candidate is dropped,
    whatever its score); every record of [full] carries the score
    0.6 x statistical + 0.4 x nlp, where a list gives 0.0 to an id it does
    not contain; and [full] is in descending order of that score. *)
Theorem C4_hybrid_fusion self db player limit (s : Faults) :
  NoDup (map id db) ->
  exists stat nlp s1 s2 full,
    _find_statistical_similarities self db player (limit * 2) s = (Ok stat, s1)
    /\ _find_nlp_similarities self db player (limit * 2) s1 = (Ok nlp, s2)
    /\ _find_hybrid_similarities self db player limit s
       = (Ok (Py.slice_to full limit), s2)
    /\ ((0 <= limit)%Z -> Py.slice_to full limit = firstn (Z.to_nat limit) full)
    /\ (forall k, In k (map id full)
                  <-> In k (map id stat) \/ In k (map id nlp))
    /\ NoDup (map id full)
    /\ (forall c, In c full ->
          similarity_score c
          = Some (score_in stat (id c) * (6 / 10)
                  + score_in nlp (id c) * (4 / 10)))
    /\ Sorted (fun a b => score_of b <= score_of a) full.
Proof.
  intros Hdb.
  destruct (statistical_scored_other self db player (limit * 2) s)
    as (stat & s1 & Hs & Hso).
  destruct (nlp_scored_other self db player (limit * 2) s1)
    as (nlp & s2 & Hn & Hno).
  pose proof (statistical_ids_NoDup _ _ _ _ _ _ _ Hdb Hs) as Hsn.
  pose proof (nlp_ids_NoDup _ _ _ _ _ _ _ Hdb Hn) as Hnn.
  pose proof (entries_ok player stat nlp Hso Hno) as Hok.
  exists stat, nlp, s1, s2, (map fst (sort_reverse snd (fused stat nlp))).
  assert (Hids : Permutation
                   (map id (map fst (sort_reverse snd (fused stat nlp))))
                   (map fst (entries stat nlp))).
  { rewrite <- (sort_reverse_perm snd). unfold fused. rewrite !map_map. simpl.
    erewrite map_ext_in; [reflexivity|].
    intros item Hin. rewrite Forall_forall in Hok.
    destruct (Hok _ Hin) as [E _]. now rewrite E. }
  split; [exact Hs|]. split; [exact Hn|].
  split.
  { rewrite (hybrid_run _ _ _ _ _ _ _ _ _ Hs Hso Hn Hno).
    unfold ranked. now rewrite slice_to_map. }
  split; [apply slice_to_firstn|].
  split.
  { intros k. rewrite <- (entries_keys k stat nlp Hsn Hnn).
    split; apply Permutation_in; [|symmetry]; exact Hids. }
  split.
  { eapply Permutation_NoDup; [symmetry; exact Hids | apply entries_NoDup]. }
  split.
  - intros c Hc. apply in_map_iff in Hc. destruct Hc as ([c' sc] & <- & Hc).
    apply sort_by_in in Hc. unfold fused in Hc.
    apply in_map_iff in Hc. destruct Hc as ([k e] & [= <- <-] & Hi).
    simpl. f_equal.
    rewrite Forall_forall in Hok. destruct (Hok _ Hi) as [E _].
    simpl in E. rewrite <- E.
    now apply (entries_fused_score player).
  - apply Sorted_by_score. unfold fused. apply Forall_forall.
    intros x Hx. apply in_map_iff in Hx. destruct Hx as (item & <- & _).
    reflexivity.
Qed.

(** ** Ranking by score *)

Lemma filter_map_fst {A B} (P : A -> bool) (l : list (A * B)) :
  List.filter P (map fst l) = map fst (List.filter (fun x => P (fst x)) l).
Proof.
  induction l as [|x l IH]; simpl; [reflexivity|].
  destruct (P (fst x)); simpl; now rewrite IH.
Qed.

Lemma kept_scores (threshold : R) (score : Player -> R) (pool : list Player) :
  Forall (fun x => snd x = score_of (fst x)) (kept threshold score pool).
Proof.
  unfold kept. apply Forall_forall. intros x Hx.
  apply in_map_iff in Hx. destruct Hx as (c & <- & _). reflexivity.
Qed.

Lemma shortlist_stable (threshold : R) (score : Player -> R)
    (pool : list Player) (sc : R) :
  List.filter (fun q => feq (score_of q) sc) (shortlist threshold score pool)
  = List.filter (fun q => feq (score_of q) sc)
      (map fst (kept threshold score pool)).
Proof.
  unfold shortlist. rewrite !filter_map_fst. f_equal.
  pose proof (kept_scores threshold score pool) as Hk.
  assert (Hsame : forall l : list (Player * R),
             Forall (fun x => snd x = score_of (fst x)) l ->
             List.filter (fun x => feq (score_of (fst x)) sc) l
             = List.filter (fun x => feq (snd x) sc) l).
  { intros l Hl. apply filter_ext_in. intros x Hx.
    rewrite Forall_forall in Hl. now rewrite (Hl x Hx). }
  rewrite !Hsame; [apply sort_reverse_stable | exact Hk |].
  apply Forall_forall. intros x Hx. rewrite Forall_forall in Hk. apply Hk.
  unfold sort_reverse in Hx. now apply sort_by_in in Hx.
Qed.

(** C1, amended. When the round trip to the store succeeds, the
    statistical strategy returns the slice up to [limit] of a list [full]
    that is a rearrangement of the kept candidates (the candidates that
    reach the threshold, each with its cosine score), in descending order
    of score; candidates with equal scores stay in the order in which the
    store returned them, which is the default order of the model (goals
    and assists descending, then name), not the order of their ids. *)
Theorem C1_statistical_ranking self db player limit (s : Faults) :
  next_fails s = false ->
  exists full,
    _find_statistical_similarities self db player limit s
    = (Ok (Py.slice_to full limit), tl s)
    /\ ((0 <= limit)%Z -> Py.slice_to full limit = firstn (Z.to_nat limit) full)
    /\ Permutation full
         (map fst (kept (similarity_threshold self) (statistical_score_of player)
                     (Meta_ordered (selected (statistical_candidates db player)))))
    /\ Sorted (fun a b => score_of b <= score_of a) full
    /\ (forall sc,
          List.filter (fun q => feq (score_of q) sc) full
          = List.filter (fun q => feq (score_of q) sc)
              (map fst (kept (similarity_threshold self)
                          (statistical_score_of player)
                          (Meta_ordered
                             (selected (statistical_candidates db player)))))).
Proof.
  intros Hs.
  exists (shortlist (similarity_threshold self) (statistical_score_of player)
            (Meta_ordered (selected (statistical_candidates db player)))).
  split; [now rewrite statistical_run, Hs, ranked_shortlist|].
  split; [apply slice_to_firstn|].
  split.
  { unfold shortlist. apply Permutation_map, Permutation_sym, sort_reverse_perm. }
  split; [apply Sorted_by_score, kept_scores|].
  apply shortlist_stable.
Qed.

(** ** A league of three records with the same statistics *)

Lemma flt_irrefl (x : R) : flt x x = false.
Proof. apply flt_false. lra. Qed.

Lemma feq_refl (x : R) : feq x x = true.
Proof. now apply feq_true. Qed.

Lemma blank_vector i nm pos comp years g a :
  statistics_vector (blank i nm pos comp years g a)
  = [0; 0; 0; 0; 0; 0; 0; 0; 0; Py.min (years / 40) 1].
Proof.
  unfold statistics_vector, get_statistics_vector, goals_per_90,
    assists_per_90, capped_rate, fraction_of_100, per_90_capped.
  simpl. rewrite !flt_irrefl. simpl. rewrite !flt_irrefl. simpl.
  rewrite truediv_ok by lra. reflexivity.
Qed.

Lemma all_zero_dot (v : list R) : np_all_zero v = true -> dot v v = 0.
Proof.
  induction v as [|x v IH]; simpl; [reflexivity|].
  intros H. apply andb_true_iff in H. destruct H as [Hx Hv].
  apply feq_true in Hx. rewrite (IH Hv), Hx. ring.
Qed.

Lemma cosine_self (v : list R) : 0 < dot v v -> _cosine_similarity v v = 1.
Proof.
  intros H. unfold _cosine_similarity.
  destruct (np_all_zero v) eqn:E; [apply all_zero_dot in E; lra|]. simpl.
  unfold np_dot. rewrite Nat.eqb_refl. simpl.
  unfold np_linalg_norm.
  assert (Hn : sqrt (dot v v) <> 0).
  { intros E0. apply sqrt_eq_0 in E0; lra. }
  apply feq_false in Hn. rewrite Hn. simpl.
  rewrite sqrt_sqrt by lra. field. lra.
Qed.

(** Decide the comparisons of the goal whose operands are known. *)
Ltac decide_cmp :=
  repeat match goal with
         | |- context [fle ?a ?b] =>
             first [ rewrite (proj2 (fle_true a b)) by lra
                   | rewrite (proj2 (fle_false a b)) by lra ]
         | |- context [flt ?a ?b] =>
             first [ rewrite (proj2 (flt_true a b)) by lra
                   | rewrite (proj2 (flt_false a b)) by lra ]
         | |- context [feq ?a ?b] =>
             first [ rewrite (proj2 (feq_true a b)) by lra
                   | rewrite (proj2 (feq_false a b)) by lra ]
         end.

Lemma league_pool :
  Meta_ordered (selected (statistical_candidates league target)) = [ann; bob].
Proof.
  unfold Meta_ordered, selected. simpl. rewrite !flt_irrefl. reflexivity.
Qed.

Lemma league_score (i : Z) (nm : string) :
  statistical_score_of target (blank i nm "FW" "Premier League" 20 0 0) = 1.
Proof.
  unfold statistical_score_of, target. rewrite !blank_vector.
  apply cosine_self. simpl.
  assert (H : Py.min (20 / 40) 1 = 20 / 40).
  { unfold Py.min. assert (E : flt 1 (20 / 40) = false) by (apply flt_false; lra).
    now rewrite E. }
  rewrite H. lra.
Qed.

Lemma league_result :
  _find_statistical_similarities example_service league target 10 []
  = (Ok [set_similarity_score ann 1; set_similarity_score bob 1], []).
Proof.
  rewrite statistical_run. simpl next_fails. cbv iota.
  rewrite league_pool. unfold kept, ranked, sort_reverse. simpl.
  pose proof (league_score 3 "Ann" : statistical_score_of target ann = 1) as Ea.
  pose proof (league_score 2 "Bob" : statistical_score_of target bob = 1) as Eb.
  rewrite Ea, Eb. decide_cmp. simpl. rewrite !Ea, !Eb. decide_cmp.
  reflexivity.
Qed.

(** C1, as stated, fails: [ann] (id 3) and [bob] (id 2) have the same
    statistics as the target, hence the same score; the strategy returns
    them in the order of the store, by name, which is not by ascending
    id. *)
Lemma C1_counterexample :
  exists l,
    fst (_find_statistical_similarities example_service league target 10 [])
    = Ok l
    /\ ~ Sorted score_then_id l.
Proof.
  rewrite league_result. eexists; split; [reflexivity|].
  intros H. inversion H as [|? ? _ Hhd]; subst.
  inversion Hhd as [|? ? Hab]; subst.
  destruct Hab as [Hlt|[_ Hid]].
  - unfold score_of in Hlt. simpl in Hlt. lra.
  - simpl in Hid. lia.
Qed.

Lemma C1_witness :
  exists full,
    _find_statistical_similarities example_service league target 10 []
    = (Ok (Py.slice_to full 10), tl [])
    /\ Sorted (fun a b => score_of b <= score_of a) full.
Proof.
  destruct (C1_statistical_ranking example_service league target 10 [])
    as (full & Hrun & _ & _ & Hsorted & _).
  - reflexivity.
  - exists full. split; assumption.
Defined.

(** ** Ordering by a stored attribute *)

Lemma columns_plain (field : string) (f : Player -> value) :
  lookup field columns = Some f ->
  parse_term field = (false, field)
  /\ existsb (String.eqb field) calculated_fields = false.
Proof.
  unfold columns. cbn [lookup].
  repeat match goal with
         | |- context [String.eqb field ?k] =>
             destruct (String.eqb_spec field k) as [->|_];
             [intros _; split; reflexivity|]
         end.
  discriminate.
Qed.

Lemma parse_descending (field : string) :
  parse_term ("-" ++ field)%string = (true, field).
Proof. reflexivity. Qed.

Lemma ordered_by_perm (f : Player -> value) (desc : bool) (l : list Player) :
  Permutation l (ordered_by f desc l).
Proof.
  unfold ordered_by.
  rewrite <- (map_id l) at 1.
  rewrite <- (map_map (fun p => ([f p], p)) snd l) at 1.
  apply Permutation_map, sort_by_perm.
Qed.

Lemma ordered_by_sorted (f : Player -> value) (desc : bool) (l : list Player) :
  Sorted (fun a b => if desc then value_lt (f a) (f b) = false
                     else value_lt (f b) (f a) = false)
         (ordered_by f desc l).
Proof.
  apply (keyed_sorted_map (fun p => [f p])).
  intros a b. simpl.
  destruct desc, (value_lt (f b) (f a)) eqn:E1, (value_lt (f a) (f b)) eqn:E2;
    simpl; try discriminate; try reflexivity;
    rewrite (value_lt_asym _ _ E1) in E2; discriminate.
Qed.

Lemma apply_sorting_stored (opts : list (string * SortOption)) (qs : QuerySet)
    (sort_key : string) (reverse : bool) (o : SortOption)
    (f : Player -> value) :
  lookup sort_key opts = Some o ->
  lookup (field o) columns = Some f ->
  lookup (field o) (annotations qs) = None ->
  stop qs = None ->
  exists sorted,
    apply_sorting opts qs sort_key reverse = Ok sorted
    /\ rows sorted = Ok (ordered_by f reverse (selected qs)).
Proof.
  intros Ho Hf Ha Hs.
  destruct (columns_plain _ _ Hf) as [Hplain Hcalc].
  unfold apply_sorting, is_valid_sort_option, get_sort_field.
  rewrite Ho. cbn [negb rbind]. rewrite Hcalc.
  assert (Hknown : known qs (field o) = true)
    by (unfold known; now rewrite Ha, Hf).
  assert (Hkeys : forall (term : string) (qs' : QuerySet) (p : Player),
             snd (parse_term term) = field o ->
             annotations qs' = annotations qs -> ordering qs' = [term] ->
             sort_keys qs' p = Ok [f p]).
  { intros term qs' p Ht Hann Hord. unfold sort_keys, resolve.
    rewrite Hord, Hann. cbn [rmap]. rewrite Ht, Ha, Hf. reflexivity. }
  destruct reverse; unfold qs_order_by; rewrite Hs; cbn [List.find].
  - rewrite parse_descending. cbn [snd]. rewrite Hknown. cbn [negb].
    eexists; split; [reflexivity|].
    rewrite (rows_eval _ (fun p => [f p])).
    + cbn [ordering stop map]. rewrite parse_descending. reflexivity.
    + intros p. apply (Hkeys ("-" ++ field o)%string); reflexivity.
  - rewrite Hplain. cbn [snd]. rewrite Hknown. cbn [negb].
    eexists; split; [reflexivity|].
    rewrite (rows_eval _ (fun p => [f p])).
    + cbn [ordering stop map]. rewrite Hplain. reflexivity.
    + intros p. apply (Hkeys (field o)); [now rewrite Hplain | reflexivity..].
Qed.

Lemma order_by_ordering (terms : list string) (qs sorted : QuerySet) :
  qs_order_by terms qs = Ok sorted -> ordering sorted = terms.
Proof.
  unfold qs_order_by. destruct (stop qs); [discriminate|].
  destruct (List.find _ terms); [discriminate|].
  intros [= <-]. reflexivity.
Qed.

Lemma apply_sorting_stored_ordering (opts : list (string * SortOption))
    (qs sorted : QuerySet) (sort_key : string) (reverse : bool)
    (o : SortOption) (f : Player -> value) :
  lookup sort_key opts = Some o ->
  lookup (field o) columns = Some f ->
  apply_sorting opts qs sort_key reverse = Ok sorted ->
  ordering sorted = [if reverse then ("-" ++ field o)%string else field o].
Proof.
  intros Ho Hf. destruct (columns_plain _ _ Hf) as [_ Hcalc].
  unfold apply_sorting, is_valid_sort_option, get_sort_field.
  rewrite Ho. cbn [negb rbind]. rewrite Hcalc.
  destruct reverse; apply order_by_ordering.
Qed.

(** C2, amended. For a sort key of the registry that names a stored
    attribute, on a query that has not been sliced and has no annotation
    of that name, the order operation returns a query ordered by that one
    attribute, with no further term to break ties.  Its rows are the
    selected records, each once, with the attribute descending or
    ascending as requested.  Nothing is said about the order of records
    with equal attribute values: the operation leaves it to the store. *)
Theorem C2_order_by_stored_attribute (opts : list (string * SortOption))
    (qs : QuerySet) (sort_key : string) (reverse : bool) (o : SortOption)
    (f : Player -> value) :
  lookup sort_key opts = Some o ->
  lookup (field o) columns = Some f ->
  lookup (field o) (annotations qs) = None ->
  stop qs = None ->
  exists sorted out,
    apply_sorting opts qs sort_key reverse = Ok sorted
    /\ ordering sorted
       = [if reverse then ("-" ++ field o)%string else field o]
    /\ rows sorted = Ok out
    /\ Permutation (selected qs) out
    /\ Sorted (fun a b => if reverse then value_lt (f a) (f b) = false
                          else value_lt (f b) (f a) = false) out.
Proof.
  intros Ho Hf Ha Hs.
  destruct (apply_sorting_stored opts qs sort_key reverse o f Ho Hf Ha Hs)
    as (sorted & Happly & Hrows).
  exists sorted, (ordered_by f reverse (selected qs)).
  split; [exact Happly|].
  split; [exact (apply_sorting_stored_ordering _ _ _ _ _ _ _ Ho Hf Happly)|].
  split; [exact Hrows|].
  split; [apply ordered_by_perm | apply ordered_by_sorted].
Qed.

Lemma C2_witness :
  exists sorted out,
    apply_sorting SORT_OPTIONS (objects league) "goals" true = Ok sorted
    /\ ordering sorted = ["-goals"]
    /\ rows sorted = Ok out
    /\ Permutation (selected (objects league)) out.
Proof.
  destruct (C2_order_by_stored_attribute SORT_OPTIONS (objects league) "goals"
              true
              (mkSortOption "Goals" "goals" "Total goals scored" "attacking")
              (fun p => VInt (goals p)))
    as (sorted & out & Happly & Hord & Hrows & Hperm & _);
    try reflexivity.
  exists sorted, out. repeat split; assumption.
Defined.

(** C2, as stated, fails: in a table that holds [ann] (id 3) before [bob]
    (id 2), both without goals, ordering by goals leaves [ann] first. *)
Lemma C2_counterexample :
  exists sorted out,
    apply_sorting SORT_OPTIONS (objects [ann; bob]) "goals" true = Ok sorted
    /\ rows sorted = Ok out
    /\ ~ Sorted (attribute_then_id (fun p => VInt (goals p)) true) out.
Proof.
  destruct (apply_sorting_stored SORT_OPTIONS (objects [ann; bob]) "goals" true
              (mkSortOption "Goals" "goals" "Total goals scored" "attacking")
              (fun p => VInt (goals p)))
    as (sorted & Happly & Hrows); try reflexivity.
  exists sorted, [ann; bob]. split; [exact Happly|]. split.
  - rewrite Hrows. unfold ordered_by, selected. simpl.
    rewrite !flt_irrefl. reflexivity.
  - intros H. inversion H as [|? ? _ Hhd]; subst.
    inversion Hhd as [|? ? Hab]; subst.
    destruct Hab as [Hlt|[_ Hid]].
    + simpl in Hlt. rewrite flt_irrefl in Hlt. discriminate.
    + simpl in Hid. lia.
Qed.

(** ** A candidate below the threshold *)

Lemma passer_vector i nm pos comp years :
  statistics_vector (passer i nm pos comp years)
  = [0; 0; 0; 100 / 100; 0; 0; 0; 0; 0; Py.min (years / 40) 1].
Proof.
  unfold statistics_vector, get_statistics_vector, goals_per_90,
    assists_per_90, capped_rate, fraction_of_100, per_90_capped.
  simpl. rewrite !flt_irrefl. simpl. rewrite !flt_irrefl. simpl.
  assert (E : flt 0 100 = true) by (apply flt_true; lra). rewrite E.
  rewrite !truediv_ok by lra. reflexivity.
Qed.

Lemma min_half : Py.min (20 / 40) 1 = 1 / 2.
Proof.
  unfold Py.min. assert (E : flt 1 (20 / 40) = false) by (apply flt_false; lra).
  rewrite E. lra.
Qed.

Lemma carl_score : statistical_score_of target carl < 7 / 10.
Proof.
  unfold statistical_score_of, target, carl.
  rewrite blank_vector, passer_vector, min_half.
  replace (100 / 100) with 1 by lra.
  unfold _cosine_similarity, np_all_zero, np_dot, np_linalg_norm.
  cbn [forallb List.length Nat.eqb]. decide_cmp. cbn [andb orb rbind].
  replace (dot [0; 0; 0; 0; 0; 0; 0; 0; 0; 1 / 2]
               [0; 0; 0; 1; 0; 0; 0; 0; 0; 1 / 2]) with (1 / 4)
    by (simpl; lra).
  replace (dot [0; 0; 0; 0; 0; 0; 0; 0; 0; 1 / 2]
               [0; 0; 0; 0; 0; 0; 0; 0; 0; 1 / 2]) with (1 / 4)
    by (simpl; lra).
  replace (dot [0; 0; 0; 1; 0; 0; 0; 0; 0; 1 / 2]
               [0; 0; 0; 1; 0; 0; 0; 0; 0; 1 / 2]) with (5 / 4)
    by (simpl; lra).
  assert (H1 : sqrt (1 / 4) = 1 / 2) by (apply sqrt_lem_1; lra).
  assert (H2 : 1 < sqrt (5 / 4)).
  { rewrite <- sqrt_1 at 1. apply sqrt_lt_1; lra. }
  rewrite H1. decide_cmp. cbn [orb rtry].
  apply Rmult_lt_reg_r with (r := 1 / 2 * sqrt (5 / 4)); [nra|].
  unfold Rdiv at 1. rewrite Rmult_assoc, Rinv_l by nra. nra.
Qed.

(** ** Instances *)

Lemma C3_witness :
  (exists msg,
     find_similar_players example_service league target 10 "cosine" []
     = (Raise (ValueError msg), []))
  /\ (exists l s',
        find_similar_players example_service league target 10 "hybrid"
          [true; true]
        = (Ok l, s')).
Proof.
  split.
  - destruct (C3_only_invalid_strategy_raises example_service league target 10
                "cosine" []) as (Hinvalid & _).
    apply Hinvalid. simpl. intros [H|[H|[H|[]]]]; discriminate H.
  - destruct (C3_only_invalid_strategy_raises example_service league target 10
                "hybrid" [true; true]) as (_ & Hvalid & _).
    apply Hvalid. simpl. auto.
Defined.

Lemma C4_witness :
  exists stat nlp s1 s2 full,
    _find_statistical_similarities example_service league target (3 * 2) []
    = (Ok stat, s1)
    /\ _find_nlp_similarities example_service league target (3 * 2) s1
       = (Ok nlp, s2)
    /\ _find_hybrid_similarities example_service league target 3 []
       = (Ok (Py.slice_to full 3), s2)
    /\ (forall k, In k (map id full)
                  <-> In k (map id stat) \/ In k (map id nlp)).
Proof.
  destruct (C4_hybrid_fusion example_service league target 3 [])
    as (stat & nlp & s1 & s2 & full & Hs & Hn & Hh & _ & Hk & _).
  - simpl. repeat constructor; simpl; intuition discriminate.
  - exists stat, nlp, s1, s2, full. repeat split; try assumption; apply Hk.
Defined.

Lemma C5_witness :
  _find_statistical_similarities example_service [target; carl] target 10 []
  = (Ok [], [])
  /\ _fallback_similarity_search example_service [target; carl] target 10 []
     = (Ok [set_similarity_score carl (5 / 10)], []).
Proof.
  destruct (C5_threshold_filter example_service [target; carl] target 10 [])
    as (ss & sn & _ & _ & _ & _ & Hempty & _); [reflexivity|].
  split.
  - apply Hempty. intros c [<-|[<-|[]]] _ Hid.
    + now elim Hid.
    + exact carl_score.
  - rewrite fallback_run. simpl.
    unfold by_goals_assists, selected. simpl. decide_cmp. reflexivity.
Defined.

Lemma C7_witness :
  exists l s',
    find_similar_players example_service league target 10 "statistical" []
    = (Ok l, s')
    /\ Forall (fun q => id q <> id target) l.
Proof.
  destruct (C7_target_never_returned example_service league target 10 [])
    as [H _].
  apply (H "statistical"). simpl. auto.
Defined.

(* ================================================================== *)
(** * Further properties of the sort registry *)

Lemma lookup_in {V} (k : string) (v : V) (d : list (string * V)) :
  lookup k d = Some v -> In (k, v) d.
Proof.
  induction d as [|[k' v'] d IH]; simpl; [discriminate|].
  destruct (String.eqb_spec k k') as [->|_].
  - intros [= ->]. now left.
  - intros H. right. now apply IH.
Qed.

Lemma in_lookup {V} (k : string) (v : V) (d : list (string * V)) :
  NoDup (map fst d) -> In (k, v) d -> lookup k d = Some v.
Proof.
  induction d as [|[k' v'] d IH]; simpl; intros Hnd Hin; [contradiction|].
  inversion Hnd as [|? ? Hk Hd]; subst.
  destruct Hin as [[= -> ->]|Hin].
  - now rewrite String.eqb_refl.
  - destruct (String.eqb_spec k k') as [->|_]; [|now apply IH].
    exfalso. apply Hk. apply in_map_iff. now exists (k', v).
Qed.

Lemma lookup_none {V} (k : string) (d : list (string * V)) :
  lookup k d = None <-> ~ In k (map fst d).
Proof.
  induction d as [|[k' v'] d IH]; simpl; [tauto|].
  destruct (String.eqb_spec k k') as [->|Hk].
  - split; [discriminate | tauto].
  - rewrite IH. intuition congruence.
Qed.

Lemma lookup_replace (key : string) (o : SortOption)
    (opts : list (string * SortOption)) (k : string) :
  lookup k (map (fun kv => if String.eqb key (fst kv) then (key, o) else kv) opts)
  = if String.eqb k key
    then match lookup key opts with Some _ => Some o | None => None end
    else lookup k opts.
Proof.
  induction opts as [|[k' o'] opts IH]; cbn [map lookup fst].
  - destruct (String.eqb k key); reflexivity.
  - destruct (String.eqb_spec key k') as [<-|Hkey]; cbn [lookup].
    + destruct (String.eqb_spec k key) as [E|Hk].
      * reflexivity.
      * rewrite IH. destruct (String.eqb_spec k key); [contradiction | reflexivity].
    + rewrite IH. destruct (String.eqb_spec k k') as [->|Hk'].
      * destruct (String.eqb_spec k' key); [congruence | reflexivity].
      * reflexivity.
Qed.

Lemma lookup_app {V} (k : string) (d1 d2 : list (string * V)) :
  lookup k (d1 ++ d2)
  = match lookup k d1 with Some v => Some v | None => lookup k d2 end.
Proof.
  induction d1 as [|[k' v'] d1 IH]; simpl; [reflexivity|].
  destruct (String.eqb k k'); [reflexivity | exact IH].
Qed.

Lemma add_sort_option_lookup opts key dn f d c (k : string) :
  lookup k (add_sort_option opts key dn f d c)
  = if String.eqb k key then Some (mkSortOption dn f d c) else lookup k opts.
Proof.
  unfold add_sort_option, is_valid_sort_option.
  destruct (lookup key opts) as [o|] eqn:E.
  - rewrite lookup_replace, E. reflexivity.
  - rewrite lookup_app. simpl.
    destruct (String.eqb_spec k key) as [->|Hk].
    + now rewrite E.
    + destruct (lookup k opts); reflexivity.
Qed.

Lemma add_sort_option_keys opts key dn f d c :
  map fst (add_sort_option opts key dn f d c)
  = if is_valid_sort_option opts key then map fst opts
    else map fst opts ++ [key].
Proof.
  unfold add_sort_option. destruct (is_valid_sort_option opts key).
  - rewrite map_map. apply map_ext. intros [k o]. simpl.
    destruct (String.eqb_spec key k) as [->|_]; reflexivity.
  - rewrite map_app. reflexivity.
Qed.

Lemma is_valid_in_keys opts key :
  is_valid_sort_option opts key = true <-> In key (map fst opts).
Proof.
  unfold is_valid_sort_option.
  destruct (lookup key opts) as [o|] eqn:E.
  - split; [|reflexivity]. intros _. apply lookup_in in E.
    apply in_map_iff. now exists (key, o).
  - split; [discriminate|]. intros H. now apply lookup_none in E.
Qed.

Lemma add_sort_option_valid opts key dn f d c :
  is_valid_sort_option (add_sort_option opts key dn f d c) key = true.
Proof.
  unfold is_valid_sort_option.
  now rewrite add_sort_option_lookup, String.eqb_refl.
Qed.

Lemma filter_absent_key opts key :
  is_valid_sort_option opts key = false ->
  List.filter (fun kv : string * SortOption => negb (String.eqb key (fst kv))) opts
  = opts.
Proof.
  intros H.
  assert (Hk : ~ In key (map fst opts)).
  { intros Hin. apply is_valid_in_keys in Hin. congruence. }
  clear H. induction opts as [|[k o] opts IH]; simpl in *; [reflexivity|].
  destruct (String.eqb_spec key k) as [->|_]; [tauto|]. simpl.
  rewrite IH by tauto. reflexivity.
Qed.

(** X1. After [add_sort_option] the key is valid and resolves to the given
    field, whether it was new or already registered (the last write
    wins); every other key keeps its option; the registry has one more
    entry exactly when the key was new, and its keys stay distinct. *)
Theorem X1_add_sort_option_registers opts key dn f d c :
  is_valid_sort_option (add_sort_option opts key dn f d c) key = true
  /\ get_sort_field (add_sort_option opts key dn f d c) key = Ok f
  /\ (forall k, k <> key ->
        lookup k (add_sort_option opts key dn f d c) = lookup k opts)
  /\ List.length (add_sort_option opts key dn f d c)
     = (if is_valid_sort_option opts key then List.length opts
        else S (List.length opts))
  /\ (NoDup (map fst opts) ->
      NoDup (map fst (add_sort_option opts key dn f d c))).
Proof.
  repeat split.
  - apply add_sort_option_valid.
  - unfold get_sort_field.
    now rewrite add_sort_option_lookup, String.eqb_refl.
  - intros k Hk. rewrite add_sort_option_lookup.
    destruct (String.eqb_spec k key); [contradiction | reflexivity].
  - unfold add_sort_option. destruct (is_valid_sort_option opts key).
    + apply length_map.
    + rewrite length_app. simpl. lia.
  - intros Hnd. rewrite add_sort_option_keys.
    destruct (is_valid_sort_option opts key) eqn:E; [exact Hnd|].
    apply NoDup_app; [exact Hnd | repeat constructor; intros [] |].
    intros k Hk [<-|[]].
    apply is_valid_in_keys in Hk. congruence.
Qed.

Lemma X1_witness :
  NoDup (map fst (add_sort_option
                    [("age", mkSortOption "Age" "age" "Player age" "basic")]
                    "pace" "Pace" "age" "Speed" "basic")).
Proof.
  destruct (X1_add_sort_option_registers
              [("age", mkSortOption "Age" "age" "Player age" "basic")]
              "pace" "Pace" "age" "Speed" "basic") as (_ & _ & _ & _ & H).
  apply H. simpl. repeat constructor. intros [].
Defined.

Lemma remove_sort_option_lookup opts key (k : string) :
  lookup k (fst (remove_sort_option opts key))
  = if String.eqb k key then None else lookup k opts.
Proof.
  unfold remove_sort_option, is_valid_sort_option.
  destruct (lookup key opts) as [o|] eqn:E; simpl.
  - clear E. induction opts as [|[k' o'] opts IH]; simpl.
    + destruct (String.eqb k key); reflexivity.
    + destruct (String.eqb_spec key k') as [<-|Hkey]; simpl.
      * rewrite IH. destruct (String.eqb_spec k key); reflexivity.
      * rewrite IH. destruct (String.eqb_spec k k') as [->|Hk'];
          [|reflexivity].
        destruct (String.eqb_spec k' key); [congruence | reflexivity].
  - destruct (String.eqb_spec k key) as [->|_]; [now rewrite E | reflexivity].
Qed.

(** X2. [remove_sort_option] reports whether the key was registered; after
    it the key is not valid and [get_sort_field] raises for it, every
    other key keeps its option, and a registry that did not hold the key
    is returned unchanged.  Removing a key that was just added to a
    registry that did not hold it gives that registry back. *)
Theorem X2_remove_sort_option_unregisters opts key :
  snd (remove_sort_option opts key) = is_valid_sort_option opts key
  /\ is_valid_sort_option (fst (remove_sort_option opts key)) key = false
  /\ get_sort_field (fst (remove_sort_option opts key)) key
     = Raise (ValueError ("Invalid sort option: " ++ key)%string)
  /\ (forall k, k <> key ->
        lookup k (fst (remove_sort_option opts key)) = lookup k opts)
  /\ (is_valid_sort_option opts key = false ->
      fst (remove_sort_option opts key) = opts
      /\ forall dn f d c,
           remove_sort_option (add_sort_option opts key dn f d c) key
           = (opts, true)).
Proof.
  repeat split.
  - unfold remove_sort_option. now destruct (is_valid_sort_option opts key).
  - unfold is_valid_sort_option.
    now rewrite remove_sort_option_lookup, String.eqb_refl.
  - unfold get_sort_field.
    now rewrite remove_sort_option_lookup, String.eqb_refl.
  - intros k Hk. rewrite remove_sort_option_lookup.
    destruct (String.eqb_spec k key); [contradiction | reflexivity].
  - unfold remove_sort_option. now rewrite H.
  - intros dn f d c.
    unfold remove_sort_option. rewrite add_sort_option_valid. f_equal.
    unfold add_sort_option. rewrite H.
    rewrite filter_app. simpl. rewrite String.eqb_refl. simpl.
    rewrite app_nil_r. now apply filter_absent_key.
Qed.

Lemma X2_witness :
  remove_sort_option
    (add_sort_option [("age", mkSortOption "Age" "age" "Player age" "basic")]
       "pace" "Pace" "age" "Speed" "basic")
    "pace"
  = ([("age", mkSortOption "Age" "age" "Player age" "basic")], true).
Proof.
  destruct (X2_remove_sort_option_unregisters
              [("age", mkSortOption "Age" "age" "Player age" "basic")] "pace")
    as (_ & _ & _ & _ & H).
  destruct H as [_ H]; [reflexivity|].
  exact (H "Pace" "age" "Speed" "basic").
Defined.

Lemma calculated_annotation_some (field : string) (name : string)
    (e : Player -> result value) :
  calculated_annotation field = Some (name, e) ->
  existsb (String.eqb field) calculated_fields = true
  /\ parse_term name = (false, name).
Proof.
  unfold calculated_annotation, calculated_fields. cbn [existsb].
  destruct (String.eqb field "goals_per_90");
    [intros [= <- _]; split; reflexivity|].
  destruct (String.eqb field "assists_per_90");
    [intros [= <- _]; split; reflexivity|].
  destruct (String.eqb field "goal_contribution_per_90");
    [intros [= <- _]; split; reflexivity|].
  destruct (String.eqb field "minutes_per_game");
    [intros [= <- _]; split; reflexivity|].
  discriminate.
Qed.

Lemma apply_sorting_calculated (opts : list (string * SortOption))
    (qs : QuerySet) (sort_key : string) (reverse : bool) (o : SortOption)
    (name : string) (e : Player -> result value) (f : Player -> value) :
  lookup sort_key opts = Some o ->
  calculated_annotation (field o) = Some (name, e) ->
  (forall p, e p = Ok (f p)) ->
  stop qs = None ->
  exists sorted,
    apply_sorting opts qs sort_key reverse = Ok sorted
    /\ rows sorted = Ok (ordered_by f reverse (selected qs)).
Proof.
  intros Ho Hc He Hs.
  destruct (calculated_annotation_some _ _ _ Hc) as [Hcalc Hplain].
  unfold apply_sorting, is_valid_sort_option, get_sort_field.
  rewrite Ho. cbn [negb rbind]. rewrite Hcalc.
  unfold _apply_calculated_sort. rewrite Hc.
  assert (Hknown : known (qs_annotate name e qs) name = true).
  { unfold known, qs_annotate. cbn [annotations lookup].
    now rewrite String.eqb_refl. }
  assert (Hkeys : forall (term : string) (qs' : QuerySet) (p : Player),
             snd (parse_term term) = name ->
             annotations qs' = (name, e) :: annotations qs ->
             ordering qs' = [term] ->
             sort_keys qs' p = Ok [f p]).
  { intros term qs' p Ht Hann Hord. unfold sort_keys, resolve.
    rewrite Hord, Hann. cbn [rmap lookup]. rewrite Ht, String.eqb_refl, He.
    reflexivity. }
  assert (Hstop : stop (qs_annotate name e qs) = None) by exact Hs.
  destruct reverse; unfold qs_order_by; rewrite Hstop; cbn [List.find].
  - rewrite parse_descending. cbn [snd]. rewrite Hknown. cbn [negb].
    eexists; split; [reflexivity|].
    rewrite (rows_eval _ (fun p => [f p])).
    + cbn [ordering stop map]. rewrite parse_descending. reflexivity.
    + intros p. apply (Hkeys ("-" ++ name)%string); reflexivity.
  - rewrite Hplain. cbn [snd]. rewrite Hknown. cbn [negb].
    eexists; split; [reflexivity|].
    rewrite (rows_eval _ (fun p => [f p])).
    + cbn [ordering stop map]. rewrite Hplain. reflexivity.
    + intros p. apply (Hkeys name); [now rewrite Hplain | reflexivity..].
Qed.

Lemma guarded_ratio_per_90 (n : Player -> Z) (p : Player) :
  guarded_ratio (fun p => VFloat (minutes_per_90 p)) (fun p => VInt (n p))
                (fun p => VFloat (minutes_per_90 p)) p
  = Ok (VFloat (per_90 n p)).
Proof.
  unfold guarded_ratio, per_90. simpl.
  destruct (flt 0 (minutes_per_90 p)) eqn:E; [|reflexivity].
  apply flt_true in E. rewrite truediv_ok by lra. reflexivity.
Qed.

Lemma per_90_column_annotation (sort_key : string) (n : Player -> Z) :
  per_90_column sort_key = Some n ->
  lookup sort_key SORT_OPTIONS <> None
  /\ forall o, lookup sort_key SORT_OPTIONS = Some o ->
       exists name,
         calculated_annotation (field o)
         = Some (name,
                 guarded_ratio (fun p => VFloat (minutes_per_90 p))
                               (fun p => VInt (n p))
                               (fun p => VFloat (minutes_per_90 p))).
Proof.
  unfold per_90_column.
  destruct (String.eqb_spec sort_key "goals_per_90") as [->|_].
  { intros [= <-]. split; [discriminate|]. intros o [= <-]. eexists; reflexivity. }
  destruct (String.eqb_spec sort_key "assists_per_90") as [->|_].
  { intros [= <-]. split; [discriminate|]. intros o [= <-]. eexists; reflexivity. }
  destruct (String.eqb_spec sort_key "goal_contribution_per_90") as [->|_].
  { intros [= <-]. split; [discriminate|]. intros o [= <-]. eexists; reflexivity. }
  discriminate.
Qed.

(** X3. Ordering by one of the three per-90 keys of the built-in registry,
    on a query that has not been sliced, never fails, whatever the
    records hold: the rows are the selected records, each once, arranged
    so that the ratio count / minutes_per_90 (taken as 0 when
    minutes_per_90 is not positive) never increases down the list when
    descending is requested, and never decreases otherwise.  Nothing is
    said about the order of records with equal ratios. *)
Theorem X3_per_90_order (qs : QuerySet) (sort_key : string) (reverse : bool)
    (n : Player -> Z) :
  per_90_column sort_key = Some n ->
  stop qs = None ->
  exists sorted out,
    apply_sorting SORT_OPTIONS qs sort_key reverse = Ok sorted
    /\ rows sorted = Ok out
    /\ Permutation (selected qs) out
    /\ Sorted (fun a b => if reverse then per_90 n b <= per_90 n a
                          else per_90 n a <= per_90 n b) out.
Proof.
  intros Hn Hs.
  destruct (per_90_column_annotation _ _ Hn) as [Hsome Hann].
  destruct (lookup sort_key SORT_OPTIONS) as [o|] eqn:Ho; [|contradiction].
  destruct (Hann o eq_refl) as [name Hc].
  destruct (apply_sorting_calculated SORT_OPTIONS qs sort_key reverse o name _
              (fun p => VFloat (per_90 n p)) Ho Hc
              (guarded_ratio_per_90 n) Hs)
    as (sorted & Happly & Hrows).
  exists sorted, (ordered_by (fun p => VFloat (per_90 n p)) reverse (selected qs)).
  split; [exact Happly|]. split; [exact Hrows|].
  split; [apply ordered_by_perm|].
  eapply Sorted_ind with
    (P := fun l => Sorted (fun a b => if reverse then per_90 n b <= per_90 n a
                                      else per_90 n a <= per_90 n b) l);
    [constructor | | apply (ordered_by_sorted (fun p => VFloat (per_90 n p)))].
  intros a l _ IH Hhd. constructor; [exact IH|].
  destruct Hhd as [|b l' Hb]; constructor.
  destruct reverse; simpl in Hb; now apply flt_false in Hb.
Qed.

Lemma X3_witness :
  exists sorted out,
    apply_sorting SORT_OPTIONS (objects league) "goals_per_90" true = Ok sorted
    /\ rows sorted = Ok out
    /\ Permutation (selected (objects league)) out.
Proof.
  destruct (X3_per_90_order (objects league) "goals_per_90" true goals)
    as (sorted & out & Ha & Hr & Hp & _); try reflexivity.
  exists sorted, out. repeat split; assumption.
Defined.

Lemma total_as_function (e : Player -> result value) :
  (forall p, exists v, e p = Ok v) ->
  forall p, e p = Ok (rtry (e p) (fun _ => VNull)).
Proof. intros H p. destruct (H p) as [v ->]. reflexivity. Qed.

Lemma calculated_annotation_total (field name : string)
    (e : Player -> result value) :
  calculated_annotation field = Some (name, e) ->
  forall p, exists v, e p = Ok v.
Proof.
  unfold calculated_annotation.
  destruct (String.eqb field "goals_per_90");
    [intros [= _ <-] p; apply guarded_ratio_float_total|].
  destruct (String.eqb field "assists_per_90");
    [intros [= _ <-] p; apply guarded_ratio_float_total|].
  destruct (String.eqb field "goal_contribution_per_90");
    [intros [= _ <-] p; apply guarded_ratio_float_total|].
  destruct (String.eqb field "minutes_per_game");
    [intros [= _ <-] p; apply guarded_ratio_int_total|].
  discriminate.
Qed.

(** Every option of the built-in registry names a stored column or a
    calculated field. *)
Lemma builtin_fields_resolve (sort_key : string) (o : SortOption) :
  lookup sort_key SORT_OPTIONS = Some o ->
  lookup (field o) columns <> None \/ calculated_annotation (field o) <> None.
Proof.
  unfold SORT_OPTIONS. cbn [lookup].
  repeat match goal with
         | |- context [String.eqb sort_key ?k] =>
             destruct (String.eqb_spec sort_key k) as [->|_];
             [intros [= <-]; first [left; discriminate | right; discriminate]|]
         end.
  discriminate.
Qed.

(** X4. Every key of the built-in registry can be used: on a query that
    has not been sliced and carries no annotation, [apply_sorting] with a
    valid key returns a query whose evaluation succeeds (no unknown
    column, no division fault) and yields a rearrangement of the selected
    records, in either direction. *)
Theorem X4_builtin_keys_always_sort (qs : QuerySet) (sort_key : string)
    (reverse : bool) :
  is_valid_sort_option SORT_OPTIONS sort_key = true ->
  stop qs = None -> annotations qs = [] ->
  exists sorted out,
    apply_sorting SORT_OPTIONS qs sort_key reverse = Ok sorted
    /\ rows sorted = Ok out
    /\ Permutation (selected qs) out.
Proof.
  unfold is_valid_sort_option. intros Hv Hs Ha.
  destruct (lookup sort_key SORT_OPTIONS) as [o|] eqn:Ho; [|discriminate].
  destruct (builtin_fields_resolve _ _ Ho) as [Hcol|Hcalc].
  - destruct (lookup (field o) columns) as [f|] eqn:Hf; [|contradiction].
    destruct (apply_sorting_stored SORT_OPTIONS qs sort_key reverse o f Ho Hf)
      as (sorted & Happly & Hrows); [now rewrite Ha | exact Hs |].
    exists sorted, (ordered_by f reverse (selected qs)).
    repeat split; try assumption. apply ordered_by_perm.
  - destruct (calculated_annotation (field o)) as [[name e]|] eqn:Hc;
      [|contradiction].
    destruct (apply_sorting_calculated SORT_OPTIONS qs sort_key reverse o name e
                _ Ho Hc
                (total_as_function e (calculated_annotation_total _ _ _ Hc)) Hs)
      as (sorted & Happly & Hrows).
    eexists; eexists. split; [exact Happly|]. split; [exact Hrows|].
    apply ordered_by_perm.
Qed.

Lemma X4_witness :
  exists sorted out,
    apply_sorting SORT_OPTIONS (objects league) "clean_sheets" false = Ok sorted
    /\ rows sorted = Ok out
    /\ Permutation (selected (objects league)) out.
Proof.
  apply (X4_builtin_keys_always_sort (objects league) "clean_sheets" false);
    reflexivity.
Defined.

Lemma order_by_not_ValueError (terms : list string) (qs : QuerySet)
    (msg : string) :
  qs_order_by terms qs <> Raise (ValueError msg).
Proof.
  unfold qs_order_by. destruct (stop qs); [discriminate|].
  destruct (List.find _ terms); discriminate.
Qed.

(** X5. [apply_sorting] raises ValueError exactly when the key is not
    registered, whatever the query (sliced or not, annotated or not).
    For a key that is not registered the error names the key and nothing
    is asked of the query; for a registered key the call may still be
    refused by the store, but never with ValueError. *)
Theorem X5_apply_sorting_failures (opts : list (string * SortOption))
    (qs : QuerySet) (sort_key : string) (reverse : bool) :
  (is_valid_sort_option opts sort_key = false ->
   apply_sorting opts qs sort_key reverse
   = Raise (ValueError ("Invalid sort option: " ++ sort_key)%string))
  /\ (is_valid_sort_option opts sort_key = true ->
      forall msg,
        apply_sorting opts qs sort_key reverse <> Raise (ValueError msg)).
Proof.
  split.
  - intros H. unfold apply_sorting. now rewrite H.
  - intros H msg. unfold apply_sorting, get_sort_field. rewrite H.
    cbn [negb]. unfold is_valid_sort_option in H.
    destruct (lookup sort_key opts) as [o|]; [|discriminate].
    cbn [rbind].
    destruct (existsb (String.eqb (field o)) calculated_fields).
    + unfold _apply_calculated_sort.
      destruct (calculated_annotation (field o)) as [[name e]|];
        destruct reverse; apply order_by_not_ValueError.
    + destruct reverse; apply order_by_not_ValueError.
Qed.

Lemma X5_witness :
  apply_sorting SORT_OPTIONS (objects league) "pace" true
  = Raise (ValueError "Invalid sort option: pace")
  /\ apply_sorting (add_sort_option SORT_OPTIONS "pace" "Pace" "pace" "Speed"
                      "physical")
       (objects league) "pace" true
     <> Raise (ValueError "Invalid sort option: pace").
Proof.
  split.
  - apply (X5_apply_sorting_failures SORT_OPTIONS (objects league) "pace" true).
    reflexivity.
  - apply (X5_apply_sorting_failures
             (add_sort_option SORT_OPTIONS "pace" "Pace" "pace" "Speed"
                "physical")
             (objects league) "pace" true).
    reflexivity.
Defined.

(** ** Categories *)

Lemma get_categories_in (opts : list (string * SortOption)) (c : string) :
  In c (get_categories opts)
  <-> exists k o, In (k, o) opts /\ category o = c.
Proof.
  unfold get_categories. rewrite nodup_In, in_map_iff. split.
  - intros ([k o] & <- & Hin). now exists k, o.
  - intros (k & o & Hin & <-). now exists (k, o).
Qed.

Lemma get_sort_options_in (opts : list (string * SortOption)) (c : string)
    (k : string) (o : SortOption) :
  c <> EmptyString ->
  In (k, o) (get_sort_options opts (Some c))
  <-> In (k, o) opts /\ category o = c.
Proof.
  intros Hc. unfold get_sort_options. destruct c as [|a c]; [contradiction|].
  rewrite filter_In. simpl. now rewrite String.eqb_eq.
Qed.

(** X6. [sort_options_by_category] makes one group per category in use,
    each category once.  A group with a non-empty name holds exactly the
    options of that category, so it is not empty, and every option of
    the registry is in the group of its category.  A category whose name
    is the empty string is the exception: [get_sort_options] reads it as
    no filter, and its group is the whole registry. *)
Theorem X6_groups_by_category (opts : list (string * SortOption)) :
  NoDup (map fst (Views.sort_options_by_category opts))
  /\ (forall c, In c (map fst (Views.sort_options_by_category opts))
                <-> exists k o, In (k, o) opts /\ category o = c)
  /\ (forall c g, In (c, g) (Views.sort_options_by_category opts) ->
        c <> EmptyString ->
        g <> []
        /\ forall k o, In (k, o) g <-> In (k, o) opts /\ category o = c)
  /\ (forall g, In (EmptyString, g) (Views.sort_options_by_category opts) ->
        g = opts)
  /\ (forall k o, In (k, o) opts -> category o <> EmptyString ->
        exists g, In (category o, g) (Views.sort_options_by_category opts)
                  /\ In (k, o) g).
Proof.
  unfold Views.sort_options_by_category.
  assert (Hfst : map fst
                   (map (fun category => (category,
                                          get_sort_options opts (Some category)))
                      (get_categories opts))
                 = get_categories opts).
  { rewrite map_map. simpl. apply map_id. }
  rewrite Hfst. split; [apply NoDup_nodup|].
  split; [apply get_categories_in|].
  split; [|split].
  - intros c g Hin Hc. apply in_map_iff in Hin.
    destruct Hin as (c' & [= -> <-] & Hcat).
    split.
    + apply get_categories_in in Hcat. destruct Hcat as (k & o & Hin & Ho).
      intros E.
      assert (H : In (k, o) (get_sort_options opts (Some c)))
        by (apply get_sort_options_in; auto).
      unfold get_sort_options in H, E. rewrite E in H. exact H.
    + intros k o. now apply get_sort_options_in.
  - intros g Hin. apply in_map_iff in Hin.
    destruct Hin as (c' & [= -> <-] & _). reflexivity.
  - intros k o Hin Hc. exists (get_sort_options opts (Some (category o))).
    split.
    + apply in_map_iff. exists (category o). split; [reflexivity|].
      apply get_categories_in. now exists k, o.
    + apply get_sort_options_in; auto.
Qed.

Lemma X6_witness :
  exists g,
    In ("goalkeeper", g) (Views.sort_options_by_category SORT_OPTIONS)
    /\ g <> [].
Proof.
  destruct (X6_groups_by_category SORT_OPTIONS) as (_ & Hnames & Hgroup & _).
  assert (Hin : In "goalkeeper"
                  (map fst (Views.sort_options_by_category SORT_OPTIONS))).
  { apply Hnames.
    exists "save_percentage",
      (mkSortOption "Save %" "save_percentage"
         "Save percentage (goalkeepers only)" "goalkeeper").
    split; [|reflexivity]. simpl. tauto. }
  apply in_map_iff in Hin. destruct Hin as ([c g] & Hc & Hin).
  simpl in Hc. subst c. exists g. split; [exact Hin|].
  apply (Hgroup "goalkeeper" g Hin). discriminate.
Defined.

Lemma append_item_lookup (cat : string) (item : Views.Item)
    (categories : list (string * list Views.Item)) (c : string) :
  lookup c (Views.append_item cat item categories)
  = if String.eqb c cat
    then Some (match lookup cat categories with
               | Some items => items ++ [item]
               | None => [item]
               end)
    else lookup c categories.
Proof.
  induction categories as [|[c' items] rest IH]; simpl.
  - destruct (String.eqb c cat); reflexivity.
  - destruct (String.eqb_spec cat c') as [->|Hcat]; simpl.
    + destruct (String.eqb_spec c c'); reflexivity.
    + rewrite IH. destruct (String.eqb_spec c c') as [->|Hc].
      * destruct (String.eqb_spec c' cat); [congruence | reflexivity].
      * reflexivity.
Qed.

Lemma fold_group_lookup (options : list (string * SortOption))
    (acc : list (string * list Views.Item)) (c : string) :
  lookup c
    (fold_left
       (fun categories kv =>
          Views.append_item (category (snd kv)) (item_of kv) categories)
       options acc)
  = match lookup c acc, map item_of (of_category c options) with
    | None, [] => None
    | None, l => Some l
    | Some items, l => Some (items ++ l)
    end.
Proof.
  revert acc. induction options as [|kv options IH]; intros acc; simpl.
  - destruct (lookup c acc); [now rewrite app_nil_r | reflexivity].
  - rewrite IH, append_item_lookup. unfold of_category in *.
    rewrite (String.eqb_sym c (category (snd kv))).
    destruct (String.eqb_spec (category (snd kv)) c) as [->|Hc]; simpl.
    + destruct (lookup c acc) as [items|]; [now rewrite <- app_assoc | reflexivity].
    + reflexivity.
Qed.

Lemma of_category_twice (c c' : string) (options : list (string * SortOption)) :
  c' <> c -> of_category c' (of_category c options) = [].
Proof.
  intros Hc. unfold of_category.
  induction options as [|kv options IH]; simpl; [reflexivity|].
  destruct (String.eqb_spec (category (snd kv)) c) as [E|E]; [|exact IH].
  simpl. destruct (String.eqb_spec (category (snd kv)) c'); [congruence | exact IH].
Qed.

(** X7. The [sort_options] action groups the options it lists by category:
    the group of a category holds the items of exactly the listed
    options of that category, in registry order, and a category without
    listed options has no group.  With a non-empty category parameter
    only that category can have a group, while the list of available
    categories is still that of the whole registry. *)
Theorem X7_sort_options_groups (opts : list (string * SortOption))
    (category_param : option string) :
  snd (fst (Views.sort_options opts category_param))
  = get_sort_options opts category_param
  /\ snd (Views.sort_options opts category_param) = get_categories opts
  /\ (forall c,
        lookup c (fst (fst (Views.sort_options opts category_param)))
        = match of_category c (get_sort_options opts category_param) with
          | [] => None
          | l => Some (map item_of l)
          end)
  /\ (forall c c',
        category_param = Some c -> c <> EmptyString -> c' <> c ->
        lookup c' (fst (fst (Views.sort_options opts category_param))) = None).
Proof.
  assert (Hgroup : forall options c,
             lookup c (Views.group_by_category options)
             = match of_category c options with
               | [] => None
               | l => Some (map item_of l)
               end).
  { intros options c. unfold Views.group_by_category.
    change (fun categories kv =>
              Views.append_item (category (snd kv))
                (Views.mkItem (fst kv) (display_name (snd kv))
                   (description (snd kv))) categories)
      with (fun categories kv =>
              Views.append_item (category (snd kv)) (item_of kv) categories).
    rewrite fold_group_lookup. simpl.
    destruct (of_category c options); reflexivity. }
  unfold Views.sort_options. simpl.
  split; [reflexivity|]. split; [reflexivity|]. split.
  - intros c. apply Hgroup.
  - intros c c' -> Hc Hc'. rewrite Hgroup.
    destruct c as [|a c]; [contradiction|]. simpl.
    change (List.filter
              (fun kv : string * SortOption =>
                 String.eqb (category (snd kv)) (String a c)) opts)
      with (of_category (String a c) opts).
    now rewrite of_category_twice.
Qed.

Lemma X7_witness :
  lookup "attacking"
    (fst (fst (Views.sort_options SORT_OPTIONS (Some "goalkeeper"))))
  = None.
Proof.
  destruct (X7_sort_options_groups SORT_OPTIONS (Some "goalkeeper"))
    as (_ & _ & _ & H).
  apply (H "goalkeeper"); [reflexivity | discriminate | discriminate].
Defined.

(* ================================================================== *)
(** * Further properties of the model *)

(** ** Rounding *)

Lemma Int_part_bounds (x : R) : IZR (Int_part x) <= x < IZR (Int_part x) + 1.
Proof. destruct (base_Int_part x). lra. Qed.

Lemma Int_part_unique (x : R) (n : Z) :
  IZR n <= x < IZR n + 1 -> Int_part x = n.
Proof.
  intros [H1 H2]. destruct (Int_part_bounds x) as [H3 H4].
  assert (Ha : (n < Int_part x + 1)%Z).
  { apply lt_IZR. rewrite plus_IZR. simpl. lra. }
  assert (Hb : (Int_part x < n + 1)%Z).
  { apply lt_IZR. rewrite plus_IZR. simpl. lra. }
  lia.
Qed.

Lemma Int_part_mono (x y : R) : x <= y -> (Int_part x <= Int_part y)%Z.
Proof.
  intros H. destruct (Int_part_bounds x) as [H1 _].
  destruct (Int_part_bounds y) as [_ H2].
  assert (Ha : (Int_part x < Int_part y + 1)%Z).
  { apply lt_IZR. rewrite plus_IZR. simpl. lra. }
  lia.
Qed.

Lemma frac_part_eq (x : R) : frac_part x = x - IZR (Int_part x).
Proof. reflexivity. Qed.

Lemma round_half_even_cases (x : R) :
  (round_half_even x = Int_part x /\ frac_part x <= 1 / 2)
  \/ (round_half_even x = (Int_part x + 1)%Z /\ 1 / 2 <= frac_part x).
Proof.
  unfold round_half_even.
  destruct (flt (frac_part x) (1 / 2)) eqn:E1.
  - left. apply flt_true in E1. split; [reflexivity | lra].
  - apply flt_false in E1.
    destruct (flt (1 / 2) (frac_part x)) eqn:E2.
    + right. split; [reflexivity | exact E1].
    + apply flt_false in E2.
      destruct (Z.even (Int_part x)); [left | right]; split;
        solve [reflexivity | assumption].
Qed.

Lemma round_half_even_mono (x y : R) :
  x <= y -> (round_half_even x <= round_half_even y)%Z.
Proof.
  intros Hxy. pose proof (Int_part_mono x y Hxy) as Hi.
  destruct (Z.eq_dec (Int_part x) (Int_part y)) as [E|E].
  - (* same integer part: compare the fractional parts *)
    assert (Hf : frac_part x <= frac_part y)
      by (rewrite !frac_part_eq, E; lra).
    unfold round_half_even. rewrite E.
    destruct (flt (frac_part y) (1 / 2)) eqn:Y1.
    + apply flt_true in Y1.
      assert (X1 : flt (frac_part x) (1 / 2) = true) by (apply flt_true; lra).
      rewrite X1. lia.
    + apply flt_false in Y1.
      destruct (flt (1 / 2) (frac_part y)) eqn:Y2.
      * destruct (flt (frac_part x) (1 / 2)); [lia|].
        destruct (flt (1 / 2) (frac_part x)); [lia|].
        destruct (Z.even (Int_part y)); lia.
      * apply flt_false in Y2.
        destruct (flt (frac_part x) (1 / 2)) eqn:X1;
          [destruct (Z.even (Int_part y)); lia|].
        apply flt_false in X1.
        assert (X2 : flt (1 / 2) (frac_part x) = false)
          by (apply flt_false; lra).
        rewrite X2. lia.
  - destruct (round_half_even_cases x) as [[-> _]|[-> _]];
      destruct (round_half_even_cases y) as [[-> _]|[-> _]]; lia.
Qed.

Lemma pow10_pos (n : nat) : 0 < 10 ^ n.
Proof. apply pow_lt. lra. Qed.

Lemma round_mono (x y : R) (n : nat) : x <= y -> round x n <= round y n.
Proof.
  intros H. pose proof (pow10_pos n) as Hp. unfold round.
  apply Rmult_le_compat_r; [apply Rlt_le, Rinv_0_lt_compat, Hp|].
  apply IZR_le, round_half_even_mono.
  apply Rmult_le_compat_r; lra.
Qed.

Lemma round_half_even_IZR (z : Z) : round_half_even (IZR z) = z.
Proof.
  assert (Hi : Int_part (IZR z) = z) by (apply Int_part_unique; lra).
  unfold round_half_even. rewrite frac_part_eq, Hi.
  assert (E : flt (IZR z - IZR z) (1 / 2) = true) by (apply flt_true; lra).
  now rewrite E.
Qed.

Lemma round_zero (n : nat) : round 0 n = 0.
Proof.
  unfold round. rewrite Rmult_0_l. rewrite (round_half_even_IZR 0).
  pose proof (pow10_pos n). field. lra.
Qed.

(** ** Derived metrics as shown and as sorted *)

Lemma per_90_property (n : Player -> Z) (p : Player) :
  (if flt 0 (minutes_per_90 p) then
     q <~ truediv (IZR (n p)) (minutes_per_90 p) ;; Ok (round q 2)
   else Ok 0)
  = Ok (shown_per_90 n p).
Proof.
  unfold shown_per_90, per_90. destruct (flt 0 (minutes_per_90 p)) eqn:E.
  - apply flt_true in E. rewrite truediv_ok by lra. reflexivity.
  - now rewrite round_zero.
Qed.

Lemma ordered_by_per_90_shown (n : Player -> Z) (reverse : bool)
    (l : list Player) :
  Sorted (fun a b => if reverse then shown_per_90 n b <= shown_per_90 n a
                     else shown_per_90 n a <= shown_per_90 n b)
         (ordered_by (fun p => VFloat (per_90 n p)) reverse l).
Proof.
  eapply Sorted_ind with
    (P := fun l => Sorted (fun a b =>
                             if reverse then shown_per_90 n b <= shown_per_90 n a
                             else shown_per_90 n a <= shown_per_90 n b) l);
    [constructor | | apply (ordered_by_sorted (fun p => VFloat (per_90 n p)))].
  intros a l0 _ IH Hhd. constructor; [exact IH|].
  destruct Hhd as [|b l' Hb]; constructor.
  destruct reverse; simpl in Hb; apply flt_false in Hb;
    now apply round_mono.
Qed.

(** X9. The store sorts by the exact ratio while the model property shows
    the ratio rounded to two decimals; rounding keeps the order.  So the
    records that [apply_sorting] returns for a per-90 key, on a query
    that has not been sliced, show values of that property that never
    increase (descending) or never decrease (ascending) down the list. *)
Theorem X9_per_90_order_matches_shown_values (qs : QuerySet)
    (sort_key : string) (reverse : bool) (n : Player -> Z) :
  per_90_column sort_key = Some n ->
  stop qs = None ->
  exists sorted out,
    apply_sorting SORT_OPTIONS qs sort_key reverse = Ok sorted
    /\ rows sorted = Ok out
    /\ Sorted (fun a b => if reverse then shown_per_90 n b <= shown_per_90 n a
                          else shown_per_90 n a <= shown_per_90 n b) out.
Proof.
  intros Hn Hs.
  destruct (per_90_column_annotation _ _ Hn) as [Hsome Hann].
  destruct (lookup sort_key SORT_OPTIONS) as [o|] eqn:Ho; [|contradiction].
  destruct (Hann o eq_refl) as [name Hc].
  destruct (apply_sorting_calculated SORT_OPTIONS qs sort_key reverse o name _
              (fun p => VFloat (per_90 n p)) Ho Hc
              (guarded_ratio_per_90 n) Hs)
    as (sorted & Happly & Hrows).
  exists sorted, (ordered_by (fun p => VFloat (per_90 n p)) reverse (selected qs)).
  split; [exact Happly|]. split; [exact Hrows|].
  apply ordered_by_per_90_shown.
Qed.

Lemma X9_witness :
  exists sorted out,
    apply_sorting SORT_OPTIONS (objects league) "assists_per_90" true = Ok sorted
    /\ rows sorted = Ok out
    /\ Sorted (fun a b => shown_per_90 assists b <= shown_per_90 assists a) out.
Proof.
  apply (X9_per_90_order_matches_shown_values (objects league)
           "assists_per_90" true assists); reflexivity.
Defined.

(** X10. [get_statistics_vector] never raises and always returns ten
    numbers, whatever the record holds.  For a record whose
    minutes_per_90 is not positive, the two scoring dimensions and the
    four per-90 dimensions (tackles, interceptions, progressive passes
    and carries) are 0, and only the three percentages and the age can
    contribute. *)
Theorem X10_vector_without_minutes (p : Player) :
  (exists v, get_statistics_vector p = Ok v /\ List.length v = 10%nat)
  /\ (minutes_per_90 p <= 0 ->
      exists shot pass dribble,
        get_statistics_vector p
        = Ok [0; 0; shot; pass; dribble; 0; 0; 0; 0; Py.min (age p / 40) 1]).
Proof.
  split.
  - exists (statistics_vector p). split; [apply get_statistics_vector_total|].
    pose proof (get_statistics_vector_total p) as H.
    unfold get_statistics_vector in H.
    repeat match type of H with
           | rbind ?m _ = _ => destruct m; simpl in H; [|discriminate H]
           end.
    injection H as <-. reflexivity.
  - intros Hm.
    assert (E : flt 0 (minutes_per_90 p) = false) by (apply flt_false; exact Hm).
    unfold get_statistics_vector, goals_per_90, assists_per_90, per_90_capped,
      capped_rate.
    rewrite E. simpl. rewrite !flt_irrefl. simpl.
    destruct (fraction_of_100_total (shots_on_target_percentage p)) as [v3 ->].
    destruct (fraction_of_100_total (pass_completion_percentage p)) as [v4 ->].
    destruct (fraction_of_100_total (dribble_success_percentage p)) as [v5 ->].
    simpl. rewrite truediv_ok by lra. simpl. eauto.
Qed.

Lemma X10_witness :
  exists shot pass dribble,
    get_statistics_vector carl
    = Ok [0; 0; shot; pass; dribble; 0; 0; 0; 0; Py.min (age carl / 40) 1].
Proof.
  destruct (X10_vector_without_minutes carl) as [_ H].
  apply H. simpl. lra.
Defined.

(* ================================================================== *)
(** * Further properties of the similarity functions *)

(** ** Cosine similarity *)

Lemma dot_comm (v1 v2 : list R) : dot v1 v2 = dot v2 v1.
Proof.
  revert v2. induction v1 as [|x v1 IH]; intros [|y v2]; simpl;
    try reflexivity.
  rewrite IH. ring.
Qed.

(** X11. Cosine similarity is symmetric in its two vectors. *)
Theorem X11_cosine_symmetric (v1 v2 : list R) :
  _cosine_similarity v1 v2 = _cosine_similarity v2 v1.
Proof.
  unfold _cosine_similarity, np_dot.
  rewrite (orb_comm (np_all_zero v1)), (Nat.eqb_sym (List.length v1)),
    (dot_comm v1 v2).
  destruct (np_all_zero v2 || np_all_zero v1); [reflexivity|].
  destruct (Nat.eqb (List.length v2) (List.length v1)); [|reflexivity].
  simpl.
  rewrite (orb_comm (feq (np_linalg_norm v1) 0)),
    (Rmult_comm (np_linalg_norm v1)).
  reflexivity.
Qed.

Lemma not_all_zero_exists (v : list R) :
  np_all_zero v = false -> Exists (fun x => x <> 0) v.
Proof.
  unfold np_all_zero. induction v as [|x v IH]; simpl; [discriminate|].
  destruct (feq x 0) eqn:E; simpl.
  - intros H. right. now apply IH.
  - intros _. left. now apply feq_false in E.
Qed.

(** X12. The edge cases of cosine similarity: the result is 0, and
    nothing is raised, when either vector is empty or holds only zeros,
    and when the two vectors differ in length (the error of NumPy is
    caught).  A result other than 0 therefore means two vectors of the
    same length, each with a non-zero entry. *)
Theorem X12_cosine_edge_cases (v1 v2 : list R) :
  (np_all_zero v1 = true \/ np_all_zero v2 = true
   \/ List.length v1 <> List.length v2 ->
   _cosine_similarity v1 v2 = 0)
  /\ (_cosine_similarity v1 v2 <> 0 ->
      List.length v1 = List.length v2
      /\ Exists (fun x => x <> 0) v1 /\ Exists (fun x => x <> 0) v2).
Proof.
  assert (Hzero : np_all_zero v1 = true \/ np_all_zero v2 = true
                  \/ List.length v1 <> List.length v2 ->
                  _cosine_similarity v1 v2 = 0).
  { intros [H|[H|H]]; unfold _cosine_similarity.
    - now rewrite H.
    - rewrite H, orb_true_r. reflexivity.
    - destruct (np_all_zero v1 || np_all_zero v2); [reflexivity|].
      unfold np_dot. apply Nat.eqb_neq in H. now rewrite H. }
  split; [exact Hzero|].
  intros Hne. split; [|split].
  - destruct (Nat.eq_dec (List.length v1) (List.length v2)) as [E|E];
      [exact E | exfalso; apply Hne, Hzero; auto].
  - apply not_all_zero_exists.
    destruct (np_all_zero v1) eqn:E; [exfalso; apply Hne, Hzero; auto|].
    reflexivity.
  - apply not_all_zero_exists.
    destruct (np_all_zero v2) eqn:E; [exfalso; apply Hne, Hzero; auto|].
    reflexivity.
Qed.

Lemma X12_witness : _cosine_similarity [1; 0] [1; 0; 0] = 0.
Proof.
  destruct (X12_cosine_edge_cases [1; 0] [1; 0; 0]) as (Hzero & _).
  apply Hzero. right; right. simpl. lia.
Defined.

(** ** Text similarity *)

Lemma set_of_nodup (words : list string) : NoDup (set_of words).
Proof.
  induction words as [|w words IH]; simpl; [constructor|].
  now apply set_add_nodup.
Qed.

Lemma set_of_in (w : string) (words : list string) :
  In w (set_of words) <-> In w words.
Proof.
  induction words as [|w' words IH]; simpl; [tauto|].
  rewrite set_add_iff, IH. intuition congruence.
Qed.

Lemma same_elements_length (l l' : list string) :
  NoDup l -> NoDup l' -> (forall w, In w l <-> In w l') ->
  List.length l = List.length l'.
Proof.
  intros H1 H2 H. apply Permutation_length. now apply NoDup_Permutation.
Qed.

Lemma text_similarity_value (text1 text2 : string) :
  _text_similarity text1 text2
  = if is_empty (tokens text1) || is_empty (tokens text2) then 0
    else INR (List.length (set_inter string_dec (tokens text1) (tokens text2)))
         / INR (List.length (set_union string_dec (tokens text1) (tokens text2))).
Proof.
  unfold _text_similarity. fold (tokens text1). fold (tokens text2).
  destruct (is_empty (tokens text1) || is_empty (tokens text2)) eqn:E;
    [reflexivity|].
  apply orb_false_iff in E. destruct E as [_ E2].
  rewrite truediv_ok; [reflexivity|].
  apply not_0_INR. intros H. apply length_zero_iff_nil in H.
  destruct (tokens text2) as [|w ws]; [discriminate E2|].
  simpl in H. now apply set_add_not_empty in H.
Qed.

Lemma lower_ascii_idempotent (c : ascii) :
  lower_ascii (lower_ascii c) = lower_ascii c.
Proof. destruct c as [[] [] [] [] [] [] [] []]; reflexivity. Qed.

Lemma lower_idempotent (s : string) : lower (lower s) = lower s.
Proof.
  induction s as [|c s IH]; simpl; [reflexivity|].
  now rewrite lower_ascii_idempotent, IH.
Qed.

Lemma is_empty_nil {A} (l : list A) : is_empty l = true <-> l = [].
Proof. destruct l; simpl; split; congruence. Qed.

Lemma text_similarity_unit (text1 text2 : string) :
  0 <= _text_similarity text1 text2 <= 1.
Proof.
  pose proof (set_of_nodup (split (lower text1))) as N1.
  pose proof (set_of_nodup (split (lower text2))) as N2.
  fold (tokens text1) in N1. fold (tokens text2) in N2.
  assert (Hinter : NoDup (set_inter string_dec (tokens text1) (tokens text2)))
    by now apply set_inter_nodup.
  rewrite text_similarity_value.
  destruct (is_empty (tokens text1) || is_empty (tokens text2)) eqn:E;
    [lra|].
  apply orb_false_iff in E. destruct E as [_ E2].
  assert (Hlen : (List.length
                    (set_inter string_dec (tokens text1) (tokens text2))
                  <= List.length
                       (set_union string_dec (tokens text1) (tokens text2)))%nat).
  { apply NoDup_incl_length; [exact Hinter|].
    intros w Hw. apply set_inter_iff in Hw. apply set_union_iff. tauto. }
  assert (Hpos : (0 < List.length
                        (set_union string_dec (tokens text1) (tokens text2)))%nat).
  { destruct (tokens text2) as [|w ws]; [discriminate E2|].
    destruct (set_union string_dec (tokens text1) (w :: ws)) eqn:Eu;
      [|simpl; lia].
    simpl in Eu. now apply set_add_not_empty in Eu. }
  apply le_INR in Hlen. apply lt_INR in Hpos. simpl in Hpos.
  pose proof (pos_INR (List.length
                         (set_inter string_dec (tokens text1) (tokens text2)))).
  split.
  - apply Rmult_le_pos; [assumption|]. apply Rlt_le, Rinv_0_lt_compat, Hpos.
  - apply Rmult_le_reg_r with
      (r := INR (List.length
                   (set_union string_dec (tokens text1) (tokens text2))));
      [exact Hpos|].
    unfold Rdiv. rewrite Rmult_assoc, Rinv_l by lra. lra.
Qed.

(** X13. The text similarity is symmetric and lies between 0 and 1.  It is
    0 when either text has no word and when the two texts share no word; it
    is 1 when the two texts have the same words (in any order, any number
    of times) and at least one; and it does not change when a text is put
    in lower case. *)
Theorem X13_text_similarity (text1 text2 : string) :
  _text_similarity text1 text2 = _text_similarity text2 text1
  /\ 0 <= _text_similarity text1 text2 <= 1
  /\ (tokens text1 = [] \/ tokens text2 = [] ->
      _text_similarity text1 text2 = 0)
  /\ ((forall w, In w (tokens text1) -> ~ In w (tokens text2)) ->
      _text_similarity text1 text2 = 0)
  /\ (tokens text1 <> [] ->
      (forall w, In w (tokens text1) <-> In w (tokens text2)) ->
      _text_similarity text1 text2 = 1)
  /\ _text_similarity (lower text1) text2 = _text_similarity text1 text2.
Proof.
  pose proof (set_of_nodup (split (lower text1))) as N1.
  pose proof (set_of_nodup (split (lower text2))) as N2.
  fold (tokens text1) in N1. fold (tokens text2) in N2.
  assert (Hinter : NoDup (set_inter string_dec (tokens text1) (tokens text2)))
    by now apply set_inter_nodup.
  assert (Hunion : NoDup (set_union string_dec (tokens text1) (tokens text2)))
    by now apply set_union_nodup.
  split; [|split; [|split; [|split; [|split]]]].
  - rewrite !text_similarity_value.
    rewrite (orb_comm (is_empty (tokens text1))).
    destruct (is_empty (tokens text2) || is_empty (tokens text1));
      [reflexivity|].
    f_equal; f_equal; apply same_elements_length;
      try (now apply set_inter_nodup); try (now apply set_union_nodup);
      intros w; rewrite ?set_inter_iff, ?set_union_iff; tauto.
  - apply text_similarity_unit.
  - intros H. rewrite text_similarity_value.
    destruct H as [H|H]; rewrite H; simpl; [reflexivity|].
    now rewrite orb_true_r.
  - intros H. rewrite text_similarity_value.
    destruct (is_empty (tokens text1) || is_empty (tokens text2));
      [reflexivity|].
    assert (E : set_inter string_dec (tokens text1) (tokens text2) = []).
    { destruct (set_inter string_dec (tokens text1) (tokens text2)) as [|w l] eqn:E;
        [reflexivity|].
      assert (Hw : In w (set_inter string_dec (tokens text1) (tokens text2)))
        by (rewrite E; now left).
      apply set_inter_iff in Hw. destruct Hw as [H1 H2].
      now elim (H w H1). }
    rewrite E. simpl. unfold Rdiv. apply Rmult_0_l.
  - intros Hne Hsame. rewrite text_similarity_value.
    assert (E1 : is_empty (tokens text1) = false).
    { destruct (tokens text1); [contradiction | reflexivity]. }
    assert (E2 : is_empty (tokens text2) = false).
    { destruct (tokens text1) as [|w ws]; [contradiction|].
      assert (Hw : In w (tokens text2)) by (apply Hsame; now left).
      destruct (tokens text2); [contradiction | reflexivity]. }
    rewrite E1, E2. simpl.
    assert (Hl : List.length (set_inter string_dec (tokens text1) (tokens text2))
                 = List.length
                     (set_union string_dec (tokens text1) (tokens text2))).
    { apply same_elements_length; [exact Hinter | exact Hunion |].
      intros w. rewrite set_inter_iff, set_union_iff.
      specialize (Hsame w). tauto. }
    rewrite Hl. unfold Rdiv. apply Rinv_r. apply not_0_INR.
    intros H0. rewrite <- Hl in H0. apply length_zero_iff_nil in H0.
    destruct (tokens text1) as [|w ws]; [contradiction|].
    assert (Hw : In w (set_inter string_dec (w :: ws) (tokens text2))).
    { apply set_inter_iff. split; [now left | apply Hsame; now left]. }
    rewrite H0 in Hw. exact Hw.
  - rewrite !text_similarity_value. unfold tokens at 1 3 5.
    rewrite lower_idempotent. reflexivity.
Qed.

Lemma X13_witness :
  _text_similarity "Young  talent" "talent young YOUNG" = 1.
Proof.
  destruct (X13_text_similarity "Young  talent" "talent young YOUNG")
    as (_ & _ & _ & _ & Hsame & _).
  apply Hsame.
  - discriminate.
  - intros w. simpl. tauto.
Defined.

(* ================================================================== *)
(** * Further properties of the strategies *)

(** X14. When the round trip to the store succeeds, the NLP strategy
    returns the slice up to [limit] of a list that rearranges the
    candidates whose text similarity reaches the threshold, in descending
    order of score; candidates with equal scores stay in the order in
    which the store returned them. *)
Theorem X14_nlp_ranking self db player limit (s : Faults) :
  next_fails s = false ->
  exists full,
    _find_nlp_similarities self db player limit s
    = (Ok (Py.slice_to full limit), tl s)
    /\ ((0 <= limit)%Z -> Py.slice_to full limit = firstn (Z.to_nat limit) full)
    /\ Permutation full (nlp_kept self db player)
    /\ Sorted (fun a b => score_of b <= score_of a) full
    /\ (forall sc,
          List.filter (fun q => feq (score_of q) sc) full
          = List.filter (fun q => feq (score_of q) sc) (nlp_kept self db player)).
Proof.
  intros Hs.
  exists (shortlist (similarity_threshold self) (nlp_score_of player)
            (Meta_ordered (selected (nlp_candidates db player)))).
  split; [now rewrite nlp_run, Hs, ranked_shortlist|].
  split; [apply slice_to_firstn|].
  split.
  { unfold shortlist, nlp_kept.
    apply Permutation_map, Permutation_sym, sort_reverse_perm. }
  split; [apply Sorted_by_score, kept_scores|].
  apply shortlist_stable.
Qed.

Lemma X14_witness :
  exists full,
    _find_nlp_similarities example_service league target 10 []
    = (Ok (Py.slice_to full 10), tl [])
    /\ Permutation full (nlp_kept example_service league target).
Proof.
  destruct (X14_nlp_ranking example_service league target 10 [])
    as (full & Hrun & _ & Hperm & _); [reflexivity|].
  exists full. split; assumption.
Defined.

(** ** The shape of every result *)

Lemma entries_Forall (EP : Entry -> Prop) (stat nlp : list Player) :
  (forall p, In p stat -> EP (mkEntry p (similarity_score p) (Some 0))) ->
  (forall p, In p nlp -> EP (mkEntry p (Some 0) (similarity_score p))) ->
  (forall p data, In p nlp -> EP data ->
     EP (mkEntry (player_of data) (statistical_score data) (similarity_score p))) ->
  Forall (fun item => EP (snd item)) (entries stat nlp).
Proof.
  intros Hs Hn Hboth. unfold entries.
  assert (H1 : forall l d,
             (forall p, In p l -> In p stat) ->
             Forall (fun item => EP (snd item)) d ->
             Forall (fun item => EP (snd item)) (fold_left add_statistical l d)).
  { induction l as [|p l IH]; intros d Hl Hd; simpl; [exact Hd|].
    apply IH; [intros q Hq; apply Hl; now right|].
    unfold add_statistical. apply dict_set_Forall; [|exact Hd].
    simpl. apply Hs, Hl. now left. }
  assert (H2 : forall l d,
             (forall p, In p l -> In p nlp) ->
             Forall (fun item => EP (snd item)) d ->
             Forall (fun item => EP (snd item)) (fold_left add_nlp l d)).
  { induction l as [|p l IH]; intros d Hl Hd; simpl; [exact Hd|].
    apply IH; [intros q Hq; apply Hl; now right|].
    unfold add_nlp. destruct (dict_get (id p) d) as [data|] eqn:E.
    - apply dict_set_Forall; [|exact Hd]. simpl.
      apply Hboth; [apply Hl; now left|].
      apply dict_get_In in E. rewrite Forall_forall in Hd.
      exact (Hd _ E).
    - apply dict_set_Forall; [|exact Hd]. simpl. apply Hn, Hl. now left. }
  apply H2; [auto|]. apply H1; [auto | constructor].
Qed.

Lemma hybrid_shape self db player limit (s : Faults) :
  exists stat nlp s1 s2,
    _find_statistical_similarities self db player (limit * 2) s = (Ok stat, s1)
    /\ _find_nlp_similarities self db player (limit * 2) s1 = (Ok nlp, s2)
    /\ Forall (scored_other player) stat
    /\ Forall (scored_other player) nlp
    /\ _find_hybrid_similarities self db player limit s
       = (Ok (ranked limit (fused stat nlp)), s2).
Proof.
  destruct (statistical_scored_other self db player (limit * 2) s)
    as (stat & s1 & Hs & Hso).
  destruct (nlp_scored_other self db player (limit * 2) s1)
    as (nlp & s2 & Hn & Hno).
  exists stat, nlp, s1, s2. repeat split; try assumption.
  now apply (hybrid_run _ _ _ _ _ _ _ _ _ Hs Hso Hn Hno).
Qed.

Lemma ranked_length (limit : Z) (l : list (Player * R)) :
  (0 <= limit)%Z -> (List.length (ranked limit l) <= Z.to_nat limit)%nat.
Proof.
  intros H. unfold ranked. rewrite length_map, slice_to_firstn by exact H.
  apply firstn_le_length.
Qed.

Lemma fallback_length self db player limit (s s' : Faults) (l : list Player) :
  _fallback_similarity_search self db player limit s = (Ok l, s') ->
  (0 <= limit)%Z -> (List.length l <= Z.to_nat limit)%nat.
Proof.
  rewrite fallback_run. intros H Hl.
  destruct (limit <? 0)%Z; [injection H as <- _; simpl; lia|].
  destruct (next_fails s); [injection H as <- _; simpl; lia|].
  injection H as <- _. rewrite length_map. apply firstn_le_length.
Qed.

Lemma statistical_length self db player limit (s s' : Faults)
    (l : list Player) :
  _find_statistical_similarities self db player limit s = (Ok l, s') ->
  (0 <= limit)%Z -> (List.length l <= Z.to_nat limit)%nat.
Proof.
  rewrite statistical_run. destruct (next_fails s).
  - apply fallback_length.
  - intros [= <- _]. apply ranked_length.
Qed.

Lemma nlp_length self db player limit (s s' : Faults) (l : list Player) :
  _find_nlp_similarities self db player limit s = (Ok l, s') ->
  (0 <= limit)%Z -> (List.length l <= Z.to_nat limit)%nat.
Proof.
  rewrite nlp_run. destruct (next_fails s).
  - apply fallback_length.
  - intros [= <- _]. apply ranked_length.
Qed.

Lemma hybrid_length self db player limit (s s' : Faults) (l : list Player) :
  _find_hybrid_similarities self db player limit s = (Ok l, s') ->
  (0 <= limit)%Z -> (List.length l <= Z.to_nat limit)%nat.
Proof.
  destruct (hybrid_shape self db player limit s)
    as (stat & nlp & s1 & s2 & _ & _ & _ & _ & ->).
  intros [= <- _]. apply ranked_length.
Qed.

(** X15. For a limit that is not negative, [find_similar_players] returns
    at most [limit] records, whichever of the three methods is used and
    whatever the store does. *)
Theorem X15_at_most_limit_results self db player limit method (s : Faults) :
  (0 <= limit)%Z -> In method strategies ->
  exists l s',
    find_similar_players self db player limit method s = (Ok l, s')
    /\ (List.length l <= Z.to_nat limit)%nat.
Proof.
  intros Hl Hm.
  destruct (find_similar_valid self db player limit method s Hm)
    as (l & s' & E & _).
  exists l, s'. split; [exact E|].
  revert E. destruct Hm as [<-|[<-|[<-|[]]]]; unfold find_similar_players;
    simpl; intros E.
  - now apply (statistical_length _ _ _ _ _ _ _ E).
  - now apply (nlp_length _ _ _ _ _ _ _ E).
  - now apply (hybrid_length _ _ _ _ _ _ _ E).
Qed.

Lemma X15_witness :
  exists l s',
    find_similar_players example_service league target 1 "hybrid" [] = (Ok l, s')
    /\ (List.length l <= Z.to_nat 1)%nat.
Proof.
  apply (X15_at_most_limit_results example_service league target 1 "hybrid" []).
  - lia.
  - simpl. auto.
Defined.

Lemma set_similarity_score_twice (c : Player) (s h : R) :
  set_similarity_score (set_similarity_score c s) h = set_similarity_score c h.
Proof. reflexivity. Qed.

Lemma ranked_kept_from_table (db : list Player) (qs : QuerySet) (limit : Z)
    (threshold : R) (score : Player -> R) :
  table qs = db ->
  Forall (from_table db)
    (ranked limit (kept threshold score (Meta_ordered (selected qs)))).
Proof.
  intros Hdb. apply Forall_forall. intros q Hq.
  apply ranked_kept_in in Hq. destruct Hq as (c & Hc & _ & ->).
  apply (Permutation_in _ (Permutation_sym (Meta_ordered_perm _))) in Hc.
  unfold selected in Hc. apply filter_In in Hc. rewrite Hdb in Hc.
  exists c, (score c). tauto.
Qed.

Lemma fallback_from_table self db player limit (s s' : Faults)
    (l : list Player) :
  _fallback_similarity_search self db player limit s = (Ok l, s') ->
  Forall (from_table db) l.
Proof.
  rewrite fallback_run.
  destruct (limit <? 0)%Z; [intros [= <- _]; constructor|].
  destruct (next_fails s); [intros [= <- _]; constructor|].
  intros [= <- _]. apply Forall_forall. intros q Hq.
  apply in_map_iff in Hq. destruct Hq as (c & <- & Hc).
  apply firstn_incl in Hc.
  apply (Permutation_in _ (Permutation_sym (by_goals_assists_perm _))) in Hc.
  apply selected_fallback in Hc. exists c, (5 / 10). tauto.
Qed.

Lemma statistical_from_table self db player limit (s s' : Faults)
    (l : list Player) :
  _find_statistical_similarities self db player limit s = (Ok l, s') ->
  Forall (from_table db) l.
Proof.
  rewrite statistical_run. destruct (next_fails s).
  - apply fallback_from_table.
  - intros [= <- _]. now apply ranked_kept_from_table.
Qed.

Lemma nlp_from_table self db player limit (s s' : Faults) (l : list Player) :
  _find_nlp_similarities self db player limit s = (Ok l, s') ->
  Forall (from_table db) l.
Proof.
  rewrite nlp_run. destruct (next_fails s).
  - apply fallback_from_table.
  - intros [= <- _]. now apply ranked_kept_from_table.
Qed.

Lemma fused_in (limit : Z) (stat nlp : list Player) (q : Player) :
  In q (ranked limit (fused stat nlp)) ->
  exists item, In item (entries stat nlp)
               /\ q = set_similarity_score (player_of (snd item))
                        (fused_score (snd item)).
Proof.
  unfold ranked. intros Hq.
  apply in_map_iff in Hq. destruct Hq as ([q' sc] & <- & Hq).
  apply slice_to_incl in Hq. unfold sort_reverse in Hq.
  apply sort_by_in in Hq.
  unfold fused in Hq. apply in_map_iff in Hq.
  destruct Hq as (item & [= <- <-] & Hi). now exists item.
Qed.

Lemma fused_from_table (db : list Player) (limit : Z) (stat nlp : list Player) :
  Forall (from_table db) stat -> Forall (from_table db) nlp ->
  Forall (from_table db) (ranked limit (fused stat nlp)).
Proof.
  intros Hs Hn. rewrite Forall_forall in Hs, Hn.
  assert (He : Forall (fun item => from_table db (player_of (snd item)))
                 (entries stat nlp)).
  { apply (entries_Forall (fun e => from_table db (player_of e))); simpl; auto. }
  apply Forall_forall. intros q Hq. apply fused_in in Hq.
  destruct Hq as (item & Hi & ->).
  rewrite Forall_forall in He. destruct (He _ Hi) as (c & sc & Hc & ->).
  exists c, (fused_score (snd item)). split; [exact Hc | reflexivity].
Qed.

Lemma fused_ids_NoDup (player : Player) (limit : Z) (stat nlp : list Player) :
  Forall (scored_other player) stat -> Forall (scored_other player) nlp ->
  NoDup (map id (ranked limit (fused stat nlp))).
Proof.
  intros Hso Hno.
  pose proof (entries_ok player stat nlp Hso Hno) as Hok.
  unfold ranked. rewrite slice_to_map, slice_to_map. apply slice_to_NoDup.
  assert (Hids : Permutation
                   (map id (map fst (sort_reverse snd (fused stat nlp))))
                   (map fst (entries stat nlp))).
  { rewrite <- (sort_reverse_perm snd). unfold fused. rewrite !map_map. simpl.
    erewrite map_ext_in; [reflexivity|].
    intros item Hin. rewrite Forall_forall in Hok.
    destruct (Hok _ Hin) as [E _]. now rewrite E. }
  eapply Permutation_NoDup; [symmetry; exact Hids | apply entries_NoDup].
Qed.

(** X16. Whatever the method, the limit and the behaviour of the store,
    every record that [find_similar_players] returns is a record of the
    table with a score attached and nothing else changed; and when the
    ids of the table are distinct, no id is returned twice. *)
Theorem X16_results_come_from_the_table self db player limit method
    (s : Faults) :
  In method strategies ->
  exists l s',
    find_similar_players self db player limit method s = (Ok l, s')
    /\ Forall (from_table db) l
    /\ (NoDup (map id db) -> NoDup (map id l)).
Proof.
  intros Hm.
  destruct Hm as [<-|[<-|[<-|[]]]]; unfold find_similar_players; simpl.
  - destruct (statistical_scored_other self db player limit s)
      as (l & s' & E & _).
    exists l, s'. split; [exact E|]. split.
    + now apply (statistical_from_table _ _ _ _ _ _ _ E).
    + intros Hdb. now apply (statistical_ids_NoDup _ _ _ _ _ _ _ Hdb E).
  - destruct (nlp_scored_other self db player limit s) as (l & s' & E & _).
    exists l, s'. split; [exact E|]. split.
    + now apply (nlp_from_table _ _ _ _ _ _ _ E).
    + intros Hdb. now apply (nlp_ids_NoDup _ _ _ _ _ _ _ Hdb E).
  - destruct (hybrid_shape self db player limit s)
      as (stat & nlp & s1 & s2 & Hs & Hn & Hso & Hno & E).
    eexists; eexists. split; [exact E|]. split.
    + apply fused_from_table.
      * now apply (statistical_from_table _ _ _ _ _ _ _ Hs).
      * now apply (nlp_from_table _ _ _ _ _ _ _ Hn).
    + intros _. now apply (fused_ids_NoDup player).
Qed.

Lemma X16_witness :
  exists l s',
    find_similar_players example_service league target 5 "hybrid" [false; true]
    = (Ok l, s')
    /\ Forall (from_table league) l
    /\ NoDup (map id l).
Proof.
  destruct (X16_results_come_from_the_table example_service league target 5
              "hybrid" [false; true]) as (l & s' & E & Hfrom & Hnd).
  - simpl. auto.
  - exists l, s'. split; [exact E|]. split; [exact Hfrom|].
    apply Hnd. simpl. repeat constructor; simpl; intuition discriminate.
Defined.

(** ** Scores *)

Lemma statistics_vector_in_range (p : Player) :
  in_range p -> Forall (fun x => 0 <= x) (statistics_vector p).
Proof.
  intros H. destruct (statistics_vector_unit p H) as (v & E & _ & U).
  rewrite get_statistics_vector_total in E. injection E as <-.
  now apply unit_interval_nonneg.
Qed.

Lemma unit_score_nonneg (o : option R) : unit_score o -> nonneg_score o.
Proof. intros (x & E & Hx). exists x. split; [exact E | apply Hx]. Qed.

Lemma fallback_unit_scores self db player limit (s s' : Faults)
    (l : list Player) :
  _fallback_similarity_search self db player limit s = (Ok l, s') ->
  Forall (fun q => unit_score (similarity_score q)) l.
Proof.
  rewrite fallback_run.
  destruct (limit <? 0)%Z; [intros [= <- _]; constructor|].
  destruct (next_fails s); [intros [= <- _]; constructor|].
  intros [= <- _]. apply Forall_forall. intros q Hq.
  apply in_map_iff in Hq. destruct Hq as (c & <- & _).
  exists (5 / 10). split; [reflexivity | unfold unit_interval; lra].
Qed.

Lemma ranked_kept_scores (Q : R -> Prop) (limit : Z) (threshold : R)
    (score : Player -> R) (pool : list Player) :
  (forall c, In c pool -> Q (score c)) ->
  Forall (fun q => exists x, similarity_score q = Some x /\ Q x)
    (ranked limit (kept threshold score pool)).
Proof.
  intros H. apply Forall_forall. intros q Hq.
  apply ranked_kept_in in Hq. destruct Hq as (c & Hc & _ & ->).
  exists (score c). split; [reflexivity | now apply H].
Qed.

Lemma statistical_nonneg_scores self db player limit (s s' : Faults)
    (l : list Player) :
  in_range player -> Forall in_range db ->
  _find_statistical_similarities self db player limit s = (Ok l, s') ->
  Forall (fun q => nonneg_score (similarity_score q)) l.
Proof.
  intros Hp Hdb. rewrite statistical_run. destruct (next_fails s).
  - intros E. eapply Forall_impl; [|exact (fallback_unit_scores _ _ _ _ _ _ _ E)].
    intros q. apply unit_score_nonneg.
  - intros [= <- _]. apply (ranked_kept_scores (fun x => 0 <= x)).
    intros c Hc.
    apply (Permutation_in _ (Permutation_sym (Meta_ordered_perm _))) in Hc.
    apply selected_statistical in Hc. destruct Hc as [Hc _].
    rewrite Forall_forall in Hdb.
    apply cosine_nonneg; apply statistics_vector_in_range; auto.
Qed.

Lemma nlp_unit_scores self db player limit (s s' : Faults) (l : list Player) :
  _find_nlp_similarities self db player limit s = (Ok l, s') ->
  Forall (fun q => unit_score (similarity_score q)) l.
Proof.
  rewrite nlp_run. destruct (next_fails s).
  - apply fallback_unit_scores.
  - intros [= <- _]. apply (ranked_kept_scores unit_interval). intros c _.
    apply text_similarity_unit.
Qed.

Lemma fused_nonneg_scores (limit : Z) (stat nlp : list Player) :
  Forall (fun q => nonneg_score (similarity_score q)) stat ->
  Forall (fun q => nonneg_score (similarity_score q)) nlp ->
  Forall (fun q => nonneg_score (similarity_score q))
    (ranked limit (fused stat nlp)).
Proof.
  intros Hs Hn. rewrite Forall_forall in Hs, Hn.
  assert (Hzero : nonneg_score (Some 0)).
  { exists 0. split; [reflexivity | lra]. }
  assert (He : Forall (fun item => nonneg_score (statistical_score (snd item))
                                   /\ nonneg_score (nlp_score (snd item)))
                 (entries stat nlp)).
  { apply (entries_Forall
             (fun e => nonneg_score (statistical_score e)
                       /\ nonneg_score (nlp_score e))); simpl.
    - intros p Hp. split; [now apply Hs | exact Hzero].
    - intros p Hp. split; [exact Hzero | now apply Hn].
    - intros p data Hp [H1 _]. split; [exact H1 | now apply Hn]. }
  apply Forall_forall. intros q Hq. apply fused_in in Hq.
  destruct Hq as (item & Hi & ->).
  rewrite Forall_forall in He.
  destruct (He _ Hi) as [(x & Ex & Ux) (y & Ey & Uy)].
  exists (fused_score (snd item)). split; [reflexivity|].
  unfold fused_score. rewrite Ex, Ey. simpl. lra.
Qed.

(** X17. When the percentages, counts, minutes and age of the target and
    of every record of the table are in range, no record that
    [find_similar_players] returns carries a negative score, whatever the
    method, the limit, the threshold and the behaviour of the store.
    With the NLP method the score is moreover at most 1, for every
    table. *)
Theorem X17_scores_not_negative self db player limit method (s : Faults) :
  In method strategies ->
  exists l s',
    find_similar_players self db player limit method s = (Ok l, s')
    /\ (in_range player -> Forall in_range db ->
        Forall (fun q => nonneg_score (similarity_score q)) l)
    /\ (method = "nlp" -> Forall (fun q => unit_score (similarity_score q)) l).
Proof.
  intros Hm.
  destruct Hm as [<-|[<-|[<-|[]]]]; unfold find_similar_players; simpl.
  - destruct (statistical_scored_other self db player limit s)
      as (l & s' & E & _).
    exists l, s'. split; [exact E|]. split; [|discriminate].
    intros Hp Hdb. now apply (statistical_nonneg_scores _ _ _ _ _ _ _ Hp Hdb E).
  - destruct (nlp_scored_other self db player limit s) as (l & s' & E & _).
    exists l, s'. split; [exact E|].
    pose proof (nlp_unit_scores _ _ _ _ _ _ _ E) as Hu.
    split; [|intros _; exact Hu].
    intros _ _. eapply Forall_impl; [|exact Hu].
    intros q. apply unit_score_nonneg.
  - destruct (hybrid_shape self db player limit s)
      as (stat & nlp & s1 & s2 & Hs & Hn & _ & _ & E).
    eexists; eexists. split; [exact E|]. split; [|discriminate].
    intros Hp Hdb. apply fused_nonneg_scores.
    + now apply (statistical_nonneg_scores _ _ _ _ _ _ _ Hp Hdb Hs).
    + eapply Forall_impl; [|exact (nlp_unit_scores _ _ _ _ _ _ _ Hn)].
      intros q. apply unit_score_nonneg.
Qed.

Lemma league_in_range : Forall in_range league.
Proof.
  unfold league. repeat apply Forall_cons; try apply Forall_nil;
    apply blank_in_range; solve [lra | lia].
Qed.

Lemma X17_witness :
  exists l s',
    find_similar_players example_service league target 5 "hybrid" [] = (Ok l, s')
    /\ Forall (fun q => nonneg_score (similarity_score q)) l.
Proof.
  destruct (X17_scores_not_negative example_service league target 5 "hybrid" [])
    as (l & s' & E & H & _); [simpl; auto|].
  exists l, s'. split; [exact E|]. apply H.
  - apply blank_in_range; solve [lra | lia].
  - exact league_in_range.
Defined.

(** ** A negative limit *)

(** X18. With a negative limit the strategies and the fallback differ.
    When the round trip succeeds, the statistical strategy returns its
    ranked candidates without the last [- limit] of them (Python slicing),
    so it can return more than nothing; the fallback search refuses a
    negative bound and returns the empty list without asking the store. *)
Theorem X18_negative_limit self db player limit (s : Faults) :
  (limit < 0)%Z ->
  _fallback_similarity_search self db player limit s = (Ok [], s)
  /\ (next_fails s = false ->
      _find_statistical_similarities self db player limit s
      = (Ok (firstn (List.length (statistical_shortlist self db player)
                     - Z.to_nat (- limit))
               (statistical_shortlist self db player)),
         tl s))
  /\ (next_fails s = true ->
      _find_statistical_similarities self db player limit s = (Ok [], tl s)).
Proof.
  intros Hl.
  assert (Hneg : (limit <? 0)%Z = true) by now apply Z.ltb_lt.
  assert (Hfb : forall s0,
             _fallback_similarity_search self db player limit s0 = (Ok [], s0)).
  { intros s0. now rewrite fallback_run, Hneg. }
  split; [apply Hfb|]. split.
  - intros Hs. rewrite statistical_run, Hs, ranked_shortlist.
    unfold Py.slice_to, statistical_shortlist.
    destruct (Z.leb_spec 0 limit); [lia | reflexivity].
  - intros Hs. rewrite statistical_run, Hs. apply Hfb.
Qed.

Lemma slice_to_short {A} (l r : list A) (n : Z) :
  (0 <= n)%Z -> Py.slice_to l n = r -> (List.length r < Z.to_nat n)%nat ->
  l = r.
Proof.
  intros Hn E Hr. unfold Py.slice_to in E.
  destruct (Z.leb_spec 0 n); [|lia]. subst r.
  rewrite length_firstn in Hr. symmetry. apply firstn_all2. lia.
Qed.

Lemma league_shortlist :
  statistical_shortlist example_service league target
  = [set_similarity_score ann 1; set_similarity_score bob 1].
Proof.
  pose proof league_result as H. rewrite statistical_run in H.
  simpl next_fails in H. cbv iota in H. rewrite ranked_shortlist in H.
  injection H as H. apply slice_to_short in H; [exact H | lia |].
  cbn [List.length]. lia.
Qed.

Lemma X18_witness :
  _find_statistical_similarities example_service league target (-1) []
  = (Ok [set_similarity_score ann 1], [])
  /\ _fallback_similarity_search example_service league target (-1) []
     = (Ok [], []).
Proof.
  destruct (X18_negative_limit example_service league target (-1) [])
    as (Hfb & Hstat & _); [lia|].
  split; [|exact Hfb].
  rewrite Hstat by reflexivity. rewrite league_shortlist. reflexivity.
Defined.

(* ================================================================== *)
(** * Further properties of the views *)

(** ** The [similar] action *)

Lemma find_similar_length self db player limit method (s s' : Faults)
    (l : list Player) :
  (0 <= limit)%Z -> In method strategies ->
  find_similar_players self db player limit method s = (Ok l, s') ->
  (List.length l <= Z.to_nat limit)%nat.
Proof.
  intros Hl Hm.
  destruct Hm as [<-|[<-|[<-|[]]]]; unfold find_similar_players; simpl;
    intros E.
  - now apply (statistical_length _ _ _ _ _ _ _ E).
  - now apply (nlp_length _ _ _ _ _ _ _ E).
  - now apply (hybrid_length _ _ _ _ _ _ _ E).
Qed.

Lemma valid_methods_in (method : string) :
  existsb (String.eqb method) Views.valid_methods = true
  <-> In method strategies.
Proof.
  rewrite existsb_exists. unfold Views.valid_methods, strategies. split.
  - intros (m & Hm & E). apply String.eqb_eq in E. now subst.
  - intros H. exists method. split; [exact H | apply String.eqb_refl].
Qed.

(** X19. The [similar] action, for every way the lookup of the record
    and the store may behave.  An exception of the lookup of the record,
    and the ValueError of a limit parameter that is not a number, leave
    the action uncaught: both happen before the [try].  Once the record
    is found and the limit read, a method outside the three is answered
    with status 400 and no further query.  Otherwise the answer has status
    200, never the 500 of the handler: it carries the list that
    [find_similar_players] returns for the limit capped at 20, the method
    (hybrid when the parameter is absent), and the length of that list as
    [total_found]; the target is not in the list, and for a limit that is
    not negative [total_found] is at most 20. *)
Theorem X19_similar_action (get_object : M Player) (int : string -> result Z)
    self db limit_param method_param (s : Faults) :
  (forall e s1,
      get_object s = (Raise e, s1) ->
      Views.similar get_object int self db limit_param method_param s
      = (Raise e, s1))
  /\ (forall player s1,
         get_object s = (Ok player, s1) ->
         (forall e,
             limit_of int limit_param = Raise e ->
             Views.similar get_object int self db limit_param method_param s
             = (Raise e, s1))
         /\ (forall n,
                limit_of int limit_param = Ok n ->
                (~ In (method_of method_param) strategies ->
                 exists error,
                   Views.similar get_object int self db limit_param
                     method_param s
                   = (Ok (Views.mkResponse (Views.SimilarError error) 400), s1))
                /\ (In (method_of method_param) strategies ->
                    exists l s2,
                      find_similar_players self db player (Z.min n 20)
                        (method_of method_param) s1 = (Ok l, s2)
                      /\ Views.similar get_object int self db limit_param
                           method_param s
                         = (Ok (Views.mkResponse
                                  (Views.SimilarPlayers player l
                                     (method_of method_param) (Z.min n 20)
                                     (Z.of_nat (List.length l)))
                                  200),
                            s2)
                      /\ Forall (fun q => id q <> id player) l
                      /\ ((0 <= n)%Z ->
                          (Z.of_nat (List.length l) <= 20)%Z)))).
Proof.
  split.
  - intros e s1 Hg. unfold Views.similar, bind. now rewrite Hg.
  - intros player s1 Hg. split.
    + intros e He. unfold Views.similar, bind, lift. rewrite Hg.
      fold (limit_of int limit_param). now rewrite He.
    + intros n Hn.
      assert (Hrun :
                Views.similar get_object int self db limit_param method_param s
                = (if negb (existsb (String.eqb (method_of method_param))
                              Views.valid_methods)
                   then ret (Views.mkResponse
                               (Views.SimilarError
                                  "Invalid method. Choose from: ['statistical', 'nlp', 'hybrid']")
                               400)
                   else
                     try_except
                       (similar_players <-
                          find_similar_players self db player (Z.min n 20)
                            (method_of method_param) ;;
                        ret (Views.mkResponse
                               (Views.SimilarPlayers player similar_players
                                  (method_of method_param) (Z.min n 20)
                                  (Z.of_nat (List.length similar_players)))
                               200))
                       (fun e => ret (Views.mkResponse (Views.SimilarFailure e) 500)))
                    s1).
      { unfold Views.similar, bind at 1 2, lift. rewrite Hg.
        fold (limit_of int limit_param). rewrite Hn. reflexivity. }
      rewrite Hrun. split.
      * intros Hm. eexists.
        destruct (existsb (String.eqb (method_of method_param))
                    Views.valid_methods) eqn:Ev;
          [apply valid_methods_in in Ev; contradiction|].
        reflexivity.
      * intros Hm.
        destruct (find_similar_valid self db player (Z.min n 20)
                    (method_of method_param) s1 Hm) as (l & s2 & E & Hso).
        exists l, s2. split; [exact E|]. split; [|split].
        -- apply valid_methods_in in Hm. rewrite Hm. cbn [negb].
           unfold try_except, bind. rewrite E. reflexivity.
        -- eapply Forall_impl; [|exact Hso]. intros q Hq. apply Hq.
        -- intros Hl.
           assert (H20 : (0 <= Z.min n 20)%Z) by lia.
           pose proof (find_similar_length _ _ _ _ _ _ _ _ H20 Hm E). lia.
Qed.

Lemma X19_witness :
  Views.similar (found <- fetch (objects league) ;; ret target)
    (fun _ => Ok 50%Z) example_service league (Some "50") None [true]
  = (Raise DatabaseError, [])
  /\ Views.similar (ret target)
       (fun _ => Raise (ValueError "invalid literal for int()"))
       example_service league (Some "many") None [true]
     = (Raise (ValueError "invalid literal for int()"), [true])
  /\ (exists l s',
         Views.similar (ret target) (fun _ => Ok 50%Z) example_service league
           (Some "50") None [true; true]
         = (Ok (Views.mkResponse
                  (Views.SimilarPlayers target l "hybrid" 20
                     (Z.of_nat (List.length l)))
                  200),
            s')
         /\ (Z.of_nat (List.length l) <= 20)%Z).
Proof.
  split; [|split].
  - apply (X19_similar_action (found <- fetch (objects league) ;; ret target)
             (fun _ => Ok 50%Z) example_service league (Some "50") None [true]).
    reflexivity.
  - destruct (X19_similar_action (ret target)
                (fun _ => Raise (ValueError "invalid literal for int()"))
                example_service league (Some "many") None [true]) as [_ H].
    destruct (H target [true] eq_refl) as [Hparse _].
    apply Hparse. reflexivity.
  - destruct (X19_similar_action (ret target) (fun _ => Ok 50%Z)
                example_service league (Some "50") None [true; true])
      as [_ H].
    destruct (H target [true; true] eq_refl) as [_ Hrest].
    destruct (Hrest 50%Z eq_refl) as [_ Hvalid].
    destruct Hvalid as (l & s' & _ & E & _ & Hlen); [simpl; auto|].
    exists l, s'. split; [exact E | apply Hlen; lia].
Defined.

(** ** The list of records *)

Lemma filter_all {A} (l : list A) : List.filter (fun _ => true) l = l.
Proof. induction l; simpl; congruence. Qed.

Lemma selected_filter (c : Player -> bool) (qs : QuerySet) :
  selected (qs_filter c qs) = List.filter c (selected qs).
Proof.
  unfold selected, qs_filter. cbn [table conditions].
  induction (table qs) as [|p l IH]; [reflexivity|].
  cbn [List.filter]. rewrite forallb_app. cbn [forallb].
  rewrite andb_true_r.
  destruct (forallb (fun c0 => c0 p) (conditions qs)); cbn [andb].
  - cbn [List.filter]. destruct (c p); now rewrite IH.
  - exact IH.
Qed.

Lemma filter_filter {A} (f g : A -> bool) (l : list A) :
  List.filter g (List.filter f l) = List.filter (fun x => f x && g x) l.
Proof.
  induction l as [|x l IH]; [reflexivity|]. simpl.
  destruct (f x); simpl; [destruct (g x)|]; now rewrite IH.
Qed.

Lemma order_by_goals_assists (qs : QuerySet) :
  stop qs = None -> annotations qs = [] ->
  qs_order_by ["-goals"; "-assists"] qs
  = Ok (mkQuerySet (table qs) (conditions qs) [] ["-goals"; "-assists"] None).
Proof. destruct qs; simpl; intros -> ->; reflexivity. Qed.

Lemma builtin_sort_rows (qs : QuerySet) (sort_key : string) (reverse : bool) :
  is_valid_sort_option SORT_OPTIONS sort_key = true ->
  stop qs = None -> annotations qs = [] ->
  exists sorted f,
    apply_sorting SORT_OPTIONS qs sort_key reverse = Ok sorted
    /\ rows sorted = Ok (ordered_by f reverse (selected qs))
    /\ (forall o g, lookup sort_key SORT_OPTIONS = Some o ->
                    lookup (field o) columns = Some g -> f = g).
Proof.
  unfold is_valid_sort_option. intros Hv Hs Ha.
  destruct (lookup sort_key SORT_OPTIONS) as [o|] eqn:Ho; [|discriminate].
  destruct (builtin_fields_resolve _ _ Ho) as [Hcol|Hcalc].
  - destruct (lookup (field o) columns) as [f|] eqn:Hf; [|contradiction].
    destruct (apply_sorting_stored SORT_OPTIONS qs sort_key reverse o f Ho Hf)
      as (sorted & Happly & Hrows); [now rewrite Ha | exact Hs |].
    exists sorted, f. repeat split; try assumption.
    intros o' g [= <-] Hg. congruence.
  - destruct (calculated_annotation (field o)) as [[name e]|] eqn:Hc;
      [|contradiction].
    destruct (calculated_annotation_some _ _ _ Hc) as [Hyes _].
    destruct (apply_sorting_calculated SORT_OPTIONS qs sort_key reverse o name e
                _ Ho Hc
                (total_as_function e (calculated_annotation_total _ _ _ Hc)) Hs)
      as (sorted & Happly & Hrows).
    eexists; eexists. split; [exact Happly|]. split; [exact Hrows|].
    intros o' g [= <-] Hg. destruct (columns_plain _ _ Hg) as [_ Hno].
    congruence.
Qed.

Lemma rows_by_goals_assists (qs : QuerySet) :
  annotations qs = [] -> ordering qs = ["-goals"; "-assists"] ->
  stop qs = None ->
  rows qs = Ok (by_goals_assists (selected qs)).
Proof.
  destruct qs as [t cs an ord st]. cbn [annotations ordering stop].
  intros -> -> ->. rewrite (rows_eval _ goal_keys); reflexivity.
Qed.

Lemma default_order_rows (qs : QuerySet) :
  stop qs = None -> annotations qs = [] ->
  exists sorted,
    qs_order_by ["-goals"; "-assists"] qs = Ok sorted
    /\ rows sorted = Ok (by_goals_assists (selected qs)).
Proof.
  intros Hs Ha. rewrite (order_by_goals_assists qs Hs Ha).
  eexists. split; [reflexivity|].
  now rewrite rows_by_goals_assists.
Qed.

Lemma flagged_query (db : list Player) (params : Views.Params)
    (queryset : QuerySet) :
  queryset
  = (let queryset := objects db in
     let queryset :=
       if Views.truthy (Views.top_performers params) then
         qs_filter (fun p => (5 <=? goals p)%Z || (5 <=? assists p)%Z
                             || (8 <=? goals_assists p)%Z)
                   queryset
       else queryset in
     if Views.truthy (Views.regular_players params) then
       qs_filter (fun p => (5 <=? matches_played p)%Z && (450 <=? minutes p)%Z)
                 queryset
     else queryset) ->
  stop queryset = None /\ annotations queryset = []
  /\ selected queryset = List.filter (listed params) db.
Proof.
  intros ->. cbv zeta.
  assert (Hall : selected (objects db) = db).
  { unfold selected, objects. cbn [table conditions forallb]. apply filter_all. }
  unfold listed.
  destruct (Views.truthy (Views.top_performers params));
    destruct (Views.truthy (Views.regular_players params));
    (split; [reflexivity|]); (split; [reflexivity|]);
    rewrite ?selected_filter, ?filter_filter, Hall.
  - reflexivity.
  - apply filter_ext. intros p. now rewrite andb_true_r.
  - reflexivity.
  - symmetry. apply filter_all.
Qed.

(** X20. The list of records of [PlayerViewSet.get_queryset] with the
    built-in registry, for every table and every value of the four query
    parameters.  It never fails: a query is returned and its evaluation
    succeeds.  The rows are exactly the records of the table that pass
    the flags that are set (top performers: 5 goals, 5 assists or 8
    goals and assists; regular players: 5 matches and 450 minutes), each
    once.  When [sort_by] is absent, empty or not a registered key, goals
    never increase down the list, nor assists among equal goals; when it
    is a registered key of a stored attribute, that attribute never
    increases down the list, or never decreases when [sort_order] is
    given and differs from [desc] in more than letter case.  Nothing is
    said about the order of records that these keys do not tell apart. *)
Theorem X20_list_of_records (db : list Player) (params : Views.Params) :
  exists qs out,
    Views.get_queryset SORT_OPTIONS db params = Ok qs
    /\ rows qs = Ok out
    /\ Permutation (List.filter (listed params) db) out
    /\ ((forall sort_key, Views.sort_by params = Some sort_key ->
                          is_valid_sort_option SORT_OPTIONS sort_key = false) ->
        Sorted goals_then_assists out)
    /\ (forall sort_key o f,
           Views.sort_by params = Some sort_key ->
           lookup sort_key SORT_OPTIONS = Some o ->
           lookup (field o) columns = Some f ->
           Sorted (fun a b => if descending params
                              then value_lt (f a) (f b) = false
                              else value_lt (f b) (f a) = false) out).
Proof.
  unfold Views.get_queryset. cbv zeta.
  match goal with
  | |- context [qs_order_by _ ?q] => remember q as queryset eqn:Hq
  end.
  destruct (flagged_query db params queryset Hq) as (Hs & Ha & Hsel).
  clear Hq.
  destruct (default_order_rows queryset Hs Ha) as (dflt & Hd & Hdrows).
  assert (Hdefault :
            (forall sort_key o, Views.sort_by params = Some sort_key ->
                                lookup sort_key SORT_OPTIONS = Some o -> False) ->
            exists qs out,
              qs_order_by ["-goals"; "-assists"] queryset = Ok qs
              /\ rows qs = Ok out
              /\ Permutation (List.filter (listed params) db) out
              /\ ((forall sort_key, Views.sort_by params = Some sort_key ->
                     is_valid_sort_option SORT_OPTIONS sort_key = false) ->
                  Sorted goals_then_assists out)
              /\ (forall sort_key o f,
                     Views.sort_by params = Some sort_key ->
                     lookup sort_key SORT_OPTIONS = Some o ->
                     lookup (field o) columns = Some f ->
                     Sorted (fun a b => if descending params
                                        then value_lt (f a) (f b) = false
                                        else value_lt (f b) (f a) = false)
                       out)).
  { intros Hno. exists dflt, (by_goals_assists (selected queryset)).
    split; [exact Hd|]. split; [exact Hdrows|]. rewrite Hsel.
    split; [apply by_goals_assists_perm|].
    split; [intros _; apply by_goals_assists_sorted|].
    intros sort_key o f Hk Ho _. destruct (Hno sort_key o Hk Ho). }
  destruct (Views.sort_by params) as [sort_key|] eqn:Hkey.
  - destruct (Views.truthy (Some sort_key)
              && is_valid_sort_option SORT_OPTIONS sort_key) eqn:Hv.
    + apply andb_true_iff in Hv. destruct Hv as [_ Hv].
      assert (Hdir : String.eqb
                       (lower match Views.sort_order params with
                              | Some s => s
                              | None => "desc"
                              end) "desc"
                     = descending params).
      { unfold descending. now destruct (Views.sort_order params). }
      rewrite Hdir.
      destruct (builtin_sort_rows queryset sort_key (descending params)
                  Hv Hs Ha) as (sorted & f & Happly & Hrows & Hf).
      exists sorted, (ordered_by f (descending params) (selected queryset)).
      split; [exact Happly|]. split; [exact Hrows|]. rewrite Hsel.
      split; [apply ordered_by_perm|]. split.
      * intros Hno. specialize (Hno sort_key eq_refl). congruence.
      * intros k o g [= <-] Ho Hg. rewrite (Hf o g Ho Hg).
        apply ordered_by_sorted.
    + apply Hdefault. intros k o [= <-] Ho.
      apply andb_false_iff in Hv. destruct Hv as [Hv|Hv].
      * destruct sort_key; [discriminate Ho | discriminate Hv].
      * unfold is_valid_sort_option in Hv. now rewrite Ho in Hv.
  - apply Hdefault. intros k o Hk. discriminate Hk.
Qed.

Lemma X20_witness :
  exists qs out,
    Views.get_queryset SORT_OPTIONS league
      (Views.mkParams None (Some "1") (Some "age") (Some "ASC")) = Ok qs
    /\ rows qs = Ok out
    /\ Sorted (fun a b => value_lt (VFloat (age b)) (VFloat (age a)) = false)
         out.
Proof.
  destruct (X20_list_of_records league
              (Views.mkParams None (Some "1") (Some "age") (Some "ASC")))
    as (qs & out & E & Hrows & _ & _ & H).
  exists qs, out. split; [exact E|]. split; [exact Hrows|].
  exact (H "age" (mkSortOption "Age" "age" "Player age" "basic")
           (fun p => VFloat (age p)) eq_refl eq_refl eq_refl).
Defined.
